(** * EquiLedger: financial rules, operation handlers and workflow engine

    A shallow embedding of the core of the EquiLedger assistant:

    - [src/lib/db/schema.ts]: the tables and the constraints the store
      enforces on them;
    - [src/lib/ai/service.ts]: [AIService.processQuery],
      [AIService.createInvoice], [AIService.logExpense] and
      [AIService.getFinancialSummary];
    - [src/app/api/invoices/[id]/mark-paid/route.ts]: the mark-paid
      endpoint and, in the same file, the invoices endpoint with its own
      [CreateInvoiceSchema];
    - [src/app/api/expenses/route.ts] and [src/app/api/ai/chat/route.ts]:
      the expenses endpoint and the chat endpoint;
    - the workflow engine ([WorkflowEngine.execute] and its steps);
    - the financial summary of the reports endpoint ([POST /api/reports]);
    - [src/lib/ai/advanced-service.ts]: the margin of
      [analyzeFinancialHealth], its insights and recommendations.

    Conventions of the model.

    - A JavaScript number is an exact rational ([Q]); IEEE rounding is
      outside the model.  A column [decimal(12, 2)] keeps a number rounded
      to two decimals and refuses one that does not fit.  The quotient of
      two numbers is a [JsNumber], so that a division by zero shows up as
      [NaN] or an infinity instead of being defined away.
    - An identifier ([Id]) stands for the value of a [uuid] column.  The
      store draws the identifiers of new rows from a counter.
    - A table is the list of its rows in insertion order; [limit(1)] takes
      the first matching row.
    - [await]ed code is sequential state passing over the store; an
      exception is a [Throw] result, and what was written to the store
      before the exception stays written (the code opens no transaction).
    - The clock ([new Date()]) is an argument [now], in milliseconds; a
      handler that reads the clock more than once reads the same instant.
    - The message of an error of the driver is a fixed text.  The driver
      itself quotes the statement and its parameters in the message, so
      whether the engine retries such an error depends on the data of the
      step; what is proved about retries holds for every [executeStep]
      and every error.
    - [toLowerCase] is the one of ASCII. *)

From Stdlib Require Import ZArith QArith Qround Lqa Ascii String List Lia.
From stdpp Require Import base strings gmap list pretty.
From Stdlib Require Import Sorted.

Local Open Scope string_scope.

(** ** JavaScript values, numbers and strings *)

Inductive JsVal : Type :=
| JUndefined
| JNull
| JBool (b : bool)
| JNum (q : Q)
| JStr (s : string)
| JObject.            (* any other value: an array, a nested object *)

(** The result of a floating-point division, keeping the non-finite
    outcomes apart. *)
Inductive JsNumber : Type :=
| Finite (q : Q)
| NaN
| Infinity
| NegInfinity.

Definition Qltb (a b : Q) : bool := negb (Qle_bool b a).

Definition js_div (a b : Q) : JsNumber :=
  if Qeq_bool b 0 then
    if Qeq_bool a 0 then NaN
    else if Qltb 0 a then Infinity else NegInfinity
  else Finite (a / b).

Definition js_mul (x : JsNumber) (k : Q) : JsNumber :=
  match x with
  | Finite q => Finite (q * k)
  | NaN => NaN
  | Infinity =>
      if Qeq_bool k 0 then NaN else if Qltb 0 k then Infinity else NegInfinity
  | NegInfinity =>
      if Qeq_bool k 0 then NaN else if Qltb 0 k then NegInfinity else Infinity
  end.

Definition is_finite (x : JsNumber) : bool :=
  match x with Finite _ => true | _ => false end.

(** [String.prototype.toLowerCase], on ASCII letters. *)
Definition lower_ascii (c : ascii) : ascii :=
  let n := nat_of_ascii c in
  if (65 <=? n)%nat && (n <=? 90)%nat then ascii_of_nat (n + 32) else c.

Fixpoint toLowerCase (s : string) : string :=
  match s with
  | EmptyString => EmptyString
  | String c s' => String (lower_ascii c) (toLowerCase s')
  end.

(** [s.includes(sub)]. *)
Fixpoint includes (s sub : string) : bool :=
  String.prefix sub s ||
  match s with
  | EmptyString => false
  | String _ s' => includes s' sub
  end.

Fixpoint repeat_char (n : nat) (c : ascii) : string :=
  match n with
  | O => EmptyString
  | S n' => String c (repeat_char n' c)
  end.

(** [s.padStart(targetLength, c)] for a one-character filler. *)
Definition padStart (targetLength : nat) (c : ascii) (s : string) : string :=
  repeat_char (targetLength - String.length s) c +:+ s.

(** [String(n)] for a non-negative integer. *)
Definition String_of_nat (n : nat) : string := pretty n.

(** ** Exceptions *)

Inductive ErrorClass : Type :=
| PlainError          (* new Error(...) *)
| ZodError            (* thrown by Schema.parse *)
| ReferenceError      (* a binding read before its initialisation *)
| TypeError           (* a property read from undefined *)
| DriverError.        (* raised by the database driver *)

Inductive Thrown : Type :=
| ErrorObj (cls : ErrorClass) (message : string)   (* instanceof Error *)
| NonError (v : JsVal).                            (* any other thrown value *)

Inductive Exc (A : Type) : Type :=
| Ok (a : A)
| Throw (e : Thrown).
Arguments Ok {A} a.
Arguments Throw {A} e.

Definition exc_bind {A B} (x : Exc A) (k : A -> Exc B) : Exc B :=
  match x with
  | Ok a => k a
  | Throw e => Throw e
  end.

Definition Timestamp := Z.

(** ** The store ([src/lib/db/schema.ts])

    Only the columns the modelled code reads or writes are kept.  Of the
    constraints of the schema the model keeps the two that can fire on the
    modelled paths: the uniqueness of [invoices.invoice_number] and the
    foreign key of [expenses.user_id].  Every other foreign key is that of
    a row the code has just read or written, and primary keys are fresh by
    construction. *)

Definition Id := nat.

Inductive InvoiceStatus : Type := DRAFT | SENT | PAID | OVERDUE | CANCELLED.

Definition InvoiceStatus_eqb (a b : InvoiceStatus) : bool :=
  match a, b with
  | DRAFT, DRAFT | SENT, SENT | PAID, PAID
  | OVERDUE, OVERDUE | CANCELLED, CANCELLED => true
  | _, _ => false
  end.

Record User : Type := mkUser { user_id : Id }.

Record Client : Type := mkClient {
  client_id : Id;
  client_userId : Id;
  client_name : string }.

Record Invoice : Type := mkInvoice {
  inv_id : Id;
  inv_userId : Id;
  inv_clientId : Id;
  inv_invoiceNumber : string;
  inv_currency : string;
  inv_vatIncluded : bool;
  inv_vatRate : Q;
  inv_status : InvoiceStatus;
  inv_dueDate : Timestamp;
  inv_paidAt : option Timestamp }.

Record InvoiceItem : Type := mkInvoiceItem {
  item_id : Id;
  item_invoiceId : Id;
  item_description : string;
  item_quantity : Z;
  item_unitPrice : Q;
  item_lineTotal : option Q }.       (* a nullable column *)

Record Payment : Type := mkPayment {
  pay_id : Id;
  pay_invoiceId : Id;
  pay_amount : Q;
  pay_method : string;
  pay_paidAt : Timestamp }.

Record Expense : Type := mkExpense {
  exp_id : Id;
  exp_userId : Id;
  exp_description : string;
  exp_amount : Q;
  exp_currency : string;
  exp_category : string;
  exp_date : Timestamp;
  exp_receipt : option string;
  exp_vatAmount : option Q }.

Record Db : Type := mkDb {
  users : list User;
  clients : list Client;
  invoices : list Invoice;
  invoiceItems : list InvoiceItem;
  payments : list Payment;
  expenses : list Expense;
  nextId : Id }.

(** Sequential code over the store that may throw. *)
Definition M (A : Type) : Type := Db -> Exc A * Db.

Definition ret {A} (a : A) : M A := fun db => (Ok a, db).
Definition throw {A} (e : Thrown) : M A := fun db => (Throw e, db).
Definition bind {A B} (c : M A) (k : A -> M B) : M B :=
  fun db =>
    match c db with
    | (Ok a, db') => k a db'
    | (Throw e, db') => (Throw e, db')
    end.
Definition lift {A} (x : Exc A) : M A := fun db => (x, db).
Definition query {A} (f : Db -> A) : M A := fun db => (Ok (f db), db).

Notation "'let*' x ':=' c 'in' k" := (bind c (fun x => k))
  (at level 10, x name, c at level 100, k at level 200, only parsing).

(** [db.select().from(users).where(eq(users.id, userId))] *)
Definition select_users (userId : Id) (db : Db) : list User :=
  List.filter (fun u => user_id u =? userId)%nat (users db).

(** [db.select().from(clients).where(and(eq(userId), eq(name)))] *)
Definition select_clients (userId : Id) (name : string) (db : Db) : list Client :=
  List.filter (fun c => (client_userId c =? userId)%nat && String.eqb (client_name c) name)
         (clients db).

(** [db.select().from(invoices).where(eq(invoices.userId, userId))] *)
Definition select_invoices_of (userId : Id) (db : Db) : list Invoice :=
  List.filter (fun i => inv_userId i =? userId)%nat (invoices db).

(** [db.select().from(invoices).where(and(eq(id), eq(userId)))] *)
Definition select_invoice (invoiceId userId : Id) (db : Db) : list Invoice :=
  List.filter (fun i => (inv_id i =? invoiceId)%nat && (inv_userId i =? userId)%nat)
         (invoices db).

(** [db.select().from(invoiceItems).where(eq(invoiceItems.invoiceId, id))] *)
Definition select_items (invoiceId : Id) (db : Db) : list InvoiceItem :=
  List.filter (fun it => item_invoiceId it =? invoiceId)%nat (invoiceItems db).

(** [.limit(1)] *)
Definition limit1 {A} (rows : list A) : list A := firstn 1 rows.

(** A column [decimal(12, 2)] keeps a number rounded to two decimals,
    a tie away from 0, and the driver throws when the rounded number has
    more than ten digits before the point. *)
Definition round_half_away (x : Q) : Z :=
  if Qltb x 0 then (- Qfloor (- x + (1 # 2)))%Z else Qfloor (x + (1 # 2)).

Definition cents (x : Q) : Q :=
  Qred (inject_Z (round_half_away (x * 100)) / 100).

Definition fits_decimal_12_2 (x : Q) : bool :=
  (Z.abs (round_half_away (x * 100)) <? 10 ^ 12)%Z.

(** The message of the driver's error for a number that does not fit. *)
Definition numeric_overflow : string := "numeric field overflow".

Definition decimal_12_2 (x : Q) : Exc Q :=
  if fits_decimal_12_2 x then Ok (cents x)
  else Throw (ErrorObj DriverError numeric_overflow).

(** [db.insert(clients).values({userId, name}).returning()] *)
Definition insert_client (userId : Id) (name : string) : M (list Client) :=
  fun db =>
    let c := mkClient (nextId db) userId name in
    (Ok [c],
     mkDb (users db) (clients db ++ [c]) (invoices db) (invoiceItems db)
          (payments db) (expenses db) (S (nextId db))).

(** The message of the driver's error when an insert breaks the
    constraint of [invoiceNumber: text('invoice_number').unique()]. *)
Definition unique_violation : string :=
  "duplicate key value violates unique constraint invoices_invoice_number_unique".

(** [db.insert(invoices).values({...}).returning()].  The column
    [invoice_number] is declared [unique()] over the whole table, so the
    insert is refused when any row, of any user, carries the number. *)
Definition insert_invoice (userId clientId : Id) (invoiceNumber currency : string)
    (vatIncluded : bool) (vatRate : Q) (status : InvoiceStatus)
    (dueDate : Timestamp) : M (list Invoice) :=
  fun db =>
    if existsb (fun i => String.eqb (inv_invoiceNumber i) invoiceNumber) (invoices db)
    then (Throw (ErrorObj DriverError unique_violation), db)
    else
      let i := mkInvoice (nextId db) userId clientId invoiceNumber currency
                         vatIncluded vatRate status dueDate None in
      (Ok [i],
       mkDb (users db) (clients db) (invoices db ++ [i]) (invoiceItems db)
            (payments db) (expenses db) (S (nextId db))).

(** [db.insert(invoiceItems).values({...})]; [unit_price] and
    [line_total] are columns [decimal(12, 2)]. *)
Definition insert_invoiceItem (invoiceId : Id) (description : string)
    (quantity : Z) (unitPrice lineTotal : Q) : M unit :=
  fun db =>
    match decimal_12_2 unitPrice, decimal_12_2 lineTotal with
    | Ok unitPrice, Ok lineTotal =>
        let it := mkInvoiceItem (nextId db) invoiceId description quantity
                                unitPrice (Some lineTotal) in
        (Ok tt,
         mkDb (users db) (clients db) (invoices db) (invoiceItems db ++ [it])
              (payments db) (expenses db) (S (nextId db)))
    | Throw e, _ | Ok _, Throw e => (Throw e, db)
    end.

(** [db.insert(payments).values({...})]; [amount] is a column
    [decimal(12, 2)]. *)
Definition insert_payment (invoiceId : Id) (amount : Q) (method : string)
    (paidAt : Timestamp) : M unit :=
  fun db =>
    match decimal_12_2 amount with
    | Ok amount =>
        let p := mkPayment (nextId db) invoiceId amount method paidAt in
        (Ok tt,
         mkDb (users db) (clients db) (invoices db) (invoiceItems db)
              (payments db ++ [p]) (expenses db) (S (nextId db)))
    | Throw e => (Throw e, db)
    end.

(** The message of the driver's error when [expenses.user_id] names no
    row of [users]. *)
Definition foreign_key_violation : string :=
  "insert or update on table expenses violates foreign key constraint expenses_user_id_users_id_fk".

(** [db.insert(expenses).values({...}).returning()]; [amount] and
    [vat_amount] are columns [decimal(12, 2)], and the row returned is the
    row as stored. *)
Definition insert_expense (userId : Id) (description : string) (amount : Q)
    (currency category : string) (date : Timestamp) (receipt : option string)
    (vatAmount : Q) : M (list Expense) :=
  fun db =>
    match decimal_12_2 amount, decimal_12_2 vatAmount with
    | Ok amount, Ok vatAmount =>
        if existsb (fun u => user_id u =? userId)%nat (users db) then
          let e := mkExpense (nextId db) userId description amount currency
                             category date receipt (Some vatAmount) in
          (Ok [e],
           mkDb (users db) (clients db) (invoices db) (invoiceItems db)
                (payments db) (expenses db ++ [e]) (S (nextId db)))
        else (Throw (ErrorObj DriverError foreign_key_violation), db)
    | Throw e, _ | Ok _, Throw e => (Throw e, db)
    end.

(** [db.update(invoices).set({status: 'PAID', paidAt}).where(eq(invoices.id, id))] *)
Definition update_invoice_paid (invoiceId : Id) (paidAt : Timestamp) : M unit :=
  fun db =>
    let upd i :=
      if (inv_id i =? invoiceId)%nat then
        mkInvoice (inv_id i) (inv_userId i) (inv_clientId i) (inv_invoiceNumber i)
                  (inv_currency i) (inv_vatIncluded i) (inv_vatRate i) PAID
                  (inv_dueDate i) (Some paidAt)
      else i in
    (Ok tt,
     mkDb (users db) (clients db) (map upd (invoices db)) (invoiceItems db)
          (payments db) (expenses db) (nextId db)).

(** [Number(x || 0)] for a nullable decimal column. *)
Definition Number_or_0 (x : option Q) : Q :=
  match x with Some q => q | None => 0 end.

(** [xs.reduce((sum, x) => sum + f(x), 0)] *)
Definition sum_by {A} (f : A -> Q) (xs : list A) : Q :=
  fold_left (fun sum x => sum + f x)%Q xs 0%Q.

(** ** Numbers for display: [toFixed] *)

(** The integer [n] for which [n / 10^f] is nearest to [x], the larger one
    on a tie; [x] is not negative. *)
Definition nearest_scaled (f : nat) (x : Q) : Z :=
  Qfloor (x * inject_Z (10 ^ Z.of_nat f) + (1 # 2)).

(** [x.toFixed(f)] *)
Definition toFixed (f : nat) (x : Q) : string :=
  let neg := Qltb x 0 in
  let n := nearest_scaled f (if neg then - x else x)%Q in
  let scale := (10 ^ Z.of_nat f)%Z in
  (if neg then "-" else "") +:+
  pretty (n / scale)%Z +:+
  (if (f =? 0)%nat then "" else "." +:+ padStart f "0" (pretty (n mod scale)%Z)).

(** [Number(x.toFixed(f))] *)
Definition Number_toFixed (f : nat) (x : Q) : Q :=
  let neg := Qltb x 0 in
  let n := nearest_scaled f (if neg then - x else x)%Q in
  let v := (inject_Z n / inject_Z (10 ^ Z.of_nat f))%Q in
  if neg then (- v)%Q else v.

(** ** Dates

    The calendar arithmetic of [Date] in the time zone of the server is a
    parameter of the model: [addDays now n] is the instant that
    [d.setDate(d.getDate() + n)] leaves in [d] when [d] was [now]. *)
Record Calendar : Type := mkCalendar {
  addDays : Timestamp -> Q -> Timestamp;
  startOfMonth : Timestamp -> Timestamp;      (* new Date(y, m, 1) *)
  startOfQuarter : Timestamp -> Timestamp;    (* new Date(y, floor(m/3)*3, 1) *)
  startOfYear : Timestamp -> Timestamp }.     (* new Date(y, 0, 1) *)

(** ** Validation schemas (zod)

    A schema maps a value to the validated value or to a [ZodError].  The
    message of the error is the message of the first issue. *)

Definition Schema (A : Type) : Type := JsVal -> Exc A.

Definition zod_issue {A} (message : string) : Exc A :=
  Throw (ErrorObj ZodError message).

(** [z.string()] *)
Definition z_string : Schema string := fun v =>
  match v with
  | JStr s => Ok s
  | _ => zod_issue "Expected string"
  end.

(** [.min(1)] on a string schema *)
Definition z_min1 (inner : Schema string) : Schema string := fun v =>
  exc_bind (inner v) (fun s =>
    if (1 <=? String.length s)%nat then Ok s
    else zod_issue "String must contain at least 1 character(s)").

(** [z.number()] *)
Definition z_number : Schema Q := fun v =>
  match v with
  | JNum q => Ok q
  | _ => zod_issue "Expected number"
  end.

(** [.positive()] *)
Definition z_positive (inner : Schema Q) : Schema Q := fun v =>
  exc_bind (inner v) (fun q =>
    if Qltb 0 q then Ok q else zod_issue "Number must be greater than 0").

(** [z.boolean()] *)
Definition z_boolean : Schema bool := fun v =>
  match v with
  | JBool b => Ok b
  | _ => zod_issue "Expected boolean"
  end.

(** [.default(d)]: the default replaces [undefined] only. *)
Definition z_default {A} (inner : Schema A) (d : A) : Schema A := fun v =>
  match v with
  | JUndefined => Ok d
  | _ => inner v
  end.

(** The property [k] of a parameter object; [undefined] when absent. *)
Definition prop (o : gmap string JsVal) (k : string) : JsVal :=
  default JUndefined (o !! k).

(** ** Amounts and invoice numbers *)

Record Amounts : Type := mkAmounts {
  subtotal : Q;
  vatAmount : Q;
  total : Q }.

(** [const vatRate = 0.15] *)
Definition vatRate : Q := 15 # 100.

(** The block "Calculate amounts" of [AIService.createInvoice], with the
    rate as an argument. *)
Definition calculateAmounts (vatRate : Q) (vatIncluded : bool) (amount : Q) : Amounts :=
  let subtotal := (if vatIncluded then amount / (1 + vatRate) else amount)%Q in
  let vatAmount := (if vatIncluded then amount - subtotal else amount * vatRate)%Q in
  let total := (if vatIncluded then amount else amount + vatAmount)%Q in
  mkAmounts subtotal vatAmount total.

(** [`INV-${String(count + 1).padStart(4, '0')}`] *)
Definition invoiceNumber_after (count : nat) : string :=
  "INV-" +:+ padStart 4 "0" (String_of_nat (count + 1)).

(** [rows[0].id] and the like: the first row, and a [TypeError] when
    there is none. *)
Definition first_row {A} (rows : list A) : M A :=
  match rows with
  | r :: _ => ret r
  | [] => throw (ErrorObj TypeError "Cannot read properties of undefined")
  end.

(** ** [AIService] ([src/lib/ai/service.ts]) *)

Module AIService.

Record CreateInvoiceParams : Type := mkCreateInvoiceParams {
  clientName : string;
  amount : Q;
  description : string;
  dueInDays : Q;
  vatIncluded : bool }.

(** [CreateInvoiceSchema.parse(params)] *)
Definition CreateInvoiceSchema (params : gmap string JsVal) : Exc CreateInvoiceParams :=
  exc_bind (z_string (prop params "clientName")) (fun clientName =>
  exc_bind (z_positive z_number (prop params "amount")) (fun amount =>
  exc_bind (z_string (prop params "description")) (fun description =>
  exc_bind (z_default (z_positive z_number) 30%Q (prop params "dueInDays")) (fun dueInDays =>
  exc_bind (z_default z_boolean true (prop params "vatIncluded")) (fun vatIncluded =>
  Ok (mkCreateInvoiceParams clientName amount description dueInDays vatIncluded)))))).

Inductive CreateInvoiceResult : Type :=
| Created (invoice : Invoice) (client : Client) (amounts : Amounts) (message : string)
| NotCreated (message : string).

Definition success (r : CreateInvoiceResult) : bool :=
  match r with Created _ _ _ _ => true | NotCreated _ => false end.

Section WithCalendar.
Variable cal : Calendar.

(** The body of the [try] block of [createInvoice]. *)
Definition createInvoice_try (now : Timestamp) (userId : Id)
    (params : gmap string JsVal) : M CreateInvoiceResult :=
  let* validatedParams := lift (CreateInvoiceSchema params) in
  let* user := query (fun db => limit1 (select_users userId db)) in
  if (length user =? 0)%nat then throw (ErrorObj PlainError "User not found") else
  let* client :=
    query (fun db => limit1 (select_clients userId (clientName validatedParams) db)) in
  let* client :=
    (if (length client =? 0)%nat
     then insert_client userId (clientName validatedParams)
     else ret client) in
  let amounts :=
    calculateAmounts vatRate (vatIncluded validatedParams) (amount validatedParams) in
  let* invoiceCount := query (select_invoices_of userId) in
  let invoiceNumber := invoiceNumber_after (length invoiceCount) in
  let dueDate := addDays cal now (dueInDays validatedParams) in
  let* client0 := first_row client in
  let* newInvoice :=
    insert_invoice userId (client_id client0) invoiceNumber "ZAR"
                   (vatIncluded validatedParams) vatRate DRAFT dueDate in
  let* newInvoice0 := first_row newInvoice in
  let* _ := insert_invoiceItem (inv_id newInvoice0) (description validatedParams)
                               1 (subtotal amounts) (subtotal amounts) in
  ret (Created newInvoice0 client0
         (mkAmounts (Number_toFixed 2 (subtotal amounts))
                    (Number_toFixed 2 (vatAmount amounts))
                    (Number_toFixed 2 (total amounts)))
         ("✅ Invoice " +:+ invoiceNumber +:+ " created for " +:+
          clientName validatedParams +:+ " - R" +:+ toFixed 2 (total amounts))).

(** [AIService.createInvoice]: whatever the [try] block throws is
    caught and answered with the fixed apology. *)
Definition createInvoice (now : Timestamp) (userId : Id)
    (params : gmap string JsVal) (db : Db) : CreateInvoiceResult * Db :=
  match createInvoice_try now userId params db with
  | (Ok r, db') => (r, db')
  | (Throw _, db') =>
      (NotCreated "Sorry, there was an error creating your invoice. Please try again.", db')
  end.
End WithCalendar.

End AIService.

(** ** The invoices endpoints ([src/app/api/invoices/[id]/mark-paid/route.ts]) *)

Section Routes.
(** [z.string().uuid()] accepts a text in UUID format; [uuid s] is then
    the identifier the text denotes.  The format is zod's, so the
    function is a parameter. *)
Variable uuid : string -> option Id.

Definition z_uuid : Schema Id := fun v =>
  exc_bind (z_string v) (fun s =>
    match uuid s with
    | Some i => Ok i
    | None => zod_issue "Invalid uuid"
    end).

Inductive ResponseBody : Type :=
| ErrorBody (error : string)
| InvalidRequest (details : string)          (* error: 'Invalid request data' *)
| MarkedPaid (message : string) (id : Id) (status : InvoiceStatus)
             (amount : Q) (paidAt : Timestamp).

Record Response : Type := mkResponse {
  http_status : nat;
  body : ResponseBody }.

(** [NextResponse.json(body)] answers with status 200. *)
Definition json (b : ResponseBody) : Response := mkResponse 200 b.

(** [MarkPaidSchema.parse(body)] *)
Definition MarkPaidSchema (body : gmap string JsVal) : Exc Id :=
  z_uuid (prop body "userId").

(** The [try] block of [POST /api/invoices/[id]/mark-paid].  [vatAmount]
    enters [total] only when [vatIncluded] is false. *)
Definition markPaid_try (now : Timestamp) (invoiceId : Id)
    (body : gmap string JsVal) : M Response :=
  let* userId := lift (MarkPaidSchema body) in
  let* invoice := query (fun db => limit1 (select_invoice invoiceId userId db)) in
  if (length invoice =? 0)%nat
  then ret (mkResponse 404 (ErrorBody "Invoice not found")) else
  let* invoice0 := first_row invoice in
  if InvoiceStatus_eqb (inv_status invoice0) PAID
  then ret (mkResponse 400 (ErrorBody "Invoice is already paid")) else
  let* items := query (select_items invoiceId) in
  let subtotal := sum_by (fun item => Number_or_0 (item_lineTotal item)) items in
  let vatAmount :=
    (if inv_vatIncluded invoice0
     then subtotal * (inv_vatRate invoice0 / (1 + inv_vatRate invoice0))
     else subtotal * inv_vatRate invoice0)%Q in
  let total := (if inv_vatIncluded invoice0 then subtotal else subtotal + vatAmount)%Q in
  let* _ := update_invoice_paid invoiceId now in
  let* _ := insert_payment invoiceId total "Manual" now in
  ret (json (MarkedPaid "Invoice marked as paid" invoiceId PAID total now)).

(** [POST /api/invoices/[id]/mark-paid] with its [catch] block. *)
Definition markPaid (now : Timestamp) (invoiceId : Id)
    (body : gmap string JsVal) (db : Db) : Response * Db :=
  match markPaid_try now invoiceId body db with
  | (Ok r, db') => (r, db')
  | (Throw (ErrorObj ZodError details), db') =>
      (mkResponse 400 (InvalidRequest details), db')
  | (Throw _, db') =>
      (mkResponse 500 (ErrorBody "Failed to mark invoice as paid"), db')
  end.

(** The request schema of [POST /api/invoices], the endpoint that
    creates an invoice from a form. *)
Record InvoiceForm : Type := mkInvoiceForm {
  form_userId : Id;
  form_clientName : string;
  form_amount : Q;
  form_description : string;
  form_dueInDays : Q }.

Definition route_CreateInvoiceSchema (body : gmap string JsVal) : Exc InvoiceForm :=
  exc_bind (z_uuid (prop body "userId")) (fun userId =>
  exc_bind (z_min1 z_string (prop body "clientName")) (fun clientName =>
  exc_bind (z_positive z_number (prop body "amount")) (fun amount =>
  exc_bind (z_min1 z_string (prop body "description")) (fun description =>
  exc_bind (z_default (z_positive z_number) 30%Q (prop body "dueInDays")) (fun dueInDays =>
  Ok (mkInvoiceForm userId clientName amount description dueInDays)))))).
End Routes.

(** ** Reports *)

(** Rows of [invoices] joined with their [invoiceItems], for the paid
    invoices of a user paid at or after [startDate] and, when [endDate] is
    given, at or before it. *)
Definition select_paid_items (userId : Id) (startDate : Timestamp)
    (endDate : option Timestamp) (db : Db) : list (Invoice * InvoiceItem) :=
  flat_map
    (fun i =>
       if (inv_userId i =? userId)%nat && InvoiceStatus_eqb (inv_status i) PAID &&
          match inv_paidAt i with
          | Some t =>
              (startDate <=? t)%Z &&
              match endDate with Some e => (t <=? e)%Z | None => true end
          | None => false
          end
       then map (fun it => (i, it)) (select_items (inv_id i) db)
       else [])
    (invoices db).

(** The expenses of a user in the period. *)
Definition select_expenses (userId : Id) (startDate : Timestamp)
    (endDate : option Timestamp) (db : Db) : list Expense :=
  List.filter
    (fun e =>
       (exp_userId e =? userId)%nat && (startDate <=? exp_date e)%Z &&
       match endDate with Some t => (exp_date e <=? t)%Z | None => true end)
    (expenses db).

(** [totalRevenue > 0 ? (netProfit / totalRevenue) * 100 : 0] *)
Definition profitMargin (netProfit totalRevenue : Q) : JsNumber :=
  if Qltb 0 totalRevenue then js_mul (js_div netProfit totalRevenue) 100
  else Finite 0.

(** The same expression without its guard, for comparison. *)
Definition unguarded_margin (netProfit totalRevenue : Q) : JsNumber :=
  js_mul (js_div netProfit totalRevenue) 100.

Record FinancialSummary : Type := mkFinancialSummary {
  period_startDate : Timestamp;
  period_endDate : Timestamp;
  revenue_total : Q;
  revenue_invoiceCount : nat;
  expenses_total : Q;
  expenses_expenseCount : nat;
  profit_net : Q;
  profit_margin : JsNumber }.

(** The totals and the returned object of a financial summary, from the
    rows the two queries gave. *)
Definition summarize (startDate endDate : Timestamp)
    (paidInvoices : list (Invoice * InvoiceItem)) (expenses : list Expense)
    : FinancialSummary :=
  let totalRevenue :=
    sum_by (fun invoice => Number_or_0 (item_lineTotal (snd invoice))) paidInvoices in
  let totalExpenses := sum_by exp_amount expenses in
  let netProfit := (totalRevenue - totalExpenses)%Q in
  mkFinancialSummary startDate endDate totalRevenue (length paidInvoices)
    totalExpenses (length expenses) netProfit (profitMargin netProfit totalRevenue).

(** [generateFinancialSummary] of the reports endpoint ([POST /api/reports]),
    which names the rows of its second query [userExpenses]. *)
Definition reports_generateFinancialSummary (userId : Id)
    (startDate endDate : Timestamp) (db : Db) : FinancialSummary :=
  let paidInvoices := select_paid_items userId startDate (Some endDate) db in
  let userExpenses := select_expenses userId startDate (Some endDate) db in
  summarize startDate endDate paidInvoices userExpenses.

(** ** [analyzeFinancialHealth] ([src/lib/ai/advanced-service.ts])

    The trends, insights, recommendations and the message of the result
    are derived from the summary and are left out. *)
Module AdvancedService.

Inductive AnalysisPeriod : Type := month | quarter | year | all.

Inductive Analysis : Type :=
| NoUser (message : string)
| Summary (summary : FinancialSummary).

Definition analyzeFinancialHealth (cal : Calendar) (now : Timestamp)
    (userId : Id) (period : AnalysisPeriod) (db : Db) : Analysis :=
  match select_users userId db with
  | [] => NoUser "User not found. Please create some financial data first."
  | _ :: _ =>
      let startDate :=
        match period with
        | month => startOfMonth cal now
        | quarter => startOfQuarter cal now
        | year => startOfYear cal now
        | all => 0%Z
        end in
      let paidInvoices := select_paid_items userId startDate None db in
      let userExpenses := select_expenses userId startDate None db in
      Summary (summarize startDate now paidInvoices userExpenses)
  end.

End AdvancedService.

(** ** The workflow engine *)

(** [error instanceof Error ? error.message : 'Unknown error'] *)
Definition errorMessage (error : Thrown) : string :=
  match error with
  | ErrorObj _ message => message
  | NonError _ => "Unknown error"
  end.

(** [WorkflowEngine.isRetriableError] *)
Definition isRetriableError (error : Thrown) : bool :=
  match error with
  | ErrorObj _ m =>
      let message := toLowerCase m in
      includes message "timeout" ||
      includes message "network" ||
      includes message "connection" ||
      includes message "rate limit"
  | NonError _ => false
  end.

(** [`step_${i}`], the key of step [i] in the two maps. *)
Definition step_key (i : nat) : string := "step_" +:+ String_of_nat i.

Definition maxRetries : nat := 3.

(** The loop of [WorkflowEngine.execute], for any kind of step.  What a
    step does is given by [executeStep], a function of the state [World]
    it runs in.  The loop keeps two logs of what it did: [attempts], the
    index of the step of every call of [executeStep], and [delays], the
    delays it waited for, both in order. *)
Section Engine.
Context {World Step Result : Type}.
Variable executeStep : Step -> World -> Exc Result * World.

Record WorkflowContext : Type := mkContext {
  ctx_userId : Id;
  steps : list Step;
  currentStep : nat;
  results : gmap string Result;
  errors : gmap string string }.

(** The state of the loop: the context, the local [retryCount], the
    world, the steps attempted so far and the delays waited for so far, in
    milliseconds. *)
Record LoopState : Type := mkLoopState {
  context : WorkflowContext;
  retryCount : nat;
  world : World;
  attempts : list nat;
  delays : list Z }.

Record Outcome : Type := mkOutcome {
  success : bool;
  out_results : gmap string Result;
  out_errors : gmap string string;
  completedSteps : nat }.

(** [this.context.currentStep < this.context.steps.length && retryCount < maxRetries] *)
Definition loop_guard (st : LoopState) : bool :=
  (currentStep (context st) <? length (steps (context st)))%nat &&
  (retryCount st <? maxRetries)%nat.

(** One pass through the body of the [while] loop; the second component
    tells whether the body ended in [break]. *)
Definition loop_body (step : Step) (st : LoopState) : LoopState * bool :=
  let ctx := context st in
  match executeStep step (world st) with
  | (Ok result, w) =>
      (mkLoopState
         (mkContext (ctx_userId ctx) (steps ctx) (S (currentStep ctx))
                    (<[step_key (currentStep ctx) := result]> (results ctx))
                    (errors ctx))
         0 w (attempts st ++ [currentStep ctx]) (delays st),
       false)
  | (Throw error, w) =>
      let ctx' :=
        mkContext (ctx_userId ctx) (steps ctx) (currentStep ctx) (results ctx)
                  (<[step_key (currentStep ctx) := errorMessage error]> (errors ctx)) in
      if isRetriableError error then
        let retryCount' := S (retryCount st) in
        (mkLoopState ctx' retryCount' w (attempts st ++ [currentStep ctx])
                     (delays st ++ [1000 * Z.of_nat retryCount']%Z),
         false)
      else (mkLoopState ctx' (retryCount st) w (attempts st ++ [currentStep ctx])
                        (delays st),
            true)
  end.

(** The [while] loop.  [None] when [fuel] passes do not reach its end. *)
Fixpoint loop (fuel : nat) (st : LoopState) : option LoopState :=
  if loop_guard st then
    match fuel with
    | O => None
    | S fuel' =>
        match steps (context st) !! currentStep (context st) with
        | None => Some st            (* not reached: the guard holds *)
        | Some step =>
            let '(st', stop) := loop_body step st in
            if stop then Some st' else loop fuel' st'
        end
    end
  else Some st.

(** The context the constructor builds. *)
Definition new_context (userId : Id) (steps : list Step) : WorkflowContext :=
  mkContext userId steps 0 ∅ ∅.

Definition outcome_of (st : LoopState) : Outcome :=
  let ctx := context st in
  mkOutcome (currentStep ctx =? length (steps ctx))%nat
            (results ctx) (errors ctx) (currentStep ctx).

(** Every pass through the loop either completes a step or uses one of
    the three attempts of the current step, so this many passes reach
    the end of the loop. *)
Definition enough_fuel (steps : list Step) : nat :=
  S (maxRetries * S (length steps)).

Definition run (userId : Id) (steps : list Step) (w : World) : option LoopState :=
  loop (enough_fuel steps) (mkLoopState (new_context userId steps) 0 w [] []).

(** [new WorkflowEngine(userId, steps).execute()] *)
Definition execute (userId : Id) (steps : list Step) (w : World) : option Outcome :=
  outcome_of <$> run userId steps w.
End Engine.

Arguments WorkflowContext : clear implicits.
Arguments LoopState : clear implicits.
Arguments Outcome : clear implicits.

(** The steps of the engine and what they do to the store. *)
Module Workflow.

Inductive Period : Type := month | quarter | year.
Inductive ReportType : Type := financial_summary | vat_report | profit_loss.

(** A step, as the step schemas type it: the schema of a step accepts
    every step of its type, and [executeStep] has no step of an unknown
    type to refuse.  The [userId] of a step is the identifier its text
    denotes, the [date] of an expense the instant its text denotes; the
    schemas take any text for both, and the text itself is not part of
    the model. *)
Inductive WorkflowStep : Type :=
| create_invoice (userId : Id) (clientName : string) (amount : Q)
                 (description : string) (dueInDays : Q)
| log_expense (userId : Id) (amount : Q) (description category : string)
              (date : option Timestamp)
| generate_report (userId : Id) (period : Period) (reportType : ReportType).

Record VATReport : Type := mkVATReport {
  vat_startDate : Timestamp;
  vat_endDate : Timestamp;
  vatCollected : Q;
  vatPaid : Q;
  vatOwed : Q;
  vat_invoiceCount : nat;
  vat_expenseCount : nat }.

Inductive StepResult : Type :=
| InvoiceCreated (invoiceId : Id) (invoiceNumber clientName : string)
                 (amount : Q) (dueDate : Timestamp)
| ExpenseLogged (expenseId : Id) (description : string) (amount : Q)
                (category : string) (date : Timestamp)
| SummaryReport (summary : FinancialSummary)
| VatReport (report : VATReport)
| ProfitLossReport (summary : FinancialSummary).

(** In [generateFinancialSummary] and [generateVATReport] the statement
    [const expenses = await db.select().from(expenses)...] declares a
    constant named like the imported table; the name in its own
    initialiser is that constant, which is not initialised yet, and
    reading it throws. *)
Definition expenses_before_initialization : Thrown :=
  ErrorObj ReferenceError "Cannot access 'expenses' before initialization".

Section WithCalendar.
Variable cal : Calendar.

(** [executeCreateInvoice] *)
Definition executeCreateInvoice (now : Timestamp) (userId : Id)
    (clientName : string) (amount : Q) (description : string)
    (dueInDays : Q) : M StepResult :=
  let* user := query (fun db => limit1 (select_users userId db)) in
  if (length user =? 0)%nat then throw (ErrorObj PlainError "User not found") else
  let* client := query (fun db => limit1 (select_clients userId clientName db)) in
  let* client :=
    (if (length client =? 0)%nat then insert_client userId clientName
     else ret client) in
  let subtotal := (amount / (1 + vatRate))%Q in
  let vatAmount := (amount - subtotal)%Q in
  let* invoiceCount := query (select_invoices_of userId) in
  let invoiceNumber := invoiceNumber_after (length invoiceCount) in
  let dueDate := addDays cal now dueInDays in
  let* client0 := first_row client in
  let* newInvoice :=
    insert_invoice userId (client_id client0) invoiceNumber "ZAR" true
                   vatRate DRAFT dueDate in
  let* newInvoice0 := first_row newInvoice in
  let* _ := insert_invoiceItem (inv_id newInvoice0) description 1 subtotal subtotal in
  ret (InvoiceCreated (inv_id newInvoice0) invoiceNumber clientName amount dueDate).

(** [executeLogExpense] *)
Definition executeLogExpense (now : Timestamp) (userId : Id) (amount : Q)
    (description category : string) (date : option Timestamp) : M StepResult :=
  let vatAmount := (amount * (vatRate / (1 + vatRate)))%Q in
  let expenseDate := match date with Some d => d | None => now end in
  let* newExpense :=
    insert_expense userId description amount "ZAR" category expenseDate None
                   vatAmount in
  let* newExpense0 := first_row newExpense in
  ret (ExpenseLogged (exp_id newExpense0) description amount category expenseDate).

(** [generateFinancialSummary] *)
Definition generateFinancialSummary (userId : Id)
    (startDate endDate : Timestamp) : M FinancialSummary :=
  let* paidInvoices := query (select_paid_items userId startDate (Some endDate)) in
  let* expenses := throw expenses_before_initialization in
  ret (summarize startDate endDate paidInvoices expenses).

(** [generateVATReport] *)
Definition generateVATReport (userId : Id)
    (startDate endDate : Timestamp) : M VATReport :=
  let* paidInvoices := query (select_paid_items userId startDate (Some endDate)) in
  let* expenses := throw expenses_before_initialization in
  let vatCollected :=
    sum_by (fun invoice : Invoice * InvoiceItem =>
              let invoiceTotal := Number_or_0 (item_lineTotal (snd invoice)) in
              if inv_vatIncluded (fst invoice)
              then invoiceTotal *
                   (inv_vatRate (fst invoice) / (1 + inv_vatRate (fst invoice)))
              else invoiceTotal * inv_vatRate (fst invoice))%Q
           paidInvoices in
  let vatPaid := sum_by (fun expense => Number_or_0 (exp_vatAmount expense)) expenses in
  ret (mkVATReport startDate endDate vatCollected vatPaid
                   (vatCollected - vatPaid)%Q
                   (length paidInvoices) (length expenses)).

(** [generateProfitLossReport]; both breakdowns are empty objects. *)
Definition generateProfitLossReport (userId : Id)
    (startDate endDate : Timestamp) : M FinancialSummary :=
  let* financialSummary := generateFinancialSummary userId startDate endDate in
  ret financialSummary.

(** [executeGenerateReport] *)
Definition executeGenerateReport (now : Timestamp) (userId : Id)
    (period : Period) (reportType : ReportType) : M StepResult :=
  let startDate :=
    match period with
    | month => startOfMonth cal now
    | quarter => startOfQuarter cal now
    | year => startOfYear cal now
    end in
  match reportType with
  | financial_summary =>
      let* r := generateFinancialSummary userId startDate now in
      ret (SummaryReport r)
  | vat_report =>
      let* r := generateVATReport userId startDate now in
      ret (VatReport r)
  | profit_loss =>
      let* r := generateProfitLossReport userId startDate now in
      ret (ProfitLossReport r)
  end.

(** [executeStep] *)
Definition executeStep (now : Timestamp) (step : WorkflowStep) : M StepResult :=
  match step with
  | create_invoice userId clientName amount description dueInDays =>
      executeCreateInvoice now userId clientName amount description dueInDays
  | log_expense userId amount description category date =>
      executeLogExpense now userId amount description category date
  | generate_report userId period reportType =>
      executeGenerateReport now userId period reportType
  end.

(** The world a workflow runs in: the store, and for each coming
    execution of a step whether the store can be reached at all
    ([Some error] when the driver fails before anything is read or
    written). *)
Record Env : Type := mkEnv {
  env_db : Db;
  env_faults : list (option Thrown) }.

Definition executeStep_in (now : Timestamp) (step : WorkflowStep) (env : Env)
    : Exc StepResult * Env :=
  match env_faults env with
  | Some error :: faults => (Throw error, mkEnv (env_db env) faults)
  | faults =>
      let '(r, db') := executeStep now step (env_db env) in
      (r, mkEnv db' (tl faults))
  end.

(** [new WorkflowEngine(userId, steps).execute()] on the store. *)
Definition WorkflowEngine_execute (now : Timestamp) (userId : Id)
    (steps : list WorkflowStep) (env : Env) : option (Outcome StepResult) :=
  execute (executeStep_in now) userId steps env.
End WithCalendar.

End Workflow.

(** ** The intent resolver ([AIService.processQuery]) *)

Record IntentResult : Type := mkIntentResult {
  intent : string;
  confidence : Q;
  parameters : gmap string JsVal;
  response : string;
  actions : list string }.

Definition double_quote : string := String (ascii_of_nat 34) EmptyString.

Section Resolver.
(** [generateObject] with the model, the system prompt and the schema
    that [processQuery] passes: from the prompt to the validated object,
    or to what the call throws. *)
Variable generateObject : string -> Exc IntentResult.

Definition processQuery (userId : Id) (message : string) : IntentResult :=
  match generateObject ("User query: " +:+ double_quote +:+ message +:+ double_quote) with
  | Ok object => object
  | Throw _ =>
      mkIntentResult "HELP" 0 ∅
        "I had trouble understanding your request. Please try again." []
  end.
End Resolver.

(** ** More of [AIService]: expenses and the summary ([src/lib/ai/service.ts]) *)

(** [.optional()]: [undefined] is accepted as it is. *)
Definition z_optional {A} (inner : Schema A) : Schema (option A) := fun v =>
  match v with
  | JUndefined => Ok None
  | _ => exc_bind (inner v) (fun a => Ok (Some a))
  end.

(** [z.enum(['month', 'quarter', 'year'])] *)
Definition z_period : Schema Workflow.Period := fun v =>
  match v with
  | JStr s =>
      if String.eqb s "month" then Ok Workflow.month
      else if String.eqb s "quarter" then Ok Workflow.quarter
      else if String.eqb s "year" then Ok Workflow.year
      else zod_issue "Invalid enum value"
  | _ => zod_issue "Invalid enum value"
  end.

Record LogExpenseParams : Type := mkLogExpenseParams {
  le_amount : Q;
  le_description : string;
  le_category : string;
  le_date : option string;
  le_receipt : option string }.

(** [LogExpenseSchema.parse(params)] *)
Definition LogExpenseSchema (params : gmap string JsVal) : Exc LogExpenseParams :=
  exc_bind (z_positive z_number (prop params "amount")) (fun amount =>
  exc_bind (z_string (prop params "description")) (fun description =>
  exc_bind (z_string (prop params "category")) (fun category =>
  exc_bind (z_optional z_string (prop params "date")) (fun date =>
  exc_bind (z_optional z_string (prop params "receipt")) (fun receipt =>
  Ok (mkLogExpenseParams amount description category date receipt)))))).

Inductive LogExpenseResult : Type :=
| Logged (expense : Expense) (message : string)
| NotLogged (message : string).

Record FinancialSummaryParams : Type := mkFinancialSummaryParams {
  fsp_period : Workflow.Period;
  fsp_startDate : option string;
  fsp_endDate : option string }.

(** [FinancialSummarySchema.parse(params)] *)
Definition FinancialSummarySchema (params : gmap string JsVal)
    : Exc FinancialSummaryParams :=
  exc_bind (z_period (prop params "period")) (fun period =>
  exc_bind (z_optional z_string (prop params "startDate")) (fun startDate =>
  exc_bind (z_optional z_string (prop params "endDate")) (fun endDate =>
  Ok (mkFinancialSummaryParams period startDate endDate)))).

(** The [summary] object of [getFinancialSummary]; the amounts are the
    ones rounded with [toFixed(2)].  The field [vatCollected] is left out:
    the code computes it from [vatRate] in the form in which the driver
    hands a decimal column over, which the store of the model does not
    keep. *)
Record ServiceSummary : Type := mkServiceSummary {
  ss_period : Workflow.Period;
  ss_startDate : Timestamp;
  ss_endDate : Timestamp;
  ss_totalRevenue : Q;
  ss_totalExpenses : Q;
  ss_netProfit : Q;
  ss_invoiceCount : nat;
  ss_expenseCount : nat }.

Inductive SummaryResult : Type :=
| Summarized (summary : ServiceSummary) (message : string)
| NotSummarized (message : string).

(** [period.charAt(0).toUpperCase() + period.slice(1)] *)
Definition capitalized (period : Workflow.Period) : string :=
  match period with
  | Workflow.month => "Month"
  | Workflow.quarter => "Quarter"
  | Workflow.year => "Year"
  end.

Section ServiceHandlers.
Variable cal : Calendar.
(** [new Date(text)]: the instant the text denotes, [None] for a text
    that denotes none.  Such an invalid date reaches the insert, where
    the driver throws when it converts the date for the column. *)
Variable parseDate : string -> option Timestamp.

(** [validatedParams.date ? new Date(validatedParams.date) : new Date()] *)
Definition expense_date (now : Timestamp) (date : option string) : Exc Timestamp :=
  match date with
  | None => Ok now
  | Some text =>
      if (String.length text =? 0)%nat then Ok now
      else
        match parseDate text with
        | Some t => Ok t
        | None => Throw (ErrorObj DriverError "Invalid time value")
        end
  end.

(** The [try] block of [AIService.logExpense]. *)
Definition logExpense_try (now : Timestamp) (userId : Id)
    (params : gmap string JsVal) : M LogExpenseResult :=
  let* validatedParams := lift (LogExpenseSchema params) in
  let vatAmount := (le_amount validatedParams * (vatRate / (1 + vatRate)))%Q in
  let* expenseDate := lift (expense_date now (le_date validatedParams)) in
  let* newExpense :=
    insert_expense userId (le_description validatedParams) (le_amount validatedParams)
                   "ZAR" (le_category validatedParams) expenseDate
                   (le_receipt validatedParams) vatAmount in
  let* newExpense0 := first_row newExpense in
  ret (Logged newExpense0
         ("✅ Expense logged: " +:+ le_description validatedParams +:+ " - R" +:+
          toFixed 2 (le_amount validatedParams))).

(** [AIService.logExpense] *)
Definition logExpense (now : Timestamp) (userId : Id)
    (params : gmap string JsVal) (db : Db) : LogExpenseResult * Db :=
  match logExpense_try now userId params db with
  | (Ok r, db') => (r, db')
  | (Throw _, db') =>
      (NotLogged "Sorry, there was an error logging your expense. Please try again.", db')
  end.

(** [startDate] of a period that ends now. *)
Definition period_start (now : Timestamp) (period : Workflow.Period) : Timestamp :=
  match period with
  | Workflow.month => startOfMonth cal now
  | Workflow.quarter => startOfQuarter cal now
  | Workflow.year => startOfYear cal now
  end.

(** The [try] block of [AIService.getFinancialSummary]. *)
Definition getFinancialSummary_try (now : Timestamp) (userId : Id)
    (params : gmap string JsVal) : M SummaryResult :=
  let* validatedParams := lift (FinancialSummarySchema params) in
  let startDate := period_start now (fsp_period validatedParams) in
  let* paidInvoices := query (select_paid_items userId startDate (Some now)) in
  let* periodExpenses := query (select_expenses userId startDate (Some now)) in
  let totalRevenue :=
    sum_by (fun invoice => Number_or_0 (item_lineTotal (snd invoice))) paidInvoices in
  let totalExpenses := sum_by exp_amount periodExpenses in
  let netProfit := (totalRevenue - totalExpenses)%Q in
  ret (Summarized
         (mkServiceSummary (fsp_period validatedParams) startDate now
            (Number_toFixed 2 totalRevenue) (Number_toFixed 2 totalExpenses)
            (Number_toFixed 2 netProfit)
            (length paidInvoices) (length periodExpenses))
         ("📊 " +:+ capitalized (fsp_period validatedParams) +:+
          " Summary: Revenue R" +:+ toFixed 2 totalRevenue +:+
          ", Expenses R" +:+ toFixed 2 totalExpenses +:+
          ", Net Profit R" +:+ toFixed 2 netProfit)).

(** [AIService.getFinancialSummary] *)
Definition getFinancialSummary (now : Timestamp) (userId : Id)
    (params : gmap string JsVal) (db : Db) : SummaryResult * Db :=
  match getFinancialSummary_try now userId params db with
  | (Ok r, db') => (r, db')
  | (Throw _, db') =>
      (NotSummarized
         "Sorry, there was an error generating your financial summary. Please try again.",
       db')
  end.
End ServiceHandlers.

(** ** The chat endpoint ([src/app/api/ai/chat/route.ts]) *)

Definition newline : string := String (ascii_of_nat 10) EmptyString.

Fixpoint join_lines (lines : list string) : string :=
  match lines with
  | [] => ""
  | [line] => line
  | line :: rest => line +:+ newline +:+ join_lines rest
  end.

(** A sample command of the help text: a bullet and the command in
    double quotes. *)
Definition sample (command : string) : string :=
  "• " +:+ double_quote +:+ command +:+ double_quote.

(** The message of the case ['HELP']. *)
Definition help_text : string :=
  join_lines
    ["🤖 EquiLedger AI Financial Assistant";
     "";
     "Invoice Management:";
     sample "Create invoice for R500 website design for ABC Company";
     sample "Show unpaid invoices";
     sample "Mark paid #[ID]";
     "";
     "Expense Tracking:";
     sample "Record R450 for transport fuel";
     sample "Log R1200 office supplies expense";
     "";
     "Financial Reports:";
     sample "How much did I make this month?";
     sample "Show quarterly summary";
     sample "What's my profit this year?";
     "";
     "Compliance:";
     sample "Check VAT compliance";
     sample "Generate tax report";
     "";
     "Try any of these natural language commands!"].

(** [responseData] *)
Inductive ChatData : Type :=
| NoData                                                   (* null *)
| InvoiceData (result : AIService.CreateInvoiceResult)
| ExpenseData (result : LogExpenseResult)
| SummaryData (result : SummaryResult).

Inductive ChatBody : Type :=
| ChatAnswer (message intent : string) (confidence : Q) (data : ChatData)
                                                           (* success: true *)
| ChatInvalid (details : string)       (* success: false, 'Invalid request data' *)
| ChatFailure.                         (* success: false, 'Internal server error' *)

Record ChatResponse : Type := mkChatResponse {
  chat_status : nat;
  chat_body : ChatBody }.

Definition created_message (r : AIService.CreateInvoiceResult) : string :=
  match r with
  | AIService.Created _ _ _ message => message
  | AIService.NotCreated message => message
  end.

Definition logged_message (r : LogExpenseResult) : string :=
  match r with Logged _ message => message | NotLogged message => message end.

Definition summarized_message (r : SummaryResult) : string :=
  match r with Summarized _ message => message | NotSummarized message => message end.

Section Chat.
Variable cal : Calendar.
Variable parseDate : string -> option Timestamp.
(** [s.length]: the number of UTF-16 code units of a text. *)
Variable code_units : string -> nat.
Variable uuid : string -> option Id.
(** [z.record(z.any())] on a value the model does not look into. *)
Variable is_record : JsVal -> bool.
Variable generateObject : string -> Exc IntentResult.

(** [.min(1).max(1000)] on a string schema *)
Definition z_message : Schema string := fun v =>
  exc_bind (z_string v) (fun s =>
    if (code_units s <? 1)%nat
    then zod_issue "String must contain at least 1 character(s)"
    else if (1000 <? code_units s)%nat
    then zod_issue "String must contain at most 1000 character(s)"
    else Ok s).

(** [z.record(z.any()).optional()] *)
Definition z_context : Schema unit := fun v =>
  match v with
  | JUndefined => Ok tt
  | _ => if is_record v then Ok tt else zod_issue "Expected object"
  end.

(** [ChatRequestSchema.parse(body)] *)
Definition ChatRequestSchema (body : gmap string JsVal) : Exc (string * Id) :=
  exc_bind (z_message (prop body "message")) (fun message =>
  exc_bind (z_uuid uuid (prop body "userId")) (fun userId =>
  exc_bind (z_context (prop body "context")) (fun _ =>
  Ok (message, userId)))).

(** The [switch] over the intent, with what the handler wrote. *)
Definition handle_intent (now : Timestamp) (userId : Id) (aiResult : IntentResult)
    (db : Db) : string * ChatData * Db :=
  if String.eqb (intent aiResult) "INVOICE_CREATE" then
    let '(invoiceResult, db') :=
      AIService.createInvoice cal now userId (parameters aiResult) db in
    (created_message invoiceResult, InvoiceData invoiceResult, db')
  else if String.eqb (intent aiResult) "EXPENSE_LOG" then
    let '(expenseResult, db') :=
      logExpense parseDate now userId (parameters aiResult) db in
    (logged_message expenseResult, ExpenseData expenseResult, db')
  else if String.eqb (intent aiResult) "FINANCIAL_SUMMARY" then
    let '(summaryResult, db') :=
      getFinancialSummary cal now userId (parameters aiResult) db in
    (summarized_message summaryResult, SummaryData summaryResult, db')
  else if String.eqb (intent aiResult) "INVOICE_LIST" then
    ("Invoice listing feature coming soon!", NoData, db)
  else if String.eqb (intent aiResult) "HELP" then
    (help_text, NoData, db)
  else (response aiResult, NoData, db).

(** [POST /api/ai/chat] *)
Definition chat (now : Timestamp) (body : gmap string JsVal) (db : Db)
    : ChatResponse * Db :=
  match ChatRequestSchema body with
  | Ok (message, userId) =>
      let aiResult := processQuery generateObject userId message in
      let '(responseMessage, responseData, db') := handle_intent now userId aiResult db in
      (mkChatResponse 200
         (ChatAnswer responseMessage (intent aiResult) (confidence aiResult) responseData),
       db')
  | Throw (ErrorObj ZodError details) => (mkChatResponse 400 (ChatInvalid details), db)
  | Throw _ => (mkChatResponse 500 ChatFailure, db)
  end.
End Chat.

(** ** The endpoint that creates an invoice ([POST /api/invoices]) *)

Inductive InvoicesBody : Type :=
| InvoicesError (error : string)
| InvoicesInvalid (details : string)
| InvoiceMade (id : Id) (invoiceNumber clientName : string) (amount : Q)
              (status : InvoiceStatus) (dueDate : Timestamp).

Record InvoicesResponse : Type := mkInvoicesResponse {
  invoices_status : nat;
  invoices_body : InvoicesBody }.

Section InvoicesRoute.
Variable cal : Calendar.
Variable uuid : string -> option Id.

(** The [try] block of [POST /api/invoices]. *)
Definition postInvoice_try (now : Timestamp) (body : gmap string JsVal)
    : M InvoicesResponse :=
  let* validatedData := lift (route_CreateInvoiceSchema uuid body) in
  let* user := query (fun db => limit1 (select_users (form_userId validatedData) db)) in
  if (length user =? 0)%nat
  then ret (mkInvoicesResponse 404 (InvoicesError "User not found")) else
  let* client :=
    query (fun db => limit1 (select_clients (form_userId validatedData)
                                            (form_clientName validatedData) db)) in
  let* client :=
    (if (length client =? 0)%nat
     then insert_client (form_userId validatedData) (form_clientName validatedData)
     else ret client) in
  let subtotal := (form_amount validatedData / (1 + vatRate))%Q in
  let vatAmount := (form_amount validatedData - subtotal)%Q in
  let* invoiceCount := query (select_invoices_of (form_userId validatedData)) in
  let invoiceNumber := invoiceNumber_after (length invoiceCount) in
  let dueDate := addDays cal now (form_dueInDays validatedData) in
  let* client0 := first_row client in
  let* newInvoice :=
    insert_invoice (form_userId validatedData) (client_id client0) invoiceNumber "ZAR"
                   true vatRate DRAFT dueDate in
  let* newInvoice0 := first_row newInvoice in
  let* _ := insert_invoiceItem (inv_id newInvoice0) (form_description validatedData)
                               1 subtotal subtotal in
  ret (mkInvoicesResponse 200
         (InvoiceMade (inv_id newInvoice0) invoiceNumber (form_clientName validatedData)
                      (form_amount validatedData) DRAFT dueDate)).

(** [POST /api/invoices] with its [catch] block. *)
Definition postInvoice (now : Timestamp) (body : gmap string JsVal) (db : Db)
    : InvoicesResponse * Db :=
  match postInvoice_try now body db with
  | (Ok r, db') => (r, db')
  | (Throw (ErrorObj ZodError details), db') =>
      (mkInvoicesResponse 400 (InvoicesInvalid details), db')
  | (Throw _, db') =>
      (mkInvoicesResponse 500 (InvoicesError "Failed to create invoice"), db')
  end.
End InvoicesRoute.

(** ** The endpoint that logs an expense ([POST /api/expenses]) *)

Record ExpenseForm : Type := mkExpenseForm {
  ef_userId : Id;
  ef_description : string;
  ef_amount : Q;
  ef_category : string;
  ef_date : option string }.

Inductive ExpensesBody : Type :=
| ExpensesError (error : string)
| ExpensesInvalid (details : string)
| ExpenseMade (id : Id) (description : string) (amount : Q) (category : string)
              (date : Timestamp) (vatAmount : Q).

Record ExpensesResponse : Type := mkExpensesResponse {
  expenses_status : nat;
  expenses_body : ExpensesBody }.

Section ExpensesRoute.
Variable parseDate : string -> option Timestamp.
Variable uuid : string -> option Id.

(** [CreateExpenseSchema.parse(body)] *)
Definition CreateExpenseSchema (body : gmap string JsVal) : Exc ExpenseForm :=
  exc_bind (z_uuid uuid (prop body "userId")) (fun userId =>
  exc_bind (z_min1 z_string (prop body "description")) (fun description =>
  exc_bind (z_positive z_number (prop body "amount")) (fun amount =>
  exc_bind (z_min1 z_string (prop body "category")) (fun category =>
  exc_bind (z_optional z_string (prop body "date")) (fun date =>
  Ok (mkExpenseForm userId description amount category date)))))).

(** The [try] block of [POST /api/expenses]. *)
Definition postExpense_try (now : Timestamp) (body : gmap string JsVal)
    : M ExpensesResponse :=
  let* validatedData := lift (CreateExpenseSchema body) in
  let* user := query (fun db => limit1 (select_users (ef_userId validatedData) db)) in
  if (length user =? 0)%nat
  then ret (mkExpensesResponse 404 (ExpensesError "User not found")) else
  let vatAmount := (ef_amount validatedData * (vatRate / (1 + vatRate)))%Q in
  let* expenseDate := lift (expense_date parseDate now (ef_date validatedData)) in
  let* newExpense :=
    insert_expense (ef_userId validatedData) (ef_description validatedData)
                   (ef_amount validatedData) "ZAR" (ef_category validatedData)
                   expenseDate None vatAmount in
  let* newExpense0 := first_row newExpense in
  ret (mkExpensesResponse 200
         (ExpenseMade (exp_id newExpense0) (ef_description validatedData)
                      (ef_amount validatedData) (ef_category validatedData)
                      expenseDate vatAmount)).

(** [POST /api/expenses] with its [catch] block. *)
Definition postExpense (now : Timestamp) (body : gmap string JsVal) (db : Db)
    : ExpensesResponse * Db :=
  match postExpense_try now body db with
  | (Ok r, db') => (r, db')
  | (Throw (ErrorObj ZodError details), db') =>
      (mkExpensesResponse 400 (ExpensesInvalid details), db')
  | (Throw _, db') =>
      (mkExpensesResponse 500 (ExpensesError "Failed to create expense"), db')
  end.
End ExpensesRoute.

(** ** Insights and recommendations ([src/lib/ai/advanced-service.ts]) *)

(** [x > k] and [x < k] for a number that may not be finite. *)
Definition js_gt (x : JsNumber) (k : Q) : bool :=
  match x with
  | Finite q => Qltb k q
  | Infinity => true
  | NaN | NegInfinity => false
  end.

Definition js_lt (x : JsNumber) (k : Q) : bool :=
  match x with
  | Finite q => Qltb q k
  | NegInfinity => true
  | NaN | Infinity => false
  end.

(** [generateFinancialInsights], which reads [data.profitMargin] only. *)
Definition generateFinancialInsights (profitMargin : JsNumber) : list string :=
  if js_gt profitMargin 20 then
    ["Excellent profit margin! Your business is performing very well."]
  else if js_gt profitMargin 10 then
    ["Good profit margin. Consider optimizing expenses for better margins."]
  else if js_gt profitMargin 0 then
    ["Positive profit margin, but there's room for improvement."]
  else
    ["Negative profit margin. Immediate action needed to improve profitability."].

(** [generateRecommendations], which reads [data.profitMargin] only. *)
Definition generateRecommendations (profitMargin : JsNumber) : list string :=
  if js_lt profitMargin 10 then
    ["Review and reduce unnecessary expenses";
     "Consider increasing prices if market allows";
     "Focus on higher-margin products/services"]
  else [].

(** The [insights] and the [recommendations] of [analyzeFinancialHealth]. *)
Definition analysis_advice (cal : Calendar) (now : Timestamp) (userId : Id)
    (period : AdvancedService.AnalysisPeriod) (includeRecommendations : bool)
    (db : Db) : option (list string * list string) :=
  match AdvancedService.analyzeFinancialHealth cal now userId period db with
  | AdvancedService.NoUser _ => None
  | AdvancedService.Summary s =>
      Some (generateFinancialInsights (profit_margin s),
            if includeRecommendations then generateRecommendations (profit_margin s)
            else [])
  end.

(** ** Definitions used by the statements and the proofs *)

(** *** States of the loop of the engine *)

Section LoopStates.
Context {World Step Result : Type}.

Local Abbreviation State := (LoopState World Step Result).

(** The state after a pass in which the step succeeded, failed with a
    retriable error, or failed with a fatal one. *)
Definition after_success (st : State) (result : Result) (w : World) : State :=
  let ctx := context st in
  mkLoopState
    (mkContext (ctx_userId ctx) (steps ctx) (S (currentStep ctx))
               (<[step_key (currentStep ctx) := result]> (results ctx)) (errors ctx))
    0 w (attempts st ++ [currentStep ctx]) (delays st).

Definition failed_context (st : State) (error : Thrown) : WorkflowContext Step Result :=
  let ctx := context st in
  mkContext (ctx_userId ctx) (steps ctx) (currentStep ctx) (results ctx)
            (<[step_key (currentStep ctx) := errorMessage error]> (errors ctx)).

Definition after_retriable (st : State) (error : Thrown) (w : World) : State :=
  mkLoopState (failed_context st error) (S (retryCount st)) w
              (attempts st ++ [currentStep (context st)])
              (delays st ++ [1000 * Z.of_nat (S (retryCount st))]%Z).

Definition after_fatal (st : State) (error : Thrown) (w : World) : State :=
  mkLoopState (failed_context st error) (retryCount st) w
              (attempts st ++ [currentStep (context st)]) (delays st).

(** An upper bound of the number of passes the loop still makes. *)
Definition passes_left (st : State) : nat :=
  maxRetries * (length (steps (context st)) - currentStep (context st)) +
  (maxRetries - retryCount st).

(** What the two maps hold while the loop runs, relative to the cursor
    [currentStep]. *)
Record maps_follow_cursor (st : State) : Prop := mkFollow {
  cursor_in_range : currentStep (context st) <= length (steps (context st));
  results_below_cursor :
    forall i, is_Some (results (context st) !! step_key i) <-> i < currentStep (context st);
  errors_up_to_cursor :
    forall i, is_Some (errors (context st) !! step_key i) -> i <= currentStep (context st);
  retried_has_error :
    0 < retryCount st ->
    is_Some (errors (context st) !! step_key (currentStep (context st))) }.

(** What they hold when the loop has ended. *)
Record maps_at_end (st : State) : Prop := mkAtEnd {
  end_in_range : currentStep (context st) <= length (steps (context st));
  end_results :
    forall i, is_Some (results (context st) !! step_key i) <-> i < currentStep (context st);
  end_error_at_cursor :
    currentStep (context st) < length (steps (context st)) ->
    is_Some (errors (context st) !! step_key (currentStep (context st)));
  end_errors_beyond :
    forall i, currentStep (context st) < i -> errors (context st) !! step_key i = None }.

(** How often step [i] was attempted. *)
Definition attempts_of (st : State) (i : nat) : nat :=
  count_occ Nat.eq_dec (attempts st) i.

(** The attempts while the loop runs: [retryCount] counts those of the
    current step. *)
Record attempts_follow_cursor (st : State) : Prop := mkAttempts {
  retries_in_range : retryCount st <= maxRetries;
  attempts_at_cursor : attempts_of st (currentStep (context st)) = retryCount st;
  attempts_below_cursor :
    forall i, i < currentStep (context st) -> attempts_of st i <= maxRetries;
  attempts_beyond_cursor :
    forall i, currentStep (context st) < i -> attempts_of st i = 0 }.

End LoopStates.

(** *** What happens in a run *)

(** What a run does, one thing after the other: it attempts a step, with
    the outcome [executeStep] had, or it waits. *)
Inductive Event (Result : Type) : Type :=
| Attempted (i : nat) (outcome : Exc Result)
| Waited (ms : Z).
Arguments Attempted {Result} i outcome.
Arguments Waited {Result} ms.

Definition attempt_of {Result} (ev : Event Result) : option nat :=
  match ev with Attempted i _ => Some i | Waited _ => None end.

Definition wait_of {Result} (ev : Event Result) : option Z :=
  match ev with Attempted _ _ => None | Waited ms => Some ms end.

Definition result_of {Result} (i : nat) (ev : Event Result) : option Result :=
  match ev with
  | Attempted j (Ok r) => if (j =? i)%nat then Some r else None
  | _ => None
  end.

Definition failure_of {Result} (i : nat) (ev : Event Result) : option Thrown :=
  match ev with
  | Attempted j (Throw e) => if (j =? i)%nat then Some e else None
  | _ => None
  end.

(** The steps attempted and the delays waited for, in the order of the
    events. *)
Definition attempted {Result} (evs : list (Event Result)) : list nat :=
  omap attempt_of evs.

Definition waits {Result} (evs : list (Event Result)) : list Z :=
  omap wait_of evs.

(** How often step [i] is attempted, what its attempts returned, and
    what they threw. *)
Definition attempts_in {Result} (i : nat) (evs : list (Event Result)) : nat :=
  count_occ Nat.eq_dec (attempted evs) i.

Definition results_of {Result} (i : nat) (evs : list (Event Result)) : list Result :=
  omap (result_of i) evs.

Definition failures_of {Result} (i : nat) (evs : list (Event Result)) : list Thrown :=
  omap (failure_of i) evs.

Section History.
Context {World Step Result : Type}.
Variable executeStep : Step -> World -> Exc Result * World.

Local Abbreviation State := (LoopState World Step Result).

(** The events of one pass through the body of the loop: the attempt of
    the current step, with what [executeStep] returns in the world of the
    pass, and the delays the pass adds to the log. *)
Definition pass_events (step : Step) (st : State) : list (Event Result) :=
  Attempted (currentStep (context st)) (fst (executeStep step (world st)))
  :: map Waited (drop (length (delays st))
                      (delays (fst (loop_body executeStep step st)))).

(** The events of the loop, pass by pass. *)
Fixpoint events (fuel : nat) (st : State) : list (Event Result) :=
  if loop_guard st then
    match fuel with
    | O => []
    | S fuel' =>
        match steps (context st) !! currentStep (context st) with
        | None => []
        | Some step =>
            let '(st', stop) := loop_body executeStep step st in
            (pass_events step st ++ (if stop then [] else events fuel' st'))%list
        end
    end
  else [].

(** The events of [execute]. *)
Definition history (userId : Id) (steps : list Step) (w : World)
    : list (Event Result) :=
  events (enough_fuel steps) (mkLoopState (new_context userId steps) 0 w [] []).

(** Every delay follows a failed attempt with a retriable error, and
    after the attempt number [n] of the step it is of [1000 * n] ms; it is
    followed by the next attempt of that step, whose attempt number is
    then 2 or 3, or by nothing. *)
Definition waits_follow_failures (evs : list (Event Result)) : Prop :=
  forall before ms after,
    evs = (before ++ Waited ms :: after)%list ->
    exists earlier i e,
      before = (earlier ++ [Attempted i (Throw e)])%list /\
      isRetriableError e = true /\
      ms = (1000 * Z.of_nat (S (attempts_in i earlier)))%Z /\
      attempts_in i earlier <= 2 /\
      (after = [] \/
       exists outcome later,
         after = Attempted i outcome :: later /\ attempts_in i earlier <= 1).

(** Every failed attempt with a retriable error is followed by a
    delay. *)
Definition failures_are_waited_for (evs : list (Event Result)) : Prop :=
  forall before i e after,
    evs = (before ++ Attempted i (Throw e) :: after)%list ->
    isRetriableError e = true ->
    exists ms later, after = Waited ms :: later.

(** An attempt that fails with an error that is not retriable is the
    last event. *)
Definition fatal_is_last (evs : list (Event Result)) : Prop :=
  forall before i e after,
    evs = (before ++ Attempted i (Throw e) :: after)%list ->
    isRetriableError e = false -> after = [].

(** The failed attempts so far were retriable. *)
Definition retried_so_far (past : list (Event Result)) : Prop :=
  forall i e, In (Attempted i (Throw e)) past -> isRetriableError e = true.

(** What the events so far say about the state of the loop. *)
Record told (past : list (Event Result)) (st : State) : Prop := mkTold {
  told_attempts : attempts st = attempted past;
  told_delays : delays st = waits past;
  told_results :
    forall i, results (context st) !! step_key i = last (results_of i past);
  told_once : forall i, length (results_of i past) <= 1;
  told_open :
    forall i, currentStep (context st) <= i -> results_of i past = [];
  told_errors :
    forall i, errors (context st) !! step_key i
              = errorMessage <$> last (failures_of i past);
  told_waits : waits_follow_failures past;
  told_failures : failures_are_waited_for past;
  told_last_wait :
    forall before ms, past = (before ++ [Waited ms])%list ->
      exists earlier e,
        before = (earlier ++ [Attempted (currentStep (context st)) (Throw e)])%list /\
        S (attempts_in (currentStep (context st)) earlier) = retryCount st;
  told_in_range :
    forall i, 0 < attempts_in i past -> i < length (steps (context st));
  told_beyond :
    forall i, currentStep (context st) < i -> attempts_in i past = 0 }.

End History.

(** The claim of C7 about one step: a result or an error message, and
    not both. *)
Definition result_xor_error {Result} (out : Outcome Result) (i : nat) : Prop :=
  (is_Some (out_results out !! step_key i) /\ out_errors out !! step_key i = None) \/
  (out_results out !! step_key i = None /\ is_Some (out_errors out !! step_key i)).

(** *** Creating an invoice, step by step *)

(** The client an invoice is made out to, and the store once the client
    is in it. *)
Definition resolve_client (userId : Id) (name : string) (db : Db) : Client * Db :=
  match limit1 (select_clients userId name db) with
  | c :: _ => (c, db)
  | [] =>
      let c := mkClient (nextId db) userId name in
      (c, mkDb (users db) (clients db ++ [c]) (invoices db) (invoiceItems db)
               (payments db) (expenses db) (S (nextId db)))
  end.

(** A row of [invoices], of any user, carries [number]. *)
Definition number_taken (number : string) (db : Db) : bool :=
  existsb (fun i => String.eqb (inv_invoiceNumber i) number) (invoices db).

(** The row of a new invoice. *)
Definition new_invoice (userId clientId : Id) (number : string) (vatIncluded : bool)
    (dueDate : Timestamp) (db : Db) : Invoice :=
  mkInvoice (nextId db) userId clientId number "ZAR" vatIncluded vatRate DRAFT dueDate None.

(** The store with the invoice [inv] and its single line. *)
Definition with_invoice (inv : Invoice) (description : string) (lineTotal : Q)
    (db : Db) : Db :=
  mkDb (users db) (clients db) (invoices db ++ [inv])
       (invoiceItems db ++
        [mkInvoiceItem (S (nextId db)) (inv_id inv) description 1 lineTotal (Some lineTotal)])
       (payments db) (expenses db) (S (S (nextId db))).

(** The store with the invoice [inv] and no line: what is left when the
    line of the invoice is refused. *)
Definition with_invoice_row (inv : Invoice) (db : Db) : Db :=
  mkDb (users db) (clients db) (invoices db ++ [inv]) (invoiceItems db)
       (payments db) (expenses db) (S (nextId db)).

(** The error of a column [decimal(12, 2)] for a number that does not
    fit. *)
Definition overflow : Thrown := ErrorObj DriverError numeric_overflow.

(** [new Error('User not found')] *)
Definition user_not_found : Thrown := ErrorObj PlainError "User not found".

(** The message [AIService.createInvoice] answers a failure with. *)
Definition apology : string :=
  "Sorry, there was an error creating your invoice. Please try again.".


(** A creation of an invoice, seen from the numbering: the store it
    leaves, and the number of the invoice when one was created. *)
Definition Creation : Type := Db -> option string * Db.

(** [AIService.createInvoice] as a creation. *)
Definition service_creation (cal : Calendar) (now : Timestamp) (userId : Id)
    (params : gmap string JsVal) : Creation := fun db =>
  match AIService.createInvoice cal now userId params db with
  | (AIService.Created invoice _ _ _, db1) => (Some (inv_invoiceNumber invoice), db1)
  | (AIService.NotCreated _, db1) => (None, db1)
  end.

(** The [create_invoice] step of the workflow engine as a creation. *)
Definition step_creation (cal : Calendar) (now : Timestamp) (userId : Id)
    (clientName : string) (amount : Q) (description : string) (dueInDays : Q)
    : Creation := fun db =>
  match Workflow.executeCreateInvoice cal now userId clientName amount description
                                      dueInDays db with
  | (Ok (Workflow.InvoiceCreated _ number _ _ _), db1) => (Some number, db1)
  | (_, db1) => (None, db1)
  end.

(** Creations one after the other, each on the store the one before
    left. *)
Fixpoint create_in_turn (creations : list Creation) (db : Db)
    : list (option string) * Db :=
  match creations with
  | [] => ([], db)
  | create :: rest =>
      let '(number, db1) := create db in
      let '(numbers, db2) := create_in_turn rest db1 in
      (number :: numbers, db2)
  end.

(** The number after [count] invoices is [count + 1], padded and
    prefixed. *)
Definition nth_number (count : nat) : option string :=
  Some (invoiceNumber_after count).

(** [create] gives the user the next number whenever the user exists and
    no row of the table carries that number yet. *)
Definition numbers_in_turn (userId : Id) (create : Creation) : Prop :=
  forall db,
    select_users userId db <> [] ->
    number_taken (invoiceNumber_after (length (select_invoices_of userId db))) db = false ->
    exists inv db1,
      create db = (nth_number (length (select_invoices_of userId db)), db1) /\
      inv_invoiceNumber inv = invoiceNumber_after (length (select_invoices_of userId db)) /\
      inv_userId inv = userId /\
      users db1 = users db /\
      invoices db1 = (invoices db ++ [inv])%list.

(** *** The order of the attempts and the time waited *)

Section LoopBounds.
Context {World Step Result : Type}.

Local Abbreviation State := (LoopState World Step Result).

(** The attempts are logged in the order of the steps, and every step
    below the cursor was attempted. *)
Record attempts_in_order (st : State) : Prop := mkInOrder {
  order_sorted : Sorted le (attempts st);
  order_up_to_cursor : forall i, In i (attempts st) -> i <= currentStep (context st);
  order_completed : forall i, i < currentStep (context st) -> 1 <= attempts_of st i }.

(** The time waited for so far, in milliseconds. *)
Definition total_delay (st : State) : Z := fold_right Z.add 0%Z (delays st).

(** The delays after [n] failed attempts of one step add up to
    1000 + 2000 + ... + 1000 n. *)
Definition waited_after (n : nat) : Z := (500 * Z.of_nat n * (Z.of_nat n + 1))%Z.

Record delays_follow_cursor (st : State) : Prop := mkDelays {
  delay_retries : retryCount st <= maxRetries;
  delay_done :
    currentStep (context st) = length (steps (context st)) -> retryCount st = 0;
  delay_values : Forall (fun d => d = 1000 \/ d = 2000 \/ d = 3000)%Z (delays st);
  delay_total :
    (total_delay st
     <= 3000 * Z.of_nat (currentStep (context st)) + waited_after (retryCount st))%Z }.

End LoopBounds.

(** *** A run in which no step fails *)

Section InSequence.
Context {World Step Result : Type}.
Variable executeStep : Step -> World -> Exc Result * World.

(** The steps one after the other, each in the world the one before
    left, as long as none throws: the results and the last world. *)
Fixpoint in_sequence (steps : list Step) (w : World) : option (list Result * World) :=
  match steps with
  | [] => Some ([], w)
  | step :: rest =>
      match executeStep step w with
      | (Ok result, w1) =>
          match in_sequence rest w1 with
          | Some (results, w2) => Some (result :: results, w2)
          | None => None
          end
      | (Throw _, _) => None
      end
  end.
End InSequence.

(** *** The ledger *)

(** The row of [inv] once it is marked as paid. *)
Definition paid_at (paidAt : Timestamp) (inv : Invoice) : Invoice :=
  mkInvoice (inv_id inv) (inv_userId inv) (inv_clientId inv) (inv_invoiceNumber inv)
            (inv_currency inv) (inv_vatIncluded inv) (inv_vatRate inv) PAID
            (inv_dueDate inv) (Some paidAt).




(** The store once the invoice [invoiceId] is set to PAID. *)
Definition marked_paid (paidAt : Timestamp) (invoiceId : Id) (db : Db) : Db :=
  mkDb (users db) (clients db)
       (map (fun i => if (inv_id i =? invoiceId)%nat then paid_at paidAt i else i)
            (invoices db))
       (invoiceItems db) (payments db) (expenses db) (nextId db).

(** The store with one more payment. *)
Definition with_payment (invoiceId : Id) (amount : Q) (paidAt : Timestamp)
    (db : Db) : Db :=
  mkDb (users db) (clients db) (invoices db) (invoiceItems db)
       (payments db ++ [mkPayment (nextId db) invoiceId amount "Manual" paidAt])
       (expenses db) (S (nextId db)).

(** The answer of mark-paid when a query throws. *)
Definition markPaid_failed : Response :=
  mkResponse 500 (ErrorBody "Failed to mark invoice as paid").

(** A ledger in which identifiers come from the counter, no two invoices
    share one, and every payment is the only one of an invoice that is
    PAID. *)
Record ledger_ok (db : Db) : Prop := mkLedgerOk {
  ok_ids_below : forall i, In i (invoices db) -> inv_id i < nextId db;
  ok_ids_differ : List.NoDup (map inv_id (invoices db));
  ok_payments_differ : List.NoDup (map pay_invoiceId (payments db));
  ok_payments_of_paid :
    forall p, In p (payments db) ->
      exists i, In i (invoices db) /\ inv_id i = pay_invoiceId p /\ inv_status i = PAID }.



(** *** The entry points that create an invoice *)

(** [POST /api/invoices] as a creation. *)
Definition route_creation (cal : Calendar) (uuid : string -> option Id)
    (now : Timestamp) (body : gmap string JsVal) : Creation := fun db =>
  match postInvoice cal uuid now body db with
  | (mkInvoicesResponse _ (InvoiceMade _ number _ _ _ _), db1) => (Some number, db1)
  | (_, db1) => (None, db1)
  end.

(** The three ways in which an invoice of [userId] is created: through
    the service or a step of a workflow, with whatever parameters, and
    through the endpoint, with a body that names no other user. *)
Inductive entry_point (cal : Calendar) (uuid : string -> option Id) (userId : Id)
    : Creation -> Prop :=
| through_service now params :
    entry_point cal uuid userId (service_creation cal now userId params)
| through_step now clientName amount description dueInDays :
    entry_point cal uuid userId
      (step_creation cal now userId clientName amount description dueInDays)
| through_route now body :
    (forall form, route_CreateInvoiceSchema uuid body = Ok form ->
                  form_userId form = userId) ->
    entry_point cal uuid userId (route_creation cal uuid now body).

(** The numbers handed out by creations, in their order. *)
Definition handed_out (answers : list (option string)) : list string :=
  omap id answers.

(** What a creation does to the numbering of [userId]: it adds no invoice
    and answers with no number; or it adds an invoice of the user under
    the number after the count of the user's invoices, which no row
    carried, and answers with that number, or with none when the line of
    the invoice is refused. *)
Definition numbers_by_count (userId : Id) (create : Creation) : Prop :=
  forall db, exists answer db1,
    create db = (answer, db1) /\
    users db1 = users db /\
    ((answer = None /\ invoices db1 = invoices db) \/
     exists inv,
       number_taken (invoiceNumber_after (length (select_invoices_of userId db))) db
       = false /\
       inv_invoiceNumber inv
       = invoiceNumber_after (length (select_invoices_of userId db)) /\
       inv_userId inv = userId /\
       invoices db1 = (invoices db ++ [inv])%list /\
       (answer = None \/
        answer = nth_number (length (select_invoices_of userId db)))).

(** The store with one more client. *)
Definition with_client (c : Client) (db : Db) : Db :=
  mkDb (users db) (clients db ++ [c]) (invoices db) (invoiceItems db)
       (payments db) (expenses db) (S (nextId db)).

(** *** Case analysis of a schema *)

Ltac schema_cases H :=
  repeat match type of H with
    | context [match prop ?o ?k with _ => _ end] =>
        destruct (prop o k) eqn:?; simpl in H; try discriminate H
    | context [if Qltb 0 ?q then _ else _] =>
        destruct (Qltb 0 q) eqn:?; simpl in H; try discriminate H
    | context [if (1 <=? ?n)%nat then _ else _] =>
        destruct (1 <=? n)%nat eqn:?; simpl in H; try discriminate H
    end.

(** *** Fixtures of the examples *)

(** A calendar with days of 86400000 ms, and periods that start at the
    instant itself. *)
Definition plain_calendar : Calendar :=
  mkCalendar (fun now n => now + Qfloor n * 86400000)%Z
             (fun t => t) (fun t => t) (fun t => t).

(** A store with two users and nothing else. *)
Definition two_users : Db := mkDb [mkUser 1; mkUser 2] [] [] [] [] [] 3.

(** The parameters of the example of the specification. *)
Definition abc_params : gmap string JsVal :=
  <["clientName" := JStr "ABC Company"]>
    (<["amount" := JNum 500]>
       (<["description" := JStr "website design"]> ∅)).


(** Parameters of an invoice of 9 000 000 000 without the VAT. *)
Definition big_params : gmap string JsVal :=
  <["clientName" := JStr "ABC Company"]>
    (<["amount" := JNum 9000000000]>
       (<["description" := JStr "website design"]>
          (<["vatIncluded" := JBool false]> ∅))).

(** Parameters of an invoice of 11 500 000 000 with the VAT, a subtotal of
    10 000 000 000. *)
Definition huge_params : gmap string JsVal :=
  <["clientName" := JStr "ABC Company"]>
    (<["amount" := JNum 11500000000]>
       (<["description" := JStr "website design"]> ∅)).

(** Parameters with an empty client name and an empty description. *)
Definition empty_names_params : gmap string JsVal :=
  <["clientName" := JStr ""]>
    (<["amount" := JNum 500]>
       (<["description" := JStr ""]> ∅)).

(** The error of a driver that cannot reach the store in time. *)
Definition timeout_error : Thrown := ErrorObj DriverError "Connection timeout".

(** The expense of the example of the specification, logged by user 1. *)
Definition fuel_expense : Workflow.WorkflowStep :=
  Workflow.log_expense 1 450 "transport fuel" "Transport" None.

(** The invoice of the example of the specification, as a step. *)
Definition abc_invoice (userId : Id) : Workflow.WorkflowStep :=
  Workflow.create_invoice userId "ABC Company" 500 "website design" 30.

(** An expense, an invoice and an expense, all of user 1. *)
Definition three_steps : list Workflow.WorkflowStep :=
  [fuel_expense; abc_invoice 1; fuel_expense].

(** The store is out of reach at the first two attempts of the second
    step. *)
Definition two_timeouts : Workflow.Env :=
  Workflow.mkEnv two_users [None; Some timeout_error; Some timeout_error].

(** The store is out of reach at five attempts in a row. *)
Definition five_timeouts : Workflow.Env :=
  Workflow.mkEnv two_users
    [Some timeout_error; Some timeout_error; Some timeout_error;
     Some timeout_error; Some timeout_error].

(** The same steps with the invoice for a user the store does not know. *)
Definition three_steps_unknown_user : list Workflow.WorkflowStep :=
  [fuel_expense; abc_invoice 9; fuel_expense].

(** Two UUID texts, for the users 1 and 2. *)
Definition demo_uuid (text : string) : option Id :=
  if String.eqb text "00000000-0000-4000-8000-000000000001" then Some 1
  else if String.eqb text "00000000-0000-4000-8000-000000000002" then Some 2
  else None.

(** The body of a mark-paid request of user 1. *)
Definition owner_body : gmap string JsVal :=
  <["userId" := JStr "00000000-0000-4000-8000-000000000001"]> ∅.

(** The store after user 1 created the invoice of [abc_params]. *)
Definition invoiced_store : Db :=
  snd (AIService.createInvoice plain_calendar 1000%Z 1 abc_params two_users).

(** The invoice in that store. *)
Definition draft_invoice : Invoice :=
  mkInvoice 4 1 3 "INV-0001" "ZAR" true vatRate DRAFT 2592001000%Z None.

(** The same store after the invoice, row 4, was marked as paid. *)
Definition paid_store : Db :=
  snd (markPaid demo_uuid 2000%Z 4 owner_body invoiced_store).

(** The invoice in that store. *)
Definition paid_invoice : Invoice :=
  mkInvoice 4 1 3 "INV-0001" "ZAR" true vatRate PAID 2592001000%Z (Some 2000%Z).

(** The body of a request of user 2. *)
Definition other_body : gmap string JsVal :=
  <["userId" := JStr "00000000-0000-4000-8000-000000000002"]> ∅.

(** The invoice of [abc_params] as a form of the invoices endpoint, sent
    by user 1. *)
Definition abc_form : gmap string JsVal :=
  <["userId" := JStr "00000000-0000-4000-8000-000000000001"]> abc_params.

(** The expense of the example of the specification as parameters of the
    service, and as a form of the expenses endpoint sent by user 1. *)
Definition fuel_params : gmap string JsVal :=
  <["amount" := JNum 450]>
    (<["description" := JStr "transport fuel"]>
       (<["category" := JStr "Transport"]> ∅)).

Definition fuel_form : gmap string JsVal :=
  <["userId" := JStr "00000000-0000-4000-8000-000000000001"]> fuel_params.

(** No text denotes a date. *)
Definition no_dates (text : string) : option Timestamp := None.

(** A chat request of user 1, a model that resolves every message to the
    creation of the invoice of [abc_params], and a model out of reach. *)
Definition abc_chat : gmap string JsVal :=
  <["message" := JStr "Create invoice for R500 website design for ABC Company"]>
    (<["userId" := JStr "00000000-0000-4000-8000-000000000001"]> ∅).

Definition plain_record (v : JsVal) : bool :=
  match v with JObject => true | _ => false end.

Definition invoice_intent (prompt : string) : Exc IntentResult :=
  Ok (mkIntentResult "INVOICE_CREATE" (9 # 10) abc_params "Creating the invoice." []).

Definition model_offline (prompt : string) : Exc IntentResult :=
  Throw (ErrorObj PlainError "fetch failed").

(** * Properties *)

(** ** Amounts *)

Lemma Qltb_lt (a b : Q) : Qltb a b = true <-> (a < b)%Q.
Proof.
  unfold Qltb. rewrite negb_true_iff.
  split; intros H.
  - apply Qnot_le_lt. intros Hle. apply Qle_bool_iff in Hle. congruence.
  - destruct (Qle_bool b a) eqn:E; [|reflexivity].
    apply Qle_bool_iff in E. exfalso. exact (Qlt_not_le _ _ H E).
Qed.

Lemma Qltb_ge (a b : Q) : Qltb a b = false <-> (b <= a)%Q.
Proof.
  unfold Qltb. rewrite negb_false_iff. apply Qle_bool_iff.
Qed.

(** ** Columns [decimal(12, 2)] *)









Lemma round_half_away_mono x y : (x <= y)%Q -> (round_half_away x <= round_half_away y)%Z.
Proof.
  intros H. unfold round_half_away.
  destruct (Qltb x 0) eqn:Ex, (Qltb y 0) eqn:Ey.
  - apply Z.opp_le_mono. rewrite !Z.opp_involutive. apply Qfloor_resp_le. lra.
  - apply Qltb_lt in Ex. 
    assert (Hy : (0 <= y)%Q).
    { apply Qnot_lt_le. intros Hlt. apply Qltb_lt in Hlt. congruence. }
    assert (0 <= Qfloor (y + (1 # 2)))%Z.
    { change 0%Z with (Qfloor 0). apply Qfloor_resp_le. lra. }
    assert (0 <= Qfloor (- x + (1 # 2)))%Z.
    { change 0%Z with (Qfloor 0). apply Qfloor_resp_le. lra. }
    lia.
  - apply Qltb_lt in Ey.
    assert (Hx : (0 <= x)%Q).
    { apply Qnot_lt_le. intros Hlt. apply Qltb_lt in Hlt. congruence. }
    lra.
  - apply Qfloor_resp_le. lra.
Qed.

Lemma cents_eq x : (cents x == inject_Z (round_half_away (x * 100)) / 100)%Q.
Proof. unfold cents. apply Qred_correct. Qed.









Lemma cents_mono x y : (x <= y)%Q -> (cents x <= cents y)%Q.
Proof.
  intros H. rewrite !cents_eq.
  assert (Hr : (round_half_away (x * 100) <= round_half_away (y * 100))%Z).
  { apply round_half_away_mono. lra. }
  rewrite Zle_Qle in Hr.
  apply Qmult_le_compat_r with (z := (/ 100)%Q) in Hr; [exact Hr|]. 
  apply Qinv_le_0_compat. lra.
Qed.


(** C5: for a positive amount [a] and a rate [r] strictly between 0 and
    1, the inclusive split of invoice creation is [subtotal = a / (1 + r)],
    [vat = a - subtotal], and recombines to [a] exactly; the exclusive
    split is [vat = a * r] with [total = subtotal + vat = a * (1 + r)]. *)
Theorem vat_split_recombines (a r : Q) :
  (0 < a)%Q -> (0 < r)%Q -> (r < 1)%Q ->
  let inc := calculateAmounts r true a in
  let exc := calculateAmounts r false a in
  (subtotal inc == a / (1 + r))%Q /\
  (vatAmount inc == a - subtotal inc)%Q /\
  (subtotal inc + vatAmount inc == a)%Q /\
  (total inc == a)%Q /\
  (subtotal exc == a)%Q /\
  (vatAmount exc == a * r)%Q /\
  (total exc == subtotal exc + vatAmount exc)%Q /\
  (total exc == a * (1 + r))%Q.
Proof.
  intros Ha Hr0 Hr1. simpl.
  repeat split; try reflexivity; ring.
Qed.

(** The split of the amount 500 at the rate 0.15. *)
Lemma vat_split_recombines_at_500 :
  let inc := calculateAmounts vatRate true 500 in
  let exc := calculateAmounts vatRate false 500 in
  (subtotal inc == 500 / (1 + vatRate))%Q /\
  (vatAmount inc == 500 - subtotal inc)%Q /\
  (subtotal inc + vatAmount inc == 500)%Q /\
  (total inc == 500)%Q /\
  (subtotal exc == 500)%Q /\
  (vatAmount exc == 500 * vatRate)%Q /\
  (total exc == subtotal exc + vatAmount exc)%Q /\
  (total exc == 500 * (1 + vatRate))%Q.
Proof.
  apply (vat_split_recombines 500 vatRate); reflexivity.
Defined.

(** ** The intent resolver *)

(** C10: when the call of the language model throws, [processQuery]
    returns the intent HELP with confidence 0, no parameters and the
    apology, whatever the user and the message. *)
Theorem processQuery_degrades_to_help
    (generateObject : string -> Exc IntentResult) (userId : Id) (message : string) :
  (exists e,
     generateObject ("User query: " +:+ double_quote +:+ message +:+ double_quote)
     = Throw e) ->
  processQuery generateObject userId message
  = mkIntentResult "HELP" 0 ∅
      "I had trouble understanding your request. Please try again." [].
Proof.
  intros [e He]. unfold processQuery. rewrite He. reflexivity.
Qed.

(** A model that cannot be reached. *)
Lemma processQuery_degrades_when_offline :
  processQuery (fun _ => Throw (ErrorObj PlainError "fetch failed")) 1 "create invoice"
  = mkIntentResult "HELP" 0 ∅
      "I had trouble understanding your request. Please try again." [].
Proof.
  apply processQuery_degrades_to_help.
  exists (ErrorObj PlainError "fetch failed"). reflexivity.
Defined.

(** ** The margin of a financial summary *)

Lemma profitMargin_zero_revenue (netProfit totalRevenue : Q) :
  (totalRevenue == 0)%Q -> profitMargin netProfit totalRevenue = Finite 0.
Proof.
  intros H. unfold profitMargin.
  replace (Qltb 0 totalRevenue) with false; [reflexivity|].
  symmetry. apply Qltb_ge. rewrite H. apply Qle_refl.
Qed.

Lemma profitMargin_finite (netProfit totalRevenue : Q) :
  is_finite (profitMargin netProfit totalRevenue) = true.
Proof.
  unfold profitMargin. destruct (Qltb 0 totalRevenue) eqn:E; [|reflexivity].
  apply Qltb_lt in E. unfold js_div.
  destruct (Qeq_bool totalRevenue 0) eqn:E0; [|reflexivity].
  apply Qeq_bool_iff in E0. rewrite E0 in E. exfalso. exact (Qlt_irrefl _ E).
Qed.

(** Without the guard the same quotient is not a finite number when the
    revenue is 0. *)
Lemma unguarded_margin_zero_revenue (netProfit totalRevenue : Q) :
  (totalRevenue == 0)%Q -> is_finite (unguarded_margin netProfit totalRevenue) = false.
Proof.
  intros H. unfold unguarded_margin, js_div.
  replace (Qeq_bool totalRevenue 0) with true
    by (symmetry; apply Qeq_bool_iff; exact H).
  destruct (Qeq_bool netProfit 0); [reflexivity|].
  destruct (Qltb 0 netProfit); reflexivity.
Qed.

Lemma summarize_margin_zero startDate endDate paidInvoices expenses :
  (revenue_total (summarize startDate endDate paidInvoices expenses) == 0)%Q ->
  profit_margin (summarize startDate endDate paidInvoices expenses) = Finite 0.
Proof. intros H. simpl in *. apply profitMargin_zero_revenue. exact H. Qed.

(** The margin of [analyzeFinancialHealth] is 0 when the revenue of the
    period is 0, whatever the expenses. *)
Lemma analyzeFinancialHealth_margin_zero cal now userId period db s :
  AdvancedService.analyzeFinancialHealth cal now userId period db
  = AdvancedService.Summary s ->
  (revenue_total s == 0)%Q ->
  profit_margin s = Finite 0.
Proof.
  unfold AdvancedService.analyzeFinancialHealth.
  destruct (select_users userId db); [discriminate|].
  intros [= <-]. apply summarize_margin_zero.
Qed.

(** So is the margin of the summary of the reports endpoint. *)
Lemma reports_summary_margin_zero userId startDate endDate db :
  (revenue_total (reports_generateFinancialSummary userId startDate endDate db) == 0)%Q ->
  profit_margin (reports_generateFinancialSummary userId startDate endDate db) = Finite 0.
Proof. apply summarize_margin_zero. Qed.

Lemma isRetriableError_expenses_before_initialization :
  isRetriableError Workflow.expenses_before_initialization = false.
Proof. vm_compute. reflexivity. Qed.

(** C8, on the workflow engine: [generateFinancialSummary] reaches neither
    its totals nor its margin.  For every user, period and store it
    throws the [ReferenceError] of its second query, so does the
    [generate_report] step that calls it, and the engine takes the error
    for a fatal one. *)
Theorem workflow_financial_summary_throws
    (cal : Calendar) (now : Timestamp) (userId : Id) (period : Workflow.Period)
    (startDate endDate : Timestamp) (db : Db) :
  Workflow.generateFinancialSummary userId startDate endDate db
  = (Throw Workflow.expenses_before_initialization, db) /\
  Workflow.executeStep cal now
    (Workflow.generate_report userId period Workflow.financial_summary) db
  = (Throw Workflow.expenses_before_initialization, db) /\
  isRetriableError Workflow.expenses_before_initialization = false.
Proof.
  split; [reflexivity|]. split.
  - destruct period; reflexivity.
  - exact isRetriableError_expenses_before_initialization.
Qed.

(** ** Validation of the parameters of [AIService.createInvoice] *)

(** Parameters the schema refuses are answered with the apology, and
    nothing is written. *)
Lemma createInvoice_invalid_params cal now userId params db e :
  AIService.CreateInvoiceSchema params = Throw e ->
  AIService.createInvoice cal now userId params db = (AIService.NotCreated apology, db).
Proof.
  intros H. unfold AIService.createInvoice, AIService.createInvoice_try, bind, lift.
  rewrite H. reflexivity.
Qed.

(** An amount that is not a number above 0 is refused. *)
Lemma CreateInvoiceSchema_amount params v :
  AIService.CreateInvoiceSchema params = Ok v ->
  prop params "amount" = JNum (AIService.amount v) /\ (0 < AIService.amount v)%Q.
Proof.
  intros H.
  unfold AIService.CreateInvoiceSchema, exc_bind, z_positive, z_default, z_string,
    z_number, z_boolean, zod_issue in H.
  schema_cases H; injection H as <-; simpl; (split; [reflexivity | by apply Qltb_lt]).
Qed.

(** What the schema of [AIService.createInvoice] accepts: any two texts,
    empty ones too, for [clientName] and [description]; a number above 0
    for [amount]; nothing or a number above 0 for [dueInDays]; nothing or
    a boolean for [vatIncluded]. *)
Lemma CreateInvoiceSchema_accepts params :
  (exists v, AIService.CreateInvoiceSchema params = Ok v) <->
  (exists name, prop params "clientName" = JStr name) /\
  (exists a, prop params "amount" = JNum a /\ (0 < a)%Q) /\
  (exists text, prop params "description" = JStr text) /\
  (prop params "dueInDays" = JUndefined \/
   exists d, prop params "dueInDays" = JNum d /\ (0 < d)%Q) /\
  (prop params "vatIncluded" = JUndefined \/
   exists b, prop params "vatIncluded" = JBool b).
Proof.
  split.
  - intros [v H].
    unfold AIService.CreateInvoiceSchema, exc_bind, z_positive, z_default, z_string,
      z_number, z_boolean, zod_issue in H.
    schema_cases H;
      (split; [eauto|]; split; [eexists; split; [reflexivity|by apply Qltb_lt]|];
       split; [eauto|]; split; [first [by left | right; eexists; split;
         [reflexivity|by apply Qltb_lt]]|]; first [by left | right; eauto]).
  - intros ([name Hn] & (a & Ha & Hpos) & [text Ht] & Hdue & Hvat).
    apply Qltb_lt in Hpos.
    unfold AIService.CreateInvoiceSchema, exc_bind, z_positive, z_default, z_string,
      z_number, z_boolean, zod_issue.
    rewrite Hn, Ha, Ht. unfold exc_bind. rewrite Hpos.
    destruct Hdue as [-> | (d & -> & Hd)], Hvat as [-> | [b ->]];
      try (apply Qltb_lt in Hd; rewrite Hd); eexists; reflexivity.
Qed.

(** With the default VAT-inclusive convention at the rate 0.15, an amount
    of 500 is shown as 434.78 plus 65.22; the invoice is the draft
    INV-0001, due 30 days later. *)
Example abc_invoice_as_shown :
  exists client message,
    fst (AIService.createInvoice plain_calendar 1000%Z 1 abc_params two_users)
    = AIService.Created draft_invoice client
        (mkAmounts (Number_toFixed 2 (500 / (1 + vatRate)))
                   (Number_toFixed 2 (500 - 500 / (1 + vatRate)))
                   (Number_toFixed 2 500))
        message /\
    (Number_toFixed 2 (500 / (1 + vatRate)) == 434.78)%Q /\
    (Number_toFixed 2 (500 - 500 / (1 + vatRate)) == 65.22)%Q /\
    toFixed 2 500 = "500.00" /\
    inv_dueDate draft_invoice = (1000 + 30 * 86400000)%Z.
Proof.
  do 2 eexists. split; [vm_compute; reflexivity|].
  split; [reflexivity|]. split; [reflexivity|]. split; vm_compute; reflexivity.
Qed.

(** An expense of 450 carries a VAT amount shown as 58.70. *)
Example fuel_expense_vat :
  exists e,
    expenses (snd (Workflow.executeStep plain_calendar 1000%Z fuel_expense two_users))
    = [e] /\
    exp_amount e = 450%Q /\
    (Number_toFixed 2 (Number_or_0 (exp_vatAmount e)) == 58.70)%Q.
Proof.
  eexists. split; [vm_compute; reflexivity|]. split; reflexivity.
Qed.

(** C9, at parameters with an empty [clientName] and an empty
    [description]: [AIService.createInvoice] answers with success and
    stores a client without a name and an invoice line without a
    description, where the schema of the invoices endpoint refuses the
    same parameters. *)
Theorem createInvoice_accepts_empty_names (cal : Calendar) (now : Timestamp) :
  (exists invoice client amounts message,
     fst (AIService.createInvoice cal now 1 empty_names_params two_users)
     = AIService.Created invoice client amounts message /\
     client_name client = "" /\
     inv_invoiceNumber invoice = "INV-0001") /\
  map item_description
      (invoiceItems (snd (AIService.createInvoice cal now 1 empty_names_params two_users)))
  = [""] /\
  route_CreateInvoiceSchema demo_uuid
    (<["userId" := JStr "00000000-0000-4000-8000-000000000001"]> empty_names_params)
  = Throw (ErrorObj ZodError "String must contain at least 1 character(s)").
Proof.
  split; [|split].
  - do 4 eexists. vm_compute. split; [reflexivity|split; reflexivity].
  - vm_compute. reflexivity.
  - vm_compute. reflexivity.
Qed.

(** ** Invoice numbers *)

(** C1, for a second user of the same store: after user 1 created an
    invoice, which is numbered INV-0001, the first invoice of user 2 is
    numbered INV-0001 as well and the store refuses it, because
    [invoice_number] is unique over all users.  [AIService.createInvoice]
    answers with the apology, the [create_invoice] step throws, and user 2
    has no invoice. *)
Theorem second_user_gets_no_invoice (cal : Calendar) (now : Timestamp) :
  let first := AIService.createInvoice cal now 1 abc_params two_users in
  let second := AIService.createInvoice cal now 2 abc_params (snd first) in
  (exists invoice client amounts message,
     fst first = AIService.Created invoice client amounts message /\
     inv_invoiceNumber invoice = "INV-0001") /\
  invoiceNumber_after (length (select_invoices_of 2 (snd first))) = "INV-0001" /\
  fst second = AIService.NotCreated apology /\
  select_invoices_of 2 (snd second) = [] /\
  fst (Workflow.executeCreateInvoice cal now 2 "ABC Company" 500 "website design" 30
         (snd first))
  = Throw (ErrorObj DriverError unique_violation).
Proof.
  cbv zeta. split; [|split; [|split; [|split]]].
  - do 4 eexists. vm_compute. split; reflexivity.
  - vm_compute. reflexivity.
  - vm_compute. reflexivity.
  - vm_compute. reflexivity.
  - vm_compute. reflexivity.
Qed.

(** ** The workflow engine *)

Lemma step_key_inj (i j : nat) : step_key i = step_key j -> i = j.
Proof.
  unfold step_key, String_of_nat. intros H.
  apply (inj (String.app "step_")) in H. by apply (inj pretty) in H.
Qed.

Section EngineProperties.
Context {World Step Result : Type}.
Variable executeStep : Step -> World -> Exc Result * World.

Local Abbreviation State := (LoopState World Step Result).

Lemma loop_end fuel (st : State) :
  loop_guard st = false -> loop executeStep fuel st = Some st.
Proof. intros H. destruct fuel; simpl; rewrite H; reflexivity. Qed.

Lemma loop_success fuel (st : State) step result w :
  loop_guard st = true ->
  steps (context st) !! currentStep (context st) = Some step ->
  executeStep step (world st) = (Ok result, w) ->
  loop executeStep (S fuel) st = loop executeStep fuel (after_success st result w).
Proof.
  intros Hg Hs He. simpl. rewrite Hg, Hs. unfold loop_body. rewrite He. reflexivity.
Qed.

Lemma loop_retriable fuel (st : State) step error w :
  loop_guard st = true ->
  steps (context st) !! currentStep (context st) = Some step ->
  executeStep step (world st) = (Throw error, w) ->
  isRetriableError error = true ->
  loop executeStep (S fuel) st = loop executeStep fuel (after_retriable st error w).
Proof.
  intros Hg Hs He Hr. simpl. rewrite Hg, Hs. unfold loop_body. rewrite He, Hr.
  reflexivity.
Qed.

Lemma loop_fatal fuel (st : State) step error w :
  loop_guard st = true ->
  steps (context st) !! currentStep (context st) = Some step ->
  executeStep step (world st) = (Throw error, w) ->
  isRetriableError error = false ->
  loop executeStep (S fuel) st = Some (after_fatal st error w).
Proof.
  intros Hg Hs He Hr. simpl. rewrite Hg, Hs. unfold loop_body. rewrite He, Hr.
  reflexivity.
Qed.

Lemma loop_guard_true (st : State) :
  loop_guard st = true <->
  currentStep (context st) < length (steps (context st)) /\ retryCount st < maxRetries.
Proof.
  unfold loop_guard. rewrite andb_true_iff, !Nat.ltb_lt. reflexivity.
Qed.

(** *** The loop ends *)

Lemma loop_total fuel (st : State) :
  passes_left st < fuel -> is_Some (loop executeStep fuel st).
Proof.
  revert st. induction fuel as [|fuel IH]; intros st Hlt; [lia|].
  destruct (loop_guard st) eqn:Hg; [|rewrite loop_end; eauto].
  apply loop_guard_true in Hg as Hg'. destruct Hg' as [Hcur Hretry].
  destruct (lookup_lt_is_Some_2 _ _ Hcur) as [step Hstep].
  simpl. rewrite Hg, Hstep. unfold loop_body.
  destruct (executeStep step (world st)) as [[result|error] w].
  - apply IH. unfold passes_left in *. simpl. unfold maxRetries in *. lia.
  - destruct (isRetriableError error); [|eauto].
    apply IH. unfold passes_left in *. simpl. unfold maxRetries in *. lia.
Qed.

Lemma run_total userId (steps : list Step) (w : World) :
  is_Some (run executeStep userId steps w).
Proof.
  apply loop_total. unfold passes_left, enough_fuel, maxRetries. simpl. lia.
Qed.

(** *** What the two maps hold *)

Lemma lookup_step_key_insert {A} (m : gmap string A) i j (x : A) :
  is_Some (<[step_key i := x]> m !! step_key j) <-> j = i \/ is_Some (m !! step_key j).
Proof.
  destruct (decide (i = j)) as [->|Hne].
  - rewrite lookup_insert_eq. split; eauto.
  - rewrite lookup_insert_ne by (intros H; apply step_key_inj in H; done).
    split; [eauto|]. intros [->|H]; [done|exact H].
Qed.

Lemma follow_after_success (st : State) result w :
  currentStep (context st) < length (steps (context st)) ->
  maps_follow_cursor st -> maps_follow_cursor (after_success st result w).
Proof.
  intros Hcur [Hr Hres Herr Hret]. split; simpl.
  - lia.
  - intros i. rewrite lookup_step_key_insert, Hres. lia.
  - intros i H. apply Herr in H. lia.
  - lia.
Qed.

Lemma follow_after_retriable (st : State) error w :
  maps_follow_cursor st -> maps_follow_cursor (after_retriable st error w).
Proof.
  intros [Hr Hres Herr Hret]. split; simpl.
  - exact Hr.
  - exact Hres.
  - intros i. rewrite lookup_step_key_insert. intros [->|H]; [lia|by apply Herr].
  - intros _. rewrite lookup_insert_eq. eauto.
Qed.

Lemma loop_maps fuel (st st' : State) :
  maps_follow_cursor st -> loop executeStep fuel st = Some st' -> maps_at_end st'.
Proof.
  revert st. induction fuel as [|fuel IH]; intros st Hinv Hloop.
  - simpl in Hloop. destruct (loop_guard st) eqn:Hg; [discriminate|].
    injection Hloop as <-. destruct Hinv as [Hr Hres Herr Hret].
    split; [done|done| |].
    + intros Hcur. apply Hret.
      destruct (Nat.ltb_spec (retryCount st) maxRetries) as [Hlt|Hge].
      * exfalso. assert (loop_guard st = true) by (apply loop_guard_true; done).
        congruence.
      * unfold maxRetries in Hge. lia.
    + intros i Hi. destruct (errors (context st) !! step_key i) eqn:E; [|done].
      assert (i <= currentStep (context st)) by (apply Herr; eauto). lia.
  - destruct (loop_guard st) eqn:Hg.
    + apply loop_guard_true in Hg as Hg'. destruct Hg' as [Hcur Hretry].
      destruct (lookup_lt_is_Some_2 _ _ Hcur) as [step Hstep].
      simpl in Hloop. rewrite Hg, Hstep in Hloop. unfold loop_body in Hloop.
      destruct (executeStep step (world st)) as [[result|error] w].
      * apply (IH _ (follow_after_success st result w Hcur Hinv) Hloop).
      * destruct (isRetriableError error).
        -- apply (IH _ (follow_after_retriable st error w Hinv) Hloop).
        -- injection Hloop as <-. destruct Hinv as [Hr Hres Herr Hret].
           split; simpl; [done|done| |].
           ++ intros _. rewrite lookup_insert_eq. eauto.
           ++ intros i Hi.
              rewrite lookup_insert_ne by (intros H; apply step_key_inj in H; lia).
              destruct (errors (context st) !! step_key i) eqn:E; [|done].
              assert (i <= currentStep (context st)) by (apply Herr; eauto). lia.
    + rewrite loop_end in Hloop by done. injection Hloop as <-.
      apply (IH st Hinv). apply loop_end. exact Hg.
Qed.

(** *** No step is attempted more than three times *)

Lemma count_occ_snoc (log : list nat) (j i : nat) :
  count_occ Nat.eq_dec (log ++ [j]) i
  = count_occ Nat.eq_dec log i + (if Nat.eq_dec j i then 1 else 0).
Proof. rewrite count_occ_app. simpl. destruct (Nat.eq_dec j i); reflexivity. Qed.

Lemma attempts_in_range (st : State) :
  attempts_follow_cursor st -> forall i, attempts_of st i <= maxRetries.
Proof.
  intros [Hr Hat Hbelow Hbeyond] i.
  destruct (Nat.lt_trichotomy i (currentStep (context st))) as [Hlt|[->|Hgt]].
  - by apply Hbelow.
  - by rewrite Hat.
  - rewrite Hbeyond by done. lia.
Qed.

Lemma attempts_after_success (st : State) result w :
  retryCount st < maxRetries ->
  attempts_follow_cursor st -> attempts_follow_cursor (after_success st result w).
Proof.
  intros Hretry [Hr Hat Hbelow Hbeyond]. unfold attempts_of in *.
  split; unfold attempts_of; simpl.
  - lia.
  - rewrite count_occ_snoc, Hbeyond by lia. destruct (Nat.eq_dec _ _); lia.
  - intros i Hi. rewrite count_occ_snoc.
    destruct (Nat.eq_dec (currentStep (context st)) i) as [<-|Hne].
    + rewrite Hat. lia.
    + assert (Hlt : i < currentStep (context st)) by lia.
      specialize (Hbelow i Hlt). lia.
  - intros i Hi. rewrite count_occ_snoc, Hbeyond by lia.
    destruct (Nat.eq_dec _ _); lia.
Qed.

Lemma attempts_after_retriable (st : State) error w :
  retryCount st < maxRetries ->
  attempts_follow_cursor st -> attempts_follow_cursor (after_retriable st error w).
Proof.
  intros Hretry [Hr Hat Hbelow Hbeyond]. unfold attempts_of in *.
  split; unfold attempts_of; simpl.
  - lia.
  - rewrite count_occ_snoc, Hat. destruct (Nat.eq_dec _ _); [lia|done].
  - intros i Hi. rewrite count_occ_snoc.
    destruct (Nat.eq_dec _ _); [lia|]. specialize (Hbelow i Hi). lia.
  - intros i Hi. rewrite count_occ_snoc, Hbeyond by lia.
    destruct (Nat.eq_dec _ _); lia.
Qed.

Lemma attempts_after_fatal (st : State) error w :
  retryCount st < maxRetries ->
  attempts_follow_cursor st ->
  forall i, attempts_of (after_fatal st error w) i <= maxRetries.
Proof.
  intros Hretry [Hr Hat Hbelow Hbeyond] i. unfold attempts_of in *. simpl.
  rewrite count_occ_snoc.
  destruct (Nat.eq_dec (currentStep (context st)) i) as [<-|Hne].
  - rewrite Hat. lia.
  - destruct (Nat.lt_trichotomy i (currentStep (context st))) as [Hlt|[->|Hgt]].
    + specialize (Hbelow i Hlt). lia.
    + done.
    + rewrite Hbeyond by lia. lia.
Qed.

Lemma loop_attempts fuel (st st' : State) :
  attempts_follow_cursor st -> loop executeStep fuel st = Some st' ->
  forall i, attempts_of st' i <= maxRetries.
Proof.
  revert st. induction fuel as [|fuel IH]; intros st Hinv Hloop.
  - simpl in Hloop. destruct (loop_guard st); [discriminate|].
    injection Hloop as <-. by apply attempts_in_range.
  - destruct (loop_guard st) eqn:Hg.
    + apply loop_guard_true in Hg as Hg'. destruct Hg' as [Hcur Hretry].
      destruct (lookup_lt_is_Some_2 _ _ Hcur) as [step Hstep].
      simpl in Hloop. rewrite Hg, Hstep in Hloop. unfold loop_body in Hloop.
      destruct (executeStep step (world st)) as [[result|error] w].
      * exact (IH _ (attempts_after_success st result w Hretry Hinv) Hloop).
      * destruct (isRetriableError error).
        -- exact (IH _ (attempts_after_retriable st error w Hretry Hinv) Hloop).
        -- injection Hloop as <-.
           exact (attempts_after_fatal st error w Hretry Hinv).
    + rewrite loop_end in Hloop by done. injection Hloop as <-.
      by apply attempts_in_range.
Qed.

(** In every run, every step is attempted at most [maxRetries] = 3
    times. *)
Lemma at_most_three_attempts userId (workflow : list Step) (w : World) (st : State) :
  run executeStep userId workflow w = Some st ->
  forall i, attempts_of st i <= 3.
Proof.
  intros Hrun. apply (loop_attempts _ _ _) with (2 := Hrun).
  split; unfold attempts_of; simpl; intros; unfold maxRetries; lia.
Qed.

(** A result once stored for a completed step stays as it is. *)
Lemma loop_keeps_results fuel (st st' : State) k r :
  loop executeStep fuel st = Some st' ->
  k < currentStep (context st) ->
  results (context st) !! step_key k = Some r ->
  results (context st') !! step_key k = Some r.
Proof.
  revert st. induction fuel as [|fuel IH]; intros st Hloop Hk Hr.
  - simpl in Hloop. destruct (loop_guard st); [discriminate|]. by injection Hloop as <-.
  - simpl in Hloop. destruct (loop_guard st); [|by injection Hloop as <-].
    destruct (steps (context st) !! currentStep (context st)) as [step|];
      [|by injection Hloop as <-].
    unfold loop_body in Hloop.
    destruct (executeStep step (world st)) as [[result|error] w].
    + apply (IH _ Hloop); simpl; [lia|].
      rewrite lookup_insert_ne by (intros H; apply step_key_inj in H; lia). exact Hr.
    + destruct (isRetriableError error).
      * apply (IH _ Hloop); simpl; done.
      * by injection Hloop as <-.
Qed.

Lemma loop_same_steps fuel (st st' : State) :
  loop executeStep fuel st = Some st' -> steps (context st') = steps (context st).
Proof.
  revert st. induction fuel as [|fuel IH]; intros st Hl; simpl in Hl.
  - destruct (loop_guard st); [discriminate|]. by injection Hl as <-.
  - destruct (loop_guard st); [|by injection Hl as <-].
    destruct (steps (context st) !! currentStep (context st)) as [step|];
      [|by injection Hl as <-].
    unfold loop_body in Hl.
    destruct (executeStep step (world st)) as [[result|error] w].
    + by rewrite (IH _ Hl).
    + destruct (isRetriableError error); [by rewrite (IH _ Hl)|].
      by injection Hl as <-.
Qed.

Lemma follow_at_start userId (workflow : list Step) (w : World) :
  maps_follow_cursor (mkLoopState (new_context userId workflow) 0 w [] [] : State).
Proof.
  split; simpl.
  - lia.
  - intros i. rewrite lookup_empty. split; [by intros [? ?]|lia].
  - intros i. rewrite lookup_empty. by intros [? ?].
  - lia.
Qed.

(** C3: for three steps, when the second one fails twice with a retriable
    error and succeeds at its third attempt, the run completes 3 steps
    and succeeds; when the second one fails with a fatal error, the run
    completes 1 step, does not succeed, and keeps the result of the first
    step. *)
Theorem three_steps_retry_or_stop (userId : Id) (s1 s2 s3 : Step) :
  (forall w0 w1 w2 w3 w4 w5 r1 r2 r3 e1 e2,
     executeStep s1 w0 = (Ok r1, w1) ->
     executeStep s2 w1 = (Throw e1, w2) -> isRetriableError e1 = true ->
     executeStep s2 w2 = (Throw e2, w3) -> isRetriableError e2 = true ->
     executeStep s2 w3 = (Ok r2, w4) ->
     executeStep s3 w4 = (Ok r3, w5) ->
     exists out,
       execute executeStep userId [s1; s2; s3] w0 = Some out /\
       completedSteps out = 3 /\ success out = true) /\
  (forall w0 w1 w2 r1 e,
     executeStep s1 w0 = (Ok r1, w1) ->
     executeStep s2 w1 = (Throw e, w2) -> isRetriableError e = false ->
     exists out,
       execute executeStep userId [s1; s2; s3] w0 = Some out /\
       completedSteps out = 1 /\ success out = false /\
       out_results out !! step_key 0 = Some r1).
Proof.
  split.
  - intros w0 w1 w2 w3 w4 w5 r1 r2 r3 e1 e2 H1 H2 R2 H3 R3 H4 H5.
    eexists. split.
    + unfold execute, run, enough_fuel, maxRetries.
      change (S (3 * S (length [s1; s2; s3]))) with 13.
      erewrite loop_success; [|reflexivity|reflexivity|exact H1].
      erewrite loop_retriable; [|reflexivity|reflexivity|exact H2|exact R2].
      erewrite loop_retriable; [|reflexivity|reflexivity|exact H3|exact R3].
      erewrite loop_success; [|reflexivity|reflexivity|exact H4].
      erewrite loop_success; [|reflexivity|reflexivity|exact H5].
      rewrite loop_end by reflexivity. reflexivity.
    + split; reflexivity.
  - intros w0 w1 w2 r1 e H1 H2 R2.
    eexists. split.
    + unfold execute, run, enough_fuel, maxRetries.
      change (S (3 * S (length [s1; s2; s3]))) with 13.
      erewrite loop_success; [|reflexivity|reflexivity|exact H1].
      erewrite loop_fatal; [|reflexivity|reflexivity|exact H2|exact R2].
      reflexivity.
    + split; [reflexivity|]. split; [reflexivity|].
      cbn [outcome_of out_results context results after_fatal failed_context
           after_success currentStep new_context].
      apply lookup_insert_eq.
Qed.

End EngineProperties.

(** *** Runs on the store *)

(** Both runs of C3 on the store: [three_steps] with two timeouts at the
    second step, and the steps with an invoice for an unknown user. *)
Lemma three_steps_on_the_store :
  (exists out,
     Workflow.WorkflowEngine_execute plain_calendar 1000%Z 1 three_steps two_timeouts
     = Some out /\
     completedSteps out = 3 /\ success out = true) /\
  (exists out,
     Workflow.WorkflowEngine_execute plain_calendar 1000%Z 1 three_steps_unknown_user
       (Workflow.mkEnv two_users [])
     = Some out /\
     completedSteps out = 1 /\ success out = false /\
     out_results out !! step_key 0
     = Some (Workflow.ExpenseLogged 3 "transport fuel" 450 "Transport" 1000%Z)).
Proof.
  split.
  - unfold Workflow.WorkflowEngine_execute, three_steps.
    eapply (proj1 (three_steps_retry_or_stop
                     (Workflow.executeStep_in plain_calendar 1000%Z) 1
                     fuel_expense (abc_invoice 1) fuel_expense));
      vm_compute; reflexivity.
  - unfold Workflow.WorkflowEngine_execute, three_steps_unknown_user.
    eapply (proj2 (three_steps_retry_or_stop
                     (Workflow.executeStep_in plain_calendar 1000%Z) 1
                     fuel_expense (abc_invoice 9) fuel_expense));
      vm_compute; reflexivity.
Defined.

(** C7 as stated fails where a step is retried: in the run of
    [three_steps] with two timeouts the second step ends with a result and
    with the message of its last failed attempt. *)
Lemma retried_step_has_result_and_error :
  exists out,
    Workflow.WorkflowEngine_execute plain_calendar 1000%Z 1 three_steps two_timeouts
    = Some out /\
    success out = true /\
    is_Some (out_results out !! step_key 1) /\
    out_errors out !! step_key 1 = Some "Connection timeout" /\
    ~ result_xor_error out 1.
Proof.
  eexists. split; [vm_compute; reflexivity|].
  split; [reflexivity|]. split; [vm_compute; eauto|]. split; [vm_compute; reflexivity|].
  intros [[_ H]|[H _]]; vm_compute in H; discriminate H.
Qed.

(** ** The events of a run *)

Lemma snoc_eq_middle {A} (past before after : list A) (x y : A) :
  (past ++ [x] = before ++ y :: after)%list ->
  (after = [] /\ past = before /\ x = y) \/
  (exists after', after = (after' ++ [x])%list /\ past = (before ++ y :: after')%list).
Proof.
  destruct after as [|z after _] using rev_ind; intros H.
  - left. apply app_inj_tail in H as [-> ->]. done.
  - right. exists after. rewrite app_comm_cons, app_assoc in H.
    apply app_inj_tail in H as [-> ->]. done.
Qed.

Lemma attempts_in_snoc {Result} (evs : list (Event Result)) (ev : Event Result) i :
  attempts_in i (evs ++ [ev])
  = attempts_in i evs +
    match ev with Attempted j _ => if Nat.eq_dec j i then 1 else 0 | Waited _ => 0 end.
Proof.
  unfold attempts_in, attempted. rewrite omap_app, count_occ_app.
  destruct ev as [j o|ms]; simpl; [|reflexivity].
  destruct (Nat.eq_dec j i); reflexivity.
Qed.

Lemma results_of_snoc {Result} (evs : list (Event Result)) (ev : Event Result) i :
  results_of i (evs ++ [ev])
  = (results_of i evs ++ match result_of i ev with Some r => [r] | None => [] end)%list.
Proof.
  unfold results_of. rewrite omap_app. simpl. destruct (result_of i ev); reflexivity.
Qed.

Lemma failures_of_snoc {Result} (evs : list (Event Result)) (ev : Event Result) i :
  failures_of i (evs ++ [ev])
  = (failures_of i evs ++ match failure_of i ev with Some e => [e] | None => [] end)%list.
Proof.
  unfold failures_of. rewrite omap_app. simpl. destruct (failure_of i ev); reflexivity.
Qed.

Section HistoryProperties.
Context {World Step Result : Type}.
Variable executeStep : Step -> World -> Exc Result * World.
Local Open Scope list_scope.

Local Abbreviation State := (LoopState World Step Result).

Lemma events_end fuel (st : State) :
  loop_guard st = false -> events executeStep fuel st = [].
Proof. intros H. destruct fuel; simpl; rewrite H; reflexivity. Qed.

Lemma events_success fuel (st : State) step result w :
  loop_guard st = true ->
  steps (context st) !! currentStep (context st) = Some step ->
  executeStep step (world st) = (Ok result, w) ->
  events executeStep (S fuel) st
  = Attempted (currentStep (context st)) (Ok result)
    :: events executeStep fuel (after_success st result w).
Proof.
  intros Hg Hs He. simpl. rewrite Hg, Hs. unfold pass_events, loop_body. rewrite He.
  cbn [fst delays]. rewrite drop_all. reflexivity.
Qed.

Lemma events_retriable fuel (st : State) step error w :
  loop_guard st = true ->
  steps (context st) !! currentStep (context st) = Some step ->
  executeStep step (world st) = (Throw error, w) ->
  isRetriableError error = true ->
  events executeStep (S fuel) st
  = Attempted (currentStep (context st)) (Throw error)
    :: Waited (1000 * Z.of_nat (S (retryCount st)))
    :: events executeStep fuel (after_retriable st error w).
Proof.
  intros Hg Hs He Hr. simpl. rewrite Hg, Hs. unfold pass_events, loop_body.
  rewrite He, Hr. cbn [fst delays]. rewrite drop_app_length. reflexivity.
Qed.

Lemma events_fatal fuel (st : State) step error w :
  loop_guard st = true ->
  steps (context st) !! currentStep (context st) = Some step ->
  executeStep step (world st) = (Throw error, w) ->
  isRetriableError error = false ->
  events executeStep (S fuel) st = [Attempted (currentStep (context st)) (Throw error)].
Proof.
  intros Hg Hs He Hr. simpl. rewrite Hg, Hs. unfold pass_events, loop_body.
  rewrite He, Hr. cbn [fst delays]. rewrite drop_all. reflexivity.
Qed.

(** *** Appending an event *)

Lemma waits_after_attempt (past : list (Event Result)) i outcome :
  waits_follow_failures past ->
  (forall before ms, past = (before ++ [Waited ms])%list ->
     exists earlier e,
       before = (earlier ++ [Attempted i (Throw e)])%list /\ attempts_in i earlier <= 1) ->
  waits_follow_failures (past ++ [Attempted i outcome]).
Proof.
  intros Hw Hlast before ms after H.
  apply snoc_eq_middle in H as [(_ & _ & H)|(after' & -> & ->)]; [discriminate|].
  destruct (Hw before ms after' eq_refl) as (earlier & j & e & Hb & He & Hms & Hk & Hafter).
  exists earlier, j, e. split; [exact Hb|]. split; [exact He|]. split; [exact Hms|].
  split; [exact Hk|]. right.
  destruct Hafter as [->|(o & later & -> & Hk1)].
  - destruct (Hlast before ms eq_refl) as (earlier' & e' & Hb' & Hk1).
    rewrite Hb in Hb'. apply app_inj_tail in Hb' as [<- [= <- <-]].
    exists outcome, []. done.
  - exists o, (later ++ [Attempted i outcome])%list. done.
Qed.

Lemma waits_after_wait (past : list (Event Result)) i e :
  waits_follow_failures (past ++ [Attempted i (Throw e)]) ->
  isRetriableError e = true ->
  attempts_in i past <= 2 ->
  waits_follow_failures
    ((past ++ [Attempted i (Throw e)]) ++ [Waited (1000 * Z.of_nat (S (attempts_in i past)))]).
Proof.
  intros Hw He Hk before ms after H.
  apply snoc_eq_middle in H as [(-> & <- & [= <-])|(after' & -> & H)].
  - exists past, i, e. repeat split; try done. by left.
  - destruct (Hw before ms after' H) as (earlier & j & e' & Hb & He' & Hms & Hk' & Hafter).
    exists earlier, j, e'. split; [exact Hb|]. split; [exact He'|]. split; [exact Hms|].
    split; [exact Hk'|]. right.
    destruct Hafter as [->|(o & later & -> & Hk1)].
    + apply app_inj_tail in H as [_ [=]].
    + exists o, (later ++ [Waited (1000 * Z.of_nat (S (attempts_in i past)))])%list. done.
Qed.

Lemma failures_after_attempt (past : list (Event Result)) i outcome :
  failures_are_waited_for past ->
  (forall e, outcome = Throw e -> isRetriableError e = false) ->
  failures_are_waited_for (past ++ [Attempted i outcome]).
Proof.
  intros Hf Hfatal before j e after H He.
  apply snoc_eq_middle in H as [(_ & _ & [= -> ->])|(after' & -> & ->)].
  - rewrite (Hfatal e eq_refl) in He. discriminate.
  - destruct (Hf before j e after' eq_refl He) as (ms & later & ->).
    exists ms, (later ++ [Attempted i outcome])%list. done.
Qed.

Lemma failures_after_wait (past : list (Event Result)) i e ms :
  failures_are_waited_for past ->
  failures_are_waited_for ((past ++ [Attempted i (Throw e)]) ++ [Waited ms]).
Proof.
  intros Hf before j e' after H He.
  apply snoc_eq_middle in H as [(_ & _ & [=])|(after' & -> & H)].
  apply snoc_eq_middle in H as [(-> & _ & _)|(after'' & -> & ->)].
  - exists ms, []. done.
  - destruct (Hf before j e' after'' eq_refl He) as (ms' & later & ->).
    exists ms', ((later ++ [Attempted i (Throw e)]) ++ [Waited ms])%list.
    by rewrite <- !app_assoc.
Qed.

Lemma told_count (past : list (Event Result)) (st : State) i :
  told past st -> attempts_in i past = attempts_of st i.
Proof. intros H. unfold attempts_in, attempts_of. by rewrite (told_attempts _ _ H). Qed.

Lemma told_at_start userId (workflow : list Step) (w : World) :
  told [] (mkLoopState (new_context userId workflow) 0 w [] [] : State).
Proof.
  split; simpl; try done.
  - intros i. lia.
  - intros before ms after H. by destruct before.
  - intros before i e after H. by destruct before.
  - intros before ms H. by destruct before.
  - intros i. unfold attempts_in. simpl. lia.
Qed.

Lemma told_after_success (past : list (Event Result)) (st : State) result w :
  loop_guard st = true -> attempts_follow_cursor st -> told past st ->
  told (past ++ [Attempted (currentStep (context st)) (Ok result)])
       (after_success st result w).
Proof.
  intros Hg Hatt Ht. apply loop_guard_true in Hg as [Hcur Hretry].
  pose proof (told_count past st (currentStep (context st)) Ht) as Hcount.
  rewrite (attempts_at_cursor _ Hatt) in Hcount.
  destruct Ht as [Ha Hd Hres Honce Hopen Herr Hw Hf Hlast Hrange Hbeyond].
  split; cbn [after_success context attempts delays currentStep results errors
              steps retryCount].
  - unfold attempted. rewrite omap_app. simpl. by rewrite Ha.
  - unfold waits. rewrite omap_app. simpl. rewrite app_nil_r. exact Hd.
  - intros i. rewrite results_of_snoc. cbn [result_of].
    destruct (Nat.eqb_spec (currentStep (context st)) i) as [<-|Hne].
    + by rewrite lookup_insert_eq, last_snoc.
    + rewrite lookup_insert_ne by (intros H; apply step_key_inj in H; done).
      rewrite app_nil_r. apply Hres.
  - intros i. rewrite results_of_snoc, length_app. cbn [result_of].
    destruct (Nat.eqb_spec (currentStep (context st)) i) as [<-|Hne].
    + rewrite (Hopen _ (Nat.le_refl _)). simpl. lia.
    + simpl. specialize (Honce i). lia.
  - intros i Hi. rewrite results_of_snoc. cbn [result_of].
    destruct (Nat.eqb_spec (currentStep (context st)) i) as [<-|Hne]; [lia|].
    rewrite app_nil_r. apply Hopen. lia.
  - intros i. rewrite failures_of_snoc. cbn [failure_of]. rewrite app_nil_r. apply Herr.
  - apply waits_after_attempt; [exact Hw|].
    intros before ms H. destruct (Hlast before ms H) as (earlier & e & Hb & Hk).
    exists earlier, e. split; [exact Hb|]. unfold maxRetries in Hretry. lia.
  - apply failures_after_attempt; [exact Hf|]. intros e [=].
  - intros before ms H. apply app_inj_tail in H as [_ [=]].
  - intros i. rewrite attempts_in_snoc.
    destruct (Nat.eq_dec (currentStep (context st)) i) as [<-|Hne]; [done|].
    intros Hi. apply Hrange. lia.
  - intros i Hi. rewrite attempts_in_snoc.
    destruct (Nat.eq_dec (currentStep (context st)) i) as [<-|Hne]; [lia|].
    rewrite Hbeyond by lia. reflexivity.
Qed.

Lemma errors_after_failure (past : list (Event Result))
    (errors : gmap string string) error i :
  (forall j, errors !! step_key j = errorMessage <$> last (failures_of j past)) ->
  forall j, <[step_key i := errorMessage error]> errors !! step_key j
            = errorMessage <$> last (failures_of j (past ++ [Attempted i (Throw error)])).
Proof.
  intros Herr j. rewrite failures_of_snoc. cbn [failure_of].
  destruct (Nat.eqb_spec i j) as [<-|Hne].
  - by rewrite lookup_insert_eq, last_snoc.
  - rewrite lookup_insert_ne by (intros H; apply step_key_inj in H; done).
    rewrite app_nil_r. apply Herr.
Qed.

Lemma told_after_retriable (past : list (Event Result)) (st : State) error w :
  loop_guard st = true -> attempts_follow_cursor st -> told past st ->
  isRetriableError error = true ->
  told ((past ++ [Attempted (currentStep (context st)) (Throw error)])
        ++ [Waited (1000 * Z.of_nat (S (retryCount st)))])
       (after_retriable st error w).
Proof.
  intros Hg Hatt Ht Hr. apply loop_guard_true in Hg as [Hcur Hretry].
  pose proof (told_count past st (currentStep (context st)) Ht) as Hcount.
  rewrite (attempts_at_cursor _ Hatt) in Hcount.
  destruct Ht as [Ha Hd Hres Honce Hopen Herr Hw Hf Hlast Hrange Hbeyond].
  assert (Hw1 : waits_follow_failures
                  (past ++ [Attempted (currentStep (context st)) (Throw error)])).
  { apply waits_after_attempt; [exact Hw|].
    intros before ms H. destruct (Hlast before ms H) as (earlier & e & Hb & Hk).
    exists earlier, e. split; [exact Hb|]. unfold maxRetries in Hretry. lia. }
  split; cbn [after_retriable failed_context context attempts delays currentStep
              results errors steps retryCount].
  - unfold attempted. rewrite !omap_app. simpl. rewrite app_nil_r. by rewrite Ha.
  - unfold waits. rewrite !omap_app. simpl. rewrite app_nil_r. by rewrite Hd.
  - intros i. rewrite !results_of_snoc. cbn [result_of]. rewrite !app_nil_r. apply Hres.
  - intros i. rewrite !results_of_snoc. cbn [result_of]. rewrite !app_nil_r. apply Honce.
  - intros i Hi. rewrite !results_of_snoc. cbn [result_of]. rewrite !app_nil_r.
    by apply Hopen.
  - intros i. rewrite failures_of_snoc. cbn [failure_of]. rewrite app_nil_r.
    by apply errors_after_failure.
  - rewrite <- Hcount. apply waits_after_wait; [exact Hw1|exact Hr|].
    rewrite Hcount. unfold maxRetries in Hretry. lia.
  - by apply failures_after_wait.
  - intros before ms H. apply app_inj_tail in H as [<- _].
    exists past, error. split; [reflexivity|]. by rewrite Hcount.
  - intros i. rewrite !attempts_in_snoc. rewrite Nat.add_0_r.
    destruct (Nat.eq_dec (currentStep (context st)) i) as [<-|Hne]; [done|].
    intros Hi. apply Hrange. lia.
  - intros i Hi. rewrite !attempts_in_snoc. rewrite Nat.add_0_r.
    destruct (Nat.eq_dec (currentStep (context st)) i) as [<-|Hne]; [lia|].
    rewrite Hbeyond by lia. reflexivity.
Qed.

Lemma told_after_fatal (past : list (Event Result)) (st : State) error w :
  loop_guard st = true -> attempts_follow_cursor st -> told past st ->
  isRetriableError error = false ->
  told (past ++ [Attempted (currentStep (context st)) (Throw error)])
       (after_fatal st error w).
Proof.
  intros Hg Hatt Ht Hr. apply loop_guard_true in Hg as [Hcur Hretry].
  destruct Ht as [Ha Hd Hres Honce Hopen Herr Hw Hf Hlast Hrange Hbeyond].
  split; cbn [after_fatal failed_context context attempts delays currentStep
              results errors steps retryCount].
  - unfold attempted. rewrite !omap_app. simpl. by rewrite Ha.
  - unfold waits. rewrite !omap_app. simpl. rewrite app_nil_r. by rewrite Hd.
  - intros i. rewrite !results_of_snoc. cbn [result_of]. rewrite !app_nil_r. apply Hres.
  - intros i. rewrite !results_of_snoc. cbn [result_of]. rewrite !app_nil_r. apply Honce.
  - intros i Hi. rewrite !results_of_snoc. cbn [result_of]. rewrite !app_nil_r.
    by apply Hopen.
  - by apply errors_after_failure.
  - apply waits_after_attempt; [exact Hw|].
    intros before ms H. destruct (Hlast before ms H) as (earlier & e & Hb & Hk).
    exists earlier, e. split; [exact Hb|]. unfold maxRetries in Hretry. lia.
  - apply failures_after_attempt; [exact Hf|]. by intros e [= <-].
  - intros before ms H. apply app_inj_tail in H as [_ [=]].
  - intros i. rewrite !attempts_in_snoc.
    destruct (Nat.eq_dec (currentStep (context st)) i) as [<-|Hne]; [done|].
    intros Hi. apply Hrange. lia.
  - intros i Hi. rewrite !attempts_in_snoc.
    destruct (Nat.eq_dec (currentStep (context st)) i) as [<-|Hne]; [lia|].
    rewrite Hbeyond by lia. reflexivity.
Qed.

(** The events of the loop tell its last state: the loop stops at its
    guard, or at an attempt that fails with an error that is not
    retriable. *)
Lemma loop_told fuel (past : list (Event Result)) (st st' : State) :
  told past st -> attempts_follow_cursor st -> retried_so_far past ->
  loop executeStep fuel st = Some st' ->
  told (past ++ events executeStep fuel st) st' /\
  ((loop_guard st' = false /\ retryCount st' <= maxRetries /\
    retried_so_far (past ++ events executeStep fuel st)) \/
   (exists before e,
      past ++ events executeStep fuel st
      = (before ++ [Attempted (currentStep (context st')) (Throw e)])%list /\
      isRetriableError e = false /\ retried_so_far before /\
      currentStep (context st') < length (steps (context st')))).
Proof.
  revert past st. induction fuel as [|fuel IH]; intros past st Ht Hatt Hall Hloop.
  - simpl in Hloop. destruct (loop_guard st) eqn:Hg; [discriminate|].
    injection Hloop as <-. rewrite events_end, app_nil_r by done.
    split; [exact Ht|]. left. split; [exact Hg|]. split; [apply Hatt|exact Hall].
  - destruct (loop_guard st) eqn:Hg.
    2:{ rewrite loop_end in Hloop by done. injection Hloop as <-.
        rewrite events_end, app_nil_r by done.
        split; [exact Ht|]. left. split; [exact Hg|]. split; [apply Hatt|exact Hall]. }
    apply loop_guard_true in Hg as Hg'. destruct Hg' as [Hcur Hretry].
    destruct (lookup_lt_is_Some_2 _ _ Hcur) as [step Hstep].
    destruct (executeStep step (world st)) as [[result|error] w] eqn:He.
    + rewrite (loop_success _ fuel st step result w Hg Hstep He) in Hloop.
      rewrite (events_success fuel st step result w Hg Hstep He).
      rewrite (cons_middle _ past), app_assoc.
      apply IH; [by apply told_after_success| by apply attempts_after_success| |exact Hloop].
      intros i e Hin. apply in_app_or in Hin as [Hin|[[=]|[]]]. by apply (Hall i).
    + destruct (isRetriableError error) eqn:Hr.
      * rewrite (loop_retriable _ fuel st step error w Hg Hstep He Hr) in Hloop.
        rewrite (events_retriable fuel st step error w Hg Hstep He Hr).
        rewrite (cons_middle _ past), app_assoc, (cons_middle (Waited _)), app_assoc.
        apply IH; [by apply told_after_retriable| by apply attempts_after_retriable|
                   |exact Hloop].
        intros i e Hin. apply in_app_or in Hin as [Hin|[[=]|[]]].
        apply in_app_or in Hin as [Hin|[[= <- <-]|[]]]; [by apply (Hall i)|exact Hr].
      * rewrite (loop_fatal _ fuel st step error w Hg Hstep He Hr) in Hloop.
        injection Hloop as <-.
        rewrite (events_fatal fuel st step error w Hg Hstep He Hr).
        split; [by apply told_after_fatal|]. right.
        exists past, error. cbn [after_fatal failed_context context currentStep steps].
        done.
Qed.

End HistoryProperties.

Section RunProperties.
Context {World Step Result : Type}.
Variable executeStep : Step -> World -> Exc Result * World.
Local Open Scope list_scope.

Local Abbreviation State := (LoopState World Step Result).

(** The events of a run tell its last state. *)
Lemma run_told userId (workflow : list Step) (w : World) (st : State) :
  run executeStep userId workflow w = Some st ->
  let evs := history executeStep userId workflow w in
  told evs st /\ maps_at_end st /\ steps (context st) = workflow /\
  ((loop_guard st = false /\ retryCount st <= maxRetries /\ retried_so_far evs) \/
   (exists before e,
      evs = (before ++ [Attempted (currentStep (context st)) (Throw e)])%list /\
      isRetriableError e = false /\ retried_so_far before /\
      currentStep (context st) < length workflow)).
Proof.
  intros Hrun evs.
  pose proof (loop_same_steps _ _ _ _ Hrun) as Hsteps. simpl in Hsteps.
  assert (Hatt : attempts_follow_cursor
                   (mkLoopState (new_context userId workflow) 0 w [] [] : State)).
  { split; unfold attempts_of; simpl; intros; unfold maxRetries; lia. }
  assert (Hall : retried_so_far ([] : list (Event Result))) by (intros i e []).
  destruct (loop_told executeStep _ [] _ st (told_at_start userId workflow w) Hatt Hall Hrun)
    as [Ht Hend].
  rewrite Hsteps in Hend.
  split; [exact Ht|]. split; [|split; [exact Hsteps|exact Hend]].
  apply (loop_maps _ _ _ _ (follow_at_start userId workflow w) Hrun).
Qed.

(** C7, corrected.  Every run ends.  In its outcome a step below
    [completedSteps] has a result; when a step is left, the step at
    [completedSteps] has an error message and no result; the steps after it
    have neither.  The result of a step is the one its attempt returned,
    and no step returns twice; the error message of a step is the message
    of its last failed attempt, whether the step completed at a later
    attempt or not, and a step without a failed attempt has none.
    [success] holds exactly when every step completed. *)
Theorem outcome_per_step (userId : Id) (workflow : list Step) (w : World) :
  exists out,
    execute executeStep userId workflow w = Some out /\
    completedSteps out <= length workflow /\
    (success out = true <-> completedSteps out = length workflow) /\
    (forall i, i < completedSteps out -> is_Some (out_results out !! step_key i)) /\
    (forall i, completedSteps out <= i -> out_results out !! step_key i = None) /\
    (completedSteps out < length workflow ->
     is_Some (out_errors out !! step_key (completedSteps out))) /\
    (forall i, completedSteps out < i -> out_errors out !! step_key i = None) /\
    (forall i, out_results out !! step_key i
               = last (results_of i (history executeStep userId workflow w))) /\
    (forall i, length (results_of i (history executeStep userId workflow w)) <= 1) /\
    (forall i, out_errors out !! step_key i
               = errorMessage <$> last (failures_of i (history executeStep userId workflow w))).
Proof.
  destruct (run_total executeStep userId workflow w) as [st Hrun].
  exists (outcome_of st). unfold execute. rewrite Hrun. split; [reflexivity|].
  destruct (run_told userId workflow w st Hrun) as (Ht & [Hr Hres Herr Hbeyond] & Hsteps & _).
  rewrite Hsteps in *. simpl. rewrite Hsteps.
  split; [exact Hr|]. split; [apply Nat.eqb_eq|].
  split; [intros i Hi; by apply Hres|].
  split.
  { intros i Hi. destruct (results (context st) !! step_key i) eqn:E; [|done].
    assert (i < currentStep (context st)) by (apply Hres; eauto). lia. }
  split; [exact Herr|]. split; [exact Hbeyond|].
  split; [apply (told_results _ _ Ht)|].
  split; [apply (told_once _ _ Ht)|apply (told_errors _ _ Ht)].
Qed.

(** C4: every failed attempt with a retriable error is followed by a
    delay, and every delay follows such an attempt.  The delay before the
    first retry of a step is of 1000 ms and the one before its second
    retry of 2000 ms: [500 * 2 ^ k] ms before retry [k], which is
    [1000 * 2 ^ (k - 1)].  No step is attempted more than 3 times; the
    delay after a third failed attempt is of 3000 ms and nothing follows
    it.  A step attempted 3 times without a result is where the run
    stops: it is [completedSteps], the run does not succeed, the step has
    an error message and no result, and no later step is attempted. *)
Theorem backoff_doubles (userId : Id) (workflow : list Step) (w : World) :
  let evs := history executeStep userId workflow w in
  exists out,
    execute executeStep userId workflow w = Some out /\
    (forall before i e after,
       evs = (before ++ Attempted i (Throw e) :: after)%list ->
       isRetriableError e = true ->
       exists ms later, after = Waited ms :: later) /\
    (forall before ms after,
       evs = (before ++ Waited ms :: after)%list ->
       exists earlier i e,
         before = (earlier ++ [Attempted i (Throw e)])%list /\
         isRetriableError e = true /\
         ((exists outcome later (k : nat),
             after = Attempted i outcome :: later /\
             k = S (attempts_in i earlier) /\ k <= 2 /\
             ms = (500 * 2 ^ Z.of_nat k)%Z /\
             ms = (1000 * 2 ^ Z.of_nat (k - 1))%Z) \/
          (after = [] /\ attempts_in i earlier = 2 /\ ms = 3000%Z /\
           completedSteps out = i))) /\
    (forall i, attempts_in i evs <= 3) /\
    (forall i,
       attempts_in i evs = 3 -> results_of i evs = [] ->
       completedSteps out = i /\ i < length workflow /\ success out = false /\
       out_results out !! step_key i = None /\
       is_Some (out_errors out !! step_key i) /\
       forall j, i < j -> attempts_in j evs = 0).
Proof.
  intros evs.
  destruct (run_total executeStep userId workflow w) as [st Hrun].
  exists (outcome_of st). unfold execute. rewrite Hrun. split; [reflexivity|].
  destruct (run_told userId workflow w st Hrun)
    as (Ht & [Hr Hres Herr Hbeyond] & Hsteps & Hend).
  fold evs in Ht, Hend. rewrite Hsteps in *.
  split; [exact (told_failures _ _ Ht)|]. split; [|split].
  - intros before ms after Hevs.
    destruct (told_waits _ _ Ht before ms after Hevs)
      as (earlier & i & e & Hb & He & Hms & Hk & Hafter).
    exists earlier, i, e. split; [exact Hb|]. split; [exact He|].
    destruct Hafter as [->|(outcome & later & -> & Hk1)].
    + right.
      destruct (told_last_wait _ _ Ht before ms Hevs) as (earlier' & e' & Hb' & Hcount).
      rewrite Hb in Hb'. apply app_inj_tail in Hb' as [<- [= Hi <-]].
      assert (Hin : 0 < attempts_in i evs).
      { rewrite Hevs, Hb, !attempts_in_snoc. destruct (Nat.eq_dec i i); [lia|done]. }
      apply (told_in_range _ _ Ht) in Hin. rewrite Hsteps in Hin.
      destruct Hend as [(Hg & Hretry & _)|(before' & e' & Hlast & _)].
      * assert (Hrc : retryCount st = 3).
        { destruct (Nat.ltb_spec (retryCount st) maxRetries) as [Hlt|Hge].
          - assert (loop_guard st = true).
            { apply loop_guard_true. rewrite Hsteps, <- Hi. done. }
            congruence.
          - unfold maxRetries in *. lia. }
        rewrite <- Hi in Hcount.
        assert (Hk2 : attempts_in i earlier = 2) by lia.
        split; [reflexivity|]. split; [exact Hk2|]. split; [|simpl; congruence].
        rewrite Hms, Hk2. reflexivity.
      * rewrite Hevs in Hlast. apply app_inj_tail in Hlast as [_ [=]].
    + left. exists outcome, later, (S (attempts_in i earlier)).
      split; [reflexivity|]. split; [reflexivity|]. split; [lia|].
      rewrite Hms.
      destruct (attempts_in i earlier) as [|[|n]]; [split; reflexivity|split; reflexivity|lia].
  - intros i. rewrite (told_count _ _ i Ht).
    apply (at_most_three_attempts executeStep userId workflow w st Hrun).
  - intros i H3 Hnone.
    assert (Hle : i <= currentStep (context st)).
    { destruct (Nat.le_gt_cases i (currentStep (context st))) as [H|H]; [exact H|].
      rewrite (told_beyond _ _ Ht i H) in H3. discriminate. }
    assert (Hge : currentStep (context st) <= i).
    { destruct (Nat.le_gt_cases (currentStep (context st)) i) as [H|H]; [exact H|].
      apply Hres in H as [r H]. rewrite (told_results _ _ Ht), Hnone in H. discriminate. }
    assert (Hi : currentStep (context st) = i) by lia.
    assert (Hin : i < length workflow).
    { rewrite <- Hsteps. apply (told_in_range _ _ Ht). lia. }
    simpl. rewrite Hsteps. split; [exact Hi|]. split; [exact Hin|].
    split; [apply Nat.eqb_neq; lia|].
    split; [by rewrite (told_results _ _ Ht), Hnone|].
    split; [rewrite <- Hi; apply Herr; lia|].
    intros j Hj. apply (told_beyond _ _ Ht). lia.
Qed.

End RunProperties.

(** The run of [three_steps] with two timeouts waits 1000 ms and then
    2000 ms between the three attempts of the second step; a step that
    never gets through is attempted 3 times, with 1000, 2000 and 3000 ms
    after its attempts. *)
Lemma timeouts_are_waited_for :
  (attempted (history (Workflow.executeStep_in plain_calendar 1000%Z) 1
                three_steps two_timeouts) = [0; 1; 1; 1; 2] /\
   waits (history (Workflow.executeStep_in plain_calendar 1000%Z) 1
            three_steps two_timeouts) = [1000; 2000]%Z) /\
  (attempted (history (Workflow.executeStep_in plain_calendar 1000%Z) 1
                [fuel_expense] five_timeouts) = [0; 0; 0] /\
   waits (history (Workflow.executeStep_in plain_calendar 1000%Z) 1
            [fuel_expense] five_timeouts) = [1000; 2000; 3000]%Z) /\
  exists out,
    Workflow.WorkflowEngine_execute plain_calendar 1000%Z 1 [fuel_expense] five_timeouts
    = Some out /\
    completedSteps out = 0 /\ success out = false /\
    out_results out !! step_key 0 = None /\
    is_Some (out_errors out !! step_key 0).
Proof.
  split; [split; vm_compute; reflexivity|].
  split; [split; vm_compute; reflexivity|].
  destruct (backoff_doubles (Workflow.executeStep_in plain_calendar 1000%Z) 1
              [fuel_expense] five_timeouts) as (out & Hout & _ & _ & _ & Hstop).
  destruct (Hstop 0) as (Hc & _ & Hs & Hr & He & _);
    [vm_compute; reflexivity|vm_compute; reflexivity|].
  exists out. done.
Defined.

(** A workflow with a report stops at the report: the step throws, the
    error is not retriable, and the message is recorded. *)
Lemma report_step_stops_the_workflow :
  exists out,
    Workflow.WorkflowEngine_execute plain_calendar 1000%Z 1
      [fuel_expense;
       Workflow.generate_report 1 Workflow.month Workflow.financial_summary]
      (Workflow.mkEnv two_users [])
    = Some out /\
    completedSteps out = 1 /\
    success out = false /\
    out_errors out !! step_key 1
    = Some "Cannot access 'expenses' before initialization".
Proof.
  eexists. split; [vm_compute; reflexivity|].
  split; [reflexivity|]. split; [reflexivity|]. vm_compute. reflexivity.
Qed.

(** ** Creating an invoice, step by step *)

Lemma createInvoice_try_eq cal now userId params db :
  AIService.createInvoice_try cal now userId params db =
  match AIService.CreateInvoiceSchema params with
  | Throw e => (Throw e, db)
  | Ok v =>
      match limit1 (select_users userId db) with
      | [] => (Throw user_not_found, db)
      | _ :: _ =>
          let '(client, dbc) := resolve_client userId (AIService.clientName v) db in
          let number := invoiceNumber_after (length (select_invoices_of userId db)) in
          if number_taken number db
          then (Throw (ErrorObj DriverError unique_violation), dbc)
          else
            let amounts :=
              calculateAmounts vatRate (AIService.vatIncluded v) (AIService.amount v) in
            let inv :=
              new_invoice userId (client_id client) number (AIService.vatIncluded v)
                          (addDays cal now (AIService.dueInDays v)) dbc in
            if fits_decimal_12_2 (subtotal amounts)
            then
              (Ok (AIService.Created inv client
                     (mkAmounts (Number_toFixed 2 (subtotal amounts))
                                (Number_toFixed 2 (vatAmount amounts))
                                (Number_toFixed 2 (total amounts)))
                     ("✅ Invoice " +:+ number +:+ " created for " +:+
                      AIService.clientName v +:+ " - R" +:+ toFixed 2 (total amounts))),
               with_invoice inv (AIService.description v) (cents (subtotal amounts)) dbc)
            else (Throw overflow, with_invoice_row inv dbc)
      end
  end.
Proof.
  unfold AIService.createInvoice_try, bind, lift, query, ret, throw.
  destruct (AIService.CreateInvoiceSchema params) as [v|e]; [|reflexivity].
  destruct (limit1 (select_users userId db)) as [|u us]; [reflexivity|].
  cbn [length Nat.eqb]. unfold resolve_client.
  destruct (limit1 (select_clients userId (AIService.clientName v) db)) as [|c cs] eqn:Ec.
  - cbn [length Nat.eqb insert_client first_row ret].
    unfold insert_invoice, number_taken, select_invoices_of. cbn [invoices nextId].
    destruct (existsb _ (invoices db)); [reflexivity|].
    unfold insert_invoiceItem, decimal_12_2.
    destruct (fits_decimal_12_2 _); reflexivity.
  - cbn [length Nat.eqb first_row ret].
    unfold insert_invoice, number_taken, select_invoices_of.
    destruct (existsb _ (invoices db)); [reflexivity|].
    unfold insert_invoiceItem, decimal_12_2.
    destruct (fits_decimal_12_2 _); reflexivity.
Qed.

Lemma resolve_client_keeps userId name db :
  let dbc := snd (resolve_client userId name db) in
  users dbc = users db /\ invoices dbc = invoices db /\
  invoiceItems dbc = invoiceItems db /\ payments dbc = payments db /\
  expenses dbc = expenses db /\ nextId db <= nextId dbc.
Proof.
  unfold resolve_client.
  destruct (limit1 (select_clients userId name db)); simpl; repeat split; lia.
Qed.

(** ** Marking an invoice as paid *)

Lemma filter_none {A} (f : A -> bool) (rows : list A) :
  (forall r, In r rows -> f r = false) -> List.filter f rows = [].
Proof.
  induction rows as [|r rows IH]; intros H; [reflexivity|].
  simpl. rewrite (H r) by (left; reflexivity). apply IH.
  intros r' Hr'. apply H. right. exact Hr'.
Qed.

Lemma select_invoice_of_owner (inv : Invoice) (db : Db) :
  List.NoDup (map inv_id (invoices db)) -> In inv (invoices db) ->
  select_invoice (inv_id inv) (inv_userId inv) db = [inv].
Proof.
  unfold select_invoice. generalize (invoices db) as rows.
  induction rows as [|r rows IH]; intros Hnd Hin; [destruct Hin|].
  simpl in Hnd. apply NoDup_cons_iff in Hnd as [Hr Hnd].
  destruct Hin as [->|Hin].
  - simpl. rewrite !Nat.eqb_refl. simpl. f_equal.
    apply filter_none. intros r Hin.
    destruct (Nat.eqb_spec (inv_id r) (inv_id inv)) as [Heq|]; [|reflexivity].
    exfalso. apply Hr. rewrite <- Heq. apply in_map. exact Hin.
  - simpl.
    destruct (Nat.eqb_spec (inv_id r) (inv_id inv)) as [Heq|]; [|by apply IH].
    exfalso. apply Hr. rewrite Heq. apply in_map. exact Hin.
Qed.

(** A request for an invoice that is not in the store, or not of that
    user, is answered with 404 and changes nothing. *)
Lemma markPaid_not_found (uuid : string -> option Id) (now : Timestamp)
    (invoiceId userId : Id) (body : gmap string JsVal) (text : string) (db : Db) :
  prop body "userId" = JStr text ->
  uuid text = Some userId ->
  select_invoice invoiceId userId db = [] ->
  markPaid uuid now invoiceId body db
  = (mkResponse 404 (ErrorBody "Invoice not found"), db).
Proof.
  intros Hbody Huuid Hnone.
  unfold markPaid, markPaid_try, bind, lift, query, ret, MarkPaidSchema, z_uuid,
    z_string, exc_bind.
  rewrite Hbody, Huuid, Hnone. reflexivity.
Qed.

(** C2: for an invoice that is already PAID, a mark-paid request with the
    identifier of its owner is answered with status 400 and the error
    "Invoice is already paid", and the store stays as it was: no payment
    is added, and the status and [paidAt] of the invoice are untouched.
    The answer is neither the not-found answer (404) nor the answer of a
    successful transition (200). *)
Theorem markPaid_already_paid (uuid : string -> option Id) (now : Timestamp)
    (body : gmap string JsVal) (text : string) (db : Db) (inv : Invoice) :
  prop body "userId" = JStr text ->
  uuid text = Some (inv_userId inv) ->
  List.NoDup (map inv_id (invoices db)) ->
  In inv (invoices db) ->
  inv_status inv = PAID ->
  markPaid uuid now (inv_id inv) body db
  = (mkResponse 400 (ErrorBody "Invoice is already paid"), db) /\
  mkResponse 400 (ErrorBody "Invoice is already paid")
  <> mkResponse 404 (ErrorBody "Invoice not found") /\
  forall amount paidAt,
    mkResponse 400 (ErrorBody "Invoice is already paid")
    <> json (MarkedPaid "Invoice marked as paid" (inv_id inv) PAID amount paidAt).
Proof.
  intros Hbody Huuid Hnd Hin Hpaid. split; [|split; [discriminate|discriminate]].
  unfold markPaid, markPaid_try, bind, lift, query, ret, MarkPaidSchema, z_uuid,
    z_string, exc_bind.
  rewrite Hbody, Huuid, (select_invoice_of_owner inv db Hnd Hin).
  simpl. rewrite Hpaid. reflexivity.
Qed.

(** The second mark-paid request for the invoice of [paid_store]. *)
Lemma second_markPaid_is_refused :
  markPaid demo_uuid 3000%Z (inv_id paid_invoice) owner_body paid_store
  = (mkResponse 400 (ErrorBody "Invoice is already paid"), paid_store) /\
  mkResponse 400 (ErrorBody "Invoice is already paid")
  <> mkResponse 404 (ErrorBody "Invoice not found") /\
  forall amount paidAt,
    mkResponse 400 (ErrorBody "Invoice is already paid")
    <> json (MarkedPaid "Invoice marked as paid" (inv_id paid_invoice) PAID amount paidAt).
Proof.
  apply (markPaid_already_paid demo_uuid 3000%Z owner_body
           "00000000-0000-4000-8000-000000000001" paid_store paid_invoice).
  - vm_compute. reflexivity.
  - vm_compute. reflexivity.
  - vm_compute. repeat constructor. intros [].
  - vm_compute. left. reflexivity.
  - reflexivity.
Defined.













(** ** Invoice numbers are told apart *)

Lemma String_app_cons (c : ascii) (s t : string) :
  String c s +:+ t = String c (s +:+ t).
Proof. reflexivity. Qed.

Lemma pretty_N_go_head (x : N) (s : string) :
  (0 < x)%N -> exists c t, pretty_N_go x s = String c t /\ c <> "0"%char.
Proof.
  revert s. induction (N.lt_wf_0 x) as [x _ IH]. intros s Hx.
  rewrite pretty_N_go_step by done.
  destruct (decide (x < 10)%N) as [Hlt|Hge].
  - rewrite N.div_small by done. rewrite pretty_N_go_0.
    rewrite N.mod_small by done. eexists _, _. split; [reflexivity|].
    assert (x = 1 \/ x = 2 \/ x = 3 \/ x = 4 \/ x = 5 \/ x = 6 \/ x = 7 \/ x = 8 \/ x = 9)%N
      as Hcases by lia.
    destruct Hcases as [->|[->|[->|[->|[->|[->|[->|[->| ->]]]]]]]]; discriminate.
  - apply IH.
    + apply N.div_lt; lia.
    + apply N.div_str_pos. lia.
Qed.

Lemma String_of_nat_head (n : nat) :
  0 < n -> exists c t, String_of_nat n = String c t /\ c <> "0"%char.
Proof.
  intros Hn. unfold String_of_nat, pretty, pretty_nat, pretty, pretty_N.
  destruct (decide (N.of_nat n = 0%N)) as [H0|_]; [lia|].
  apply pretty_N_go_head. lia.
Qed.

Lemma zeros_app_inj (k l : nat) (c c' : ascii) (t t' : string) :
  c <> "0"%char -> c' <> "0"%char ->
  repeat_char k "0" +:+ String c t = repeat_char l "0" +:+ String c' t' ->
  String c t = String c' t'.
Proof.
  intros Hc Hc'. revert l. induction k as [|k IH]; intros [|l] H; simpl in H.
  - exact H.
  - rewrite String_app_cons in H. injection H as -> _. done.
  - rewrite String_app_cons in H. injection H as <- _. done.
  - rewrite !String_app_cons in H. injection H as H. by apply (IH l).
Qed.

Lemma invoiceNumber_after_inj (i j : nat) :
  invoiceNumber_after i = invoiceNumber_after j -> i = j.
Proof.
  unfold invoiceNumber_after, padStart. intros H.
  apply (inj (String.app "INV-")) in H.
  destruct (String_of_nat_head (i + 1)) as (c & t & Hi & Hc); [lia|].
  destruct (String_of_nat_head (j + 1)) as (c' & t' & Hj & Hc'); [lia|].
  rewrite Hi, Hj in H. apply zeros_app_inj in H; [|done|done].
  rewrite <- Hi, <- Hj in H. apply (inj pretty) in H. lia.
Qed.

(** ** Invoice numbers of one user, one creation after the other *)

Lemma executeCreateInvoice_eq cal now userId clientName amount description dueInDays db :
  Workflow.executeCreateInvoice cal now userId clientName amount description dueInDays db =
  match limit1 (select_users userId db) with
  | [] => (Throw user_not_found, db)
  | _ :: _ =>
      let '(client, dbc) := resolve_client userId clientName db in
      let number := invoiceNumber_after (length (select_invoices_of userId db)) in
      if number_taken number db
      then (Throw (ErrorObj DriverError unique_violation), dbc)
      else
        let inv :=
          new_invoice userId (client_id client) number true
                      (addDays cal now dueInDays) dbc in
        if fits_decimal_12_2 (amount / (1 + vatRate))
        then
          (Ok (Workflow.InvoiceCreated (inv_id inv) number clientName amount
                                       (addDays cal now dueInDays)),
           with_invoice inv description (cents (amount / (1 + vatRate))) dbc)
        else (Throw overflow, with_invoice_row inv dbc)
  end.
Proof.
  unfold Workflow.executeCreateInvoice, bind, lift, query, ret, throw.
  destruct (limit1 (select_users userId db)) as [|u us]; [reflexivity|].
  cbn [length Nat.eqb]. unfold resolve_client.
  destruct (limit1 (select_clients userId clientName db)) as [|c cs] eqn:Ec.
  - cbn [length Nat.eqb insert_client first_row ret].
    unfold insert_invoice, number_taken, select_invoices_of. cbn [invoices nextId].
    destruct (existsb _ (invoices db)); [reflexivity|].
    unfold insert_invoiceItem, decimal_12_2.
    destruct (fits_decimal_12_2 _); reflexivity.
  - cbn [length Nat.eqb first_row ret].
    unfold insert_invoice, number_taken, select_invoices_of.
    destruct (existsb _ (invoices db)); [reflexivity|].
    unfold insert_invoiceItem, decimal_12_2.
    destruct (fits_decimal_12_2 _); reflexivity.
Qed.

Section Numbering.
Variable userId : Id.

Lemma service_creation_in_turn cal now params v :
  AIService.CreateInvoiceSchema params = Ok v ->
  fits_decimal_12_2
    (subtotal (calculateAmounts vatRate (AIService.vatIncluded v) (AIService.amount v)))
  = true ->
  numbers_in_turn userId (service_creation cal now userId params).
Proof.
  intros Hv Hfits db Huser Hfree.
  unfold service_creation, AIService.createInvoice.
  rewrite createInvoice_try_eq, Hv.
  destruct (limit1 (select_users userId db)) as [|u us] eqn:Eu.
  { destruct (select_users userId db); [done|discriminate]. }
  pose proof (resolve_client_keeps userId (AIService.clientName v) db) as Hkeep.
  destruct (resolve_client userId (AIService.clientName v) db) as [c dbc].
  cbv zeta in *. simpl in Hkeep. destruct Hkeep as (Hu & Hi & _).
  rewrite Hfree, Hfits.
  exists (new_invoice userId (client_id c)
            (invoiceNumber_after (length (select_invoices_of userId db)))
            (AIService.vatIncluded v) (addDays cal now (AIService.dueInDays v)) dbc).
  eexists. split; [reflexivity|].
  cbn [new_invoice with_invoice inv_invoiceNumber inv_userId users invoices].
  rewrite Hu, Hi. repeat split.
Qed.

Lemma step_creation_in_turn cal now clientName amount description dueInDays :
  fits_decimal_12_2 (amount / (1 + vatRate)) = true ->
  numbers_in_turn userId
    (step_creation cal now userId clientName amount description dueInDays).
Proof.
  intros Hfits db Huser Hfree.
  unfold step_creation. rewrite executeCreateInvoice_eq.
  destruct (limit1 (select_users userId db)) as [|u us] eqn:Eu.
  { destruct (select_users userId db); [done|discriminate]. }
  pose proof (resolve_client_keeps userId clientName db) as Hkeep.
  destruct (resolve_client userId clientName db) as [c dbc].
  cbv zeta in *. simpl in Hkeep. destruct Hkeep as (Hu & Hi & _).
  rewrite Hfree, Hfits.
  exists (new_invoice userId (client_id c)
            (invoiceNumber_after (length (select_invoices_of userId db)))
            true (addDays cal now dueInDays) dbc).
  eexists. split; [reflexivity|].
  cbn [new_invoice with_invoice inv_invoiceNumber inv_userId users invoices].
  rewrite Hu, Hi. repeat split.
Qed.

Lemma number_taken_app number db db1 inv :
  invoices db1 = (invoices db ++ [inv])%list ->
  number_taken number db1
  = number_taken number db || String.eqb (inv_invoiceNumber inv) number.
Proof.
  intros H. unfold number_taken. rewrite H, existsb_app. simpl.
  by rewrite orb_false_r.
Qed.

(** Sequential creations for a user whose coming numbers are free: the
    numbers follow the count of the user's invoices, one by one. *)
Lemma numbers_follow_the_count (creations : list Creation) (db : Db) :
  Forall (numbers_in_turn userId) creations ->
  select_users userId db <> [] ->
  (forall k, length (select_invoices_of userId db) <= k ->
             number_taken (invoiceNumber_after k) db = false) ->
  fst (create_in_turn creations db)
  = map nth_number (seq (length (select_invoices_of userId db)) (length creations)).
Proof.
  intros Hall. revert db. induction Hall as [|create rest Hc _ IH]; intros db Hu Hfree.
  - reflexivity.
  - destruct (Hc db Hu (Hfree _ (Nat.le_refl _))) as (inv & db1 & Hrun & Hn & Hown & Hus & Hinvs).
    cbn [create_in_turn]. rewrite Hrun.
    assert (Hcount : select_invoices_of userId db1
                     = (select_invoices_of userId db ++ [inv])%list).
    { unfold select_invoices_of. rewrite Hinvs, List.filter_app. simpl.
      rewrite Hown, Nat.eqb_refl. reflexivity. }
    specialize (IH db1).
    destruct (create_in_turn rest db1) as [numbers db2]. simpl in IH |- *.
    f_equal. rewrite IH.
    + rewrite Hcount, length_app. simpl. by rewrite Nat.add_1_r.
    + unfold select_users in *. by rewrite Hus.
    + intros k Hk. rewrite Hcount, length_app in Hk. simpl in Hk.
      rewrite (number_taken_app _ db db1 inv Hinvs), (Hfree k) by lia.
      simpl. rewrite Hn. apply String.eqb_neq. intros Heq.
      apply invoiceNumber_after_inj in Heq. lia.
Qed.

End Numbering.

(** For a user without invoices in a store where no invoice carries a
    number yet, [N] creations through either entry point give INV-0001 up
    to the number of [N], with no gap and no repeat. *)
Lemma numbers_of_a_first_user (userId : Id) (creations : list Creation) (db : Db) :
  Forall (numbers_in_turn userId) creations ->
  select_users userId db <> [] ->
  invoices db = [] ->
  fst (create_in_turn creations db) = map nth_number (seq 0 (length creations)) /\
  List.NoDup (fst (create_in_turn creations db)).
Proof.
  intros Hall Hu Hnone.
  assert (H : fst (create_in_turn creations db)
              = map nth_number (seq 0 (length creations))).
  { rewrite (numbers_follow_the_count userId creations db Hall Hu).
    - unfold select_invoices_of. rewrite Hnone. reflexivity.
    - intros k _. unfold number_taken. rewrite Hnone. reflexivity. }
  split; [exact H|]. rewrite H.
  apply Finite.Injective_map_NoDup; [|apply List.seq_NoDup].
  intros i j Hij. apply invoiceNumber_after_inj.
  unfold nth_number in Hij. congruence.
Qed.

(** User 1 creates three invoices in [two_users], through the service, the
    workflow step and the service again. *)
Example first_user_numbers :
  fst (create_in_turn
         [service_creation plain_calendar 1000%Z 1 abc_params;
          step_creation plain_calendar 1000%Z 1 "ABC Company" 500 "website design" 30;
          service_creation plain_calendar 1000%Z 1 abc_params]
         two_users)
  = [Some "INV-0001"; Some "INV-0002"; Some "INV-0003"].
Proof. vm_compute. reflexivity. Qed.

(** * Further properties *)

(** ** The workflow engine: order, waiting time and runs without failure *)

Section EngineBounds.
Context {World Step Result : Type}.
Variable executeStep : Step -> World -> Exc Result * World.

Local Abbreviation State := (LoopState World Step Result).

Lemma Sorted_le_snoc (log : list nat) (x : nat) :
  Sorted le log -> (forall y, In y log -> y <= x) -> Sorted le (log ++ [x]).
Proof.
  induction log as [|a log IH]; intros Hs Hle; simpl.
  - repeat constructor.
  - apply Sorted_inv in Hs as [Hs Hhd]. constructor.
    + apply IH; [exact Hs|]. intros y Hy. apply Hle. right. exact Hy.
    + destruct log as [|b log]; simpl.
      * constructor. apply Hle. left. reflexivity.
      * constructor. by apply HdRel_inv in Hhd.
Qed.

Lemma order_after_pass (st : State) (cur : nat) :
  currentStep (context st) <= cur ->
  attempts_in_order st ->
  Sorted le (attempts st ++ [currentStep (context st)]) /\
  forall i, In i (attempts st ++ [currentStep (context st)]) -> i <= cur.
Proof.
  intros Hle [Hs Hup Hdone]. split.
  - by apply Sorted_le_snoc.
  - intros i Hi. apply in_app_or in Hi as [Hi|[<-|[]]]; [|done].
    apply Hup in Hi. lia.
Qed.

Lemma order_after_success (st : State) result w :
  attempts_in_order st -> attempts_in_order (after_success st result w).
Proof.
  intros Hinv.
  destruct (order_after_pass st (S (currentStep (context st)))) as [Hs Hup];
    [lia|exact Hinv|].
  destruct Hinv as [_ _ Hdone]. split; [exact Hs|exact Hup|].
  unfold attempts_of in *. simpl. intros i Hi. rewrite count_occ_snoc.
  destruct (Nat.eq_dec (currentStep (context st)) i) as [<-|Hne]; [lia|].
  assert (Hlt : i < currentStep (context st)) by lia.
  specialize (Hdone i Hlt). lia.
Qed.

Lemma order_after_failure (st : State) error r w ds :
  attempts_in_order st ->
  attempts_in_order
    (mkLoopState (failed_context st error) r w
                 (attempts st ++ [currentStep (context st)]) ds : State).
Proof.
  intros Hinv.
  destruct (order_after_pass st (currentStep (context st))) as [Hs Hup];
    [lia|exact Hinv|].
  destruct Hinv as [_ _ Hdone]. split; [exact Hs|exact Hup|].
  unfold attempts_of in *. simpl. intros i Hi. rewrite count_occ_snoc.
  specialize (Hdone i Hi). lia.
Qed.

Lemma loop_order fuel (st st' : State) :
  attempts_follow_cursor st -> attempts_in_order st ->
  loop executeStep fuel st = Some st' ->
  attempts_in_order st' /\
  (currentStep (context st') < length (steps (context st')) ->
   1 <= attempts_of st' (currentStep (context st'))).
Proof.
  assert (Hend : forall s : State,
            loop_guard s = false -> attempts_follow_cursor s ->
            currentStep (context s) < length (steps (context s)) ->
            1 <= attempts_of s (currentStep (context s))).
  { intros s Hg [Hr Hat _ _] Hcur. rewrite Hat.
    destruct (Nat.ltb_spec (retryCount s) maxRetries) as [Hlt|Hge].
    - assert (loop_guard s = true) by (apply loop_guard_true; done). congruence.
    - unfold maxRetries in Hge. lia. }
  revert st. induction fuel as [|fuel IH]; intros st Hcount Hinv Hloop.
  - simpl in Hloop. destruct (loop_guard st) eqn:Hg; [discriminate|].
    injection Hloop as <-. split; [exact Hinv|]. by apply Hend.
  - destruct (loop_guard st) eqn:Hg.
    + apply loop_guard_true in Hg as Hg'. destruct Hg' as [Hcur Hretry].
      destruct (lookup_lt_is_Some_2 _ _ Hcur) as [step Hstep].
      simpl in Hloop. rewrite Hg, Hstep in Hloop. unfold loop_body in Hloop.
      destruct (executeStep step (world st)) as [[result|error] w].
      * exact (IH _ (attempts_after_success st result w Hretry Hcount)
                 (order_after_success st result w Hinv) Hloop).
      * destruct (isRetriableError error).
        -- exact (IH _ (attempts_after_retriable st error w Hretry Hcount)
                    (order_after_failure st error _ w _ Hinv) Hloop).
        -- injection Hloop as <-. split.
           ++ exact (order_after_failure st error _ w _ Hinv).
           ++ intros _. unfold attempts_of. simpl. rewrite count_occ_snoc.
              destruct (Nat.eq_dec _ _); [lia|done].
    + rewrite loop_end in Hloop by done. injection Hloop as <-.
      split; [exact Hinv|]. by apply Hend.
Qed.

(** X1: Every run ends, and it takes the steps in order without skipping
    one: the attempts are logged in non-decreasing order of the steps,
    every completed step was attempted once, twice or three times, so was
    the step at which a failed run stopped, and no step after it was
    attempted. *)
Theorem steps_run_in_order (userId : Id) (workflow : list Step) (w : World) :
  exists st,
    run executeStep userId workflow w = Some st /\
    Sorted le (attempts st) /\
    (forall i, i < completedSteps (outcome_of st) ->
               1 <= attempts_of st i <= 3) /\
    (success (outcome_of st) = false ->
     1 <= attempts_of st (completedSteps (outcome_of st)) <= 3) /\
    (forall i, completedSteps (outcome_of st) < i -> attempts_of st i = 0).
Proof.
  destruct (run_total executeStep userId workflow w) as [st Hrun].
  exists st. split; [exact Hrun|].
  assert (Hcount : attempts_follow_cursor
                     (mkLoopState (new_context userId workflow) 0 w [] [] : State)).
  { split; unfold attempts_of; simpl; intros; unfold maxRetries; lia. }
  assert (Hinv : attempts_in_order
                   (mkLoopState (new_context userId workflow) 0 w [] [] : State)).
  { split; simpl; [constructor|intros i []|intros i Hi; lia]. }
  pose proof (loop_attempts executeStep _ _ _ Hcount Hrun) as Hmost.
  destruct (loop_order _ _ _ Hcount Hinv Hrun) as [[Hs Hup Hdone] Hlast].
  pose proof (loop_maps executeStep _ _ _ (follow_at_start userId workflow w) Hrun)
    as [Hrange _ _ _].
  unfold maxRetries in Hmost. simpl.
  split; [exact Hs|]. split; [|split].
  - intros i Hi. split; [by apply Hdone|apply Hmost].
  - intros Hfail. apply Nat.eqb_neq in Hfail. split; [apply Hlast; lia|apply Hmost].
  - intros i Hi. apply count_occ_not_In. intros Hin. apply Hup in Hin. lia.
Qed.

(** *** The time a run waits *)

Lemma total_delay_snoc (ds : list Z) (d : Z) :
  (fold_right Z.add 0 (ds ++ [d]) = fold_right Z.add 0 ds + d)%Z.
Proof. induction ds as [|x ds IH]; simpl; lia. Qed.

Lemma delays_after_success (st : State) result w :
  retryCount st < maxRetries ->
  delays_follow_cursor st -> delays_follow_cursor (after_success st result w).
Proof.
  intros Hretry [Hr _ Hv Ht]. unfold total_delay, waited_after, maxRetries in *.
  split; unfold total_delay, waited_after, maxRetries;
    cbn [after_success retryCount delays context currentStep]; [lia|done|exact Hv|].
  rewrite Nat2Z.inj_succ. remember (retryCount st) as r. destruct r as [|[|[|n]]]; lia.
Qed.

Lemma delays_after_retriable (st : State) error w :
  currentStep (context st) < length (steps (context st)) ->
  retryCount st < maxRetries ->
  delays_follow_cursor st -> delays_follow_cursor (after_retriable st error w).
Proof.
  intros Hcur Hretry [Hr _ Hv Ht]. unfold total_delay, waited_after, maxRetries in *.
  split; unfold total_delay, waited_after, maxRetries;
    cbn [after_retriable failed_context retryCount delays context currentStep steps].
  - lia.
  - lia.
  - apply Forall_app. split; [exact Hv|]. constructor; [lia|constructor].
  - rewrite total_delay_snoc, Nat2Z.inj_succ.
    remember (retryCount st) as r. destruct r as [|[|[|n]]]; lia.
Qed.

Lemma delays_at_end (st : State) :
  delays_follow_cursor st ->
  Forall (fun d => d = 1000 \/ d = 2000 \/ d = 3000)%Z (delays st) /\
  (total_delay st <= 3000 * Z.of_nat (currentStep (context st)) + 6000)%Z /\
  (currentStep (context st) = length (steps (context st)) ->
   total_delay st <= 3000 * Z.of_nat (currentStep (context st)))%Z.
Proof.
  intros [Hr Hd Hv Ht]. split; [exact Hv|].
  unfold total_delay, waited_after, maxRetries in *. split.
  - remember (retryCount st) as r. destruct r as [|[|[|[|n]]]]; lia.
  - intros Hcur. rewrite (Hd Hcur) in Ht. lia.
Qed.

Lemma loop_delays fuel (st st' : State) :
  delays_follow_cursor st -> loop executeStep fuel st = Some st' ->
  Forall (fun d => d = 1000 \/ d = 2000 \/ d = 3000)%Z (delays st') /\
  (total_delay st' <= 3000 * Z.of_nat (currentStep (context st')) + 6000)%Z /\
  (currentStep (context st') = length (steps (context st')) ->
   total_delay st' <= 3000 * Z.of_nat (currentStep (context st')))%Z.
Proof.
  revert st. induction fuel as [|fuel IH]; intros st Hinv Hloop.
  - simpl in Hloop. destruct (loop_guard st); [discriminate|].
    injection Hloop as <-. by apply delays_at_end.
  - destruct (loop_guard st) eqn:Hg.
    + apply loop_guard_true in Hg as Hg'. destruct Hg' as [Hcur Hretry].
      destruct (lookup_lt_is_Some_2 _ _ Hcur) as [step Hstep].
      simpl in Hloop. rewrite Hg, Hstep in Hloop. unfold loop_body in Hloop.
      destruct (executeStep step (world st)) as [[result|error] w].
      * exact (IH _ (delays_after_success st result w Hretry Hinv) Hloop).
      * destruct (isRetriableError error).
        -- exact (IH _ (delays_after_retriable st error w Hcur Hretry Hinv) Hloop).
        -- injection Hloop as <-.
           destruct (delays_at_end st Hinv) as (Hv & Ht & _).
           split; [exact Hv|]. split; [exact Ht|]. simpl. lia.
    + rewrite loop_end in Hloop by done. injection Hloop as <-.
      by apply delays_at_end.
Qed.

(** X2: Every wait of a run is of 1000, 2000 or 3000 ms, and all of them
    together take at most 3000 ms for each completed step and 6000 ms for
    the step the run stopped at. *)
Theorem waiting_time_is_bounded (userId : Id) (workflow : list Step) (w : World) :
  exists st,
    run executeStep userId workflow w = Some st /\
    Forall (fun d => d = 1000 \/ d = 2000 \/ d = 3000)%Z (delays st) /\
    (total_delay st <= 3000 * Z.of_nat (completedSteps (outcome_of st)) + 6000)%Z /\
    (success (outcome_of st) = true ->
     total_delay st <= 3000 * Z.of_nat (length workflow))%Z.
Proof.
  destruct (run_total executeStep userId workflow w) as [st Hrun].
  exists st. split; [exact Hrun|].
  pose proof (loop_same_steps executeStep _ _ _ Hrun) as Hsteps. simpl in Hsteps.
  assert (Hinv : delays_follow_cursor
                   (mkLoopState (new_context userId workflow) 0 w [] [] : State)).
  { split; unfold total_delay, waited_after, maxRetries; simpl; [lia|done|constructor|lia]. }
  destruct (loop_delays _ _ _ Hinv Hrun) as (Hv & Ht & Hdone).
  split; [exact Hv|]. split; [exact Ht|].
  simpl. intros Hok. apply Nat.eqb_eq in Hok. rewrite <- Hsteps, <- Hok.
  apply Hdone. exact Hok.
Qed.

End EngineBounds.

Section EngineSequence.
Context {World Step Result : Type}.
Variable executeStep : Step -> World -> Exc Result * World.

Local Abbreviation State := (LoopState World Step Result).

Lemma in_sequence_length (rest : list Step) :
  forall w rs w', in_sequence executeStep rest w = Some (rs, w') -> length rs = length rest.
Proof.
  induction rest as [|step rest IH]; intros w rs w' H; simpl in H.
  - by injection H as <- _.
  - destruct (executeStep step w) as [[result|error] w1]; [|discriminate].
    destruct (in_sequence executeStep rest w1) as [[rs' w2]|] eqn:Hrest; [|discriminate].
    injection H as <- _. simpl. f_equal. by apply (IH w1 rs' w2).
Qed.

Lemma loop_in_sequence (rest : list Step) :
  forall fuel (st : State) rs w',
    retryCount st = 0 ->
    currentStep (context st) <= length (steps (context st)) ->
    drop (currentStep (context st)) (steps (context st)) = rest ->
    in_sequence executeStep rest (world st) = Some (rs, w') ->
    length rest < fuel ->
    exists st',
      loop executeStep fuel st = Some st' /\
      currentStep (context st') = length (steps (context st)) /\
      world st' = w' /\
      errors (context st') = errors (context st) /\
      attempts st' = (attempts st ++ seq (currentStep (context st)) (length rest))%list /\
      delays st' = delays st /\
      forall i,
        results (context st') !! step_key i
        = if decide (currentStep (context st) <= i
                     < currentStep (context st) + length rest)
          then rs !! (i - currentStep (context st))
          else results (context st) !! step_key i.
Proof.
  induction rest as [|step rest IH]; intros fuel st rs w' Hretry Hcur Hdrop Hseq Hfuel.
  - simpl in Hseq. injection Hseq as <- <-.
    assert (Hlen : length (drop (currentStep (context st)) (steps (context st))) = 0)
      by (rewrite Hdrop; reflexivity).
    rewrite length_drop in Hlen.
    exists st. rewrite loop_end.
    + split; [reflexivity|]. split; [lia|]. split; [reflexivity|].
      split; [reflexivity|]. split; [simpl; by rewrite app_nil_r|].
      split; [reflexivity|]. intros i. simpl. case_decide; [lia|reflexivity].
    + unfold loop_guard. apply andb_false_iff. left. apply Nat.ltb_ge. lia.
  - assert (Hstep : steps (context st) !! currentStep (context st) = Some step).
    { rewrite <- (Nat.add_0_r (currentStep (context st))), <- lookup_drop, Hdrop.
      reflexivity. }
    assert (Hlt : currentStep (context st) < length (steps (context st)))
      by (apply lookup_lt_is_Some; eauto).
    rewrite (drop_S _ _ _ Hstep) in Hdrop. injection Hdrop as Hdrop.
    simpl in Hseq.
    destruct (executeStep step (world st)) as [[result|error] w1] eqn:He; [|discriminate].
    destruct (in_sequence executeStep rest w1) as [[rs' w2]|] eqn:Hrest; [|discriminate].
    injection Hseq as <- <-.
    destruct fuel as [|fuel]; [lia|].
    rewrite (loop_success executeStep fuel st step result w1); [| |exact Hstep|exact He].
    2:{ apply loop_guard_true. unfold maxRetries. lia. }
    destruct (IH fuel (after_success st result w1) rs' w2)
      as (st' & Hloop & Hend & Hw & Herr & Hatt & Hdel & Hres);
      [reflexivity|simpl; lia|exact Hdrop|exact Hrest|simpl in Hfuel; lia|].
    exists st'. split; [exact Hloop|]. split; [exact Hend|]. split; [exact Hw|].
    split; [exact Herr|]. split; [|split; [exact Hdel|]].
    + rewrite Hatt. simpl. rewrite <- app_assoc. reflexivity.
    + intros i. rewrite Hres. cbn [after_success context currentStep results].
      destruct (decide (i = currentStep (context st))) as [->|Hne].
      * rewrite lookup_insert_eq. repeat case_decide; simpl length in *; try lia.
        by rewrite Nat.sub_diag.
      * rewrite lookup_insert_ne by (intros H; apply step_key_inj in H; done).
        repeat case_decide; simpl length in *; try lia; [|reflexivity].
        replace (i - currentStep (context st))
          with (S (i - S (currentStep (context st)))) by lia.
        reflexivity.
Qed.

(** X3: When no step throws, a run is the steps one after the other: every
    step is attempted once, in order, nothing is waited for, no error is
    recorded, and the results are those of the steps. *)
Theorem run_without_failure (userId : Id) (workflow : list Step) (w w' : World)
    (rs : list Result) :
  in_sequence executeStep workflow w = Some (rs, w') ->
  exists st,
    run executeStep userId workflow w = Some st /\
    success (outcome_of st) = true /\
    completedSteps (outcome_of st) = length workflow /\
    out_errors (outcome_of st) = ∅ /\
    (forall i, out_results (outcome_of st) !! step_key i = rs !! i) /\
    world st = w' /\
    attempts st = seq 0 (length workflow) /\
    delays st = [].
Proof.
  intros Hseq.
  destruct (loop_in_sequence workflow (enough_fuel workflow)
              (mkLoopState (new_context userId workflow) 0 w [] []) rs w')
    as (st & Hloop & Hend & Hw & Herr & Hatt & Hdel & Hres);
    [reflexivity|simpl; lia|reflexivity|exact Hseq|unfold enough_fuel, maxRetries; lia|].
  pose proof (loop_same_steps executeStep _ _ _ Hloop) as Hsteps.
  simpl in Hend, Herr, Hatt, Hdel, Hres, Hsteps.
  exists st. split; [exact Hloop|]. simpl. rewrite Hsteps, Hend.
  split; [apply Nat.eqb_refl|]. split; [reflexivity|]. split; [exact Herr|].
  split; [|split; [exact Hw|split; [exact Hatt|exact Hdel]]].
  intros i. rewrite Hres, Nat.sub_0_r.
  case_decide as Hin; [reflexivity|].
  rewrite lookup_empty. symmetry. apply lookup_ge_None.
  apply in_sequence_length in Hseq. lia.
Qed.
End EngineSequence.

(** The three steps of [three_steps] on a store that can be reached. *)
Lemma run_without_failure_on_the_store :
  exists rs env',
    in_sequence (Workflow.executeStep_in plain_calendar 1000%Z) three_steps
                (Workflow.mkEnv two_users [])
    = Some (rs, env') /\
    exists st,
      run (Workflow.executeStep_in plain_calendar 1000%Z) 1 three_steps
          (Workflow.mkEnv two_users [])
      = Some st /\
      success (outcome_of st) = true /\
      completedSteps (outcome_of st) = length three_steps /\
      out_errors (outcome_of st) = ∅ /\
      (forall i, out_results (outcome_of st) !! step_key i = rs !! i) /\
      world st = env' /\
      attempts st = seq 0 (length three_steps) /\
      delays st = [].
Proof.
  eexists _, _. split; [vm_compute; reflexivity|].
  apply (run_without_failure (Workflow.executeStep_in plain_calendar 1000%Z) 1 three_steps
           (Workflow.mkEnv two_users [])).
  vm_compute. reflexivity.
Defined.

Section EngineFatal.
Context {World Step Result : Type}.
Variable executeStep : Step -> World -> Exc Result * World.
Local Open Scope list_scope.

Local Abbreviation State := (LoopState World Step Result).

Lemma loop_without_waits fuel (st st' : State) :
  waits (events executeStep fuel st) = [] ->
  attempts st = seq 0 (currentStep (context st)) ->
  loop executeStep fuel st = Some st' ->
  attempts st' = seq 0 (length (attempts st')) /\
  length (attempts st') <= S (currentStep (context st')).
Proof.
  revert st. induction fuel as [|fuel IH]; intros st Hw Hatt Hloop.
  - simpl in Hloop. destruct (loop_guard st); [discriminate|].
    injection Hloop as <-. rewrite Hatt at 1. rewrite Hatt, length_seq. split; [done|lia].
  - destruct (loop_guard st) eqn:Hg.
    2:{ rewrite loop_end in Hloop by done. injection Hloop as <-.
        rewrite Hatt at 1. rewrite Hatt, length_seq. split; [done|lia]. }
    apply loop_guard_true in Hg as Hg'. destruct Hg' as [Hcur Hretry].
    destruct (lookup_lt_is_Some_2 _ _ Hcur) as [step Hstep].
    destruct (executeStep step (world st)) as [[result|error] w] eqn:He.
    + rewrite (loop_success _ fuel st step result w Hg Hstep He) in Hloop.
      rewrite (events_success _ fuel st step result w Hg Hstep He) in Hw.
      apply IH in Hloop; [exact Hloop|exact Hw|].
      cbn [after_success attempts context currentStep]. rewrite Hatt, seq_S. reflexivity.
    + destruct (isRetriableError error) eqn:Hr.
      * rewrite (events_retriable _ fuel st step error w Hg Hstep He Hr) in Hw.
        discriminate Hw.
      * rewrite (loop_fatal _ fuel st step error w Hg Hstep He Hr) in Hloop.
        injection Hloop as <-.
        cbn [after_fatal failed_context attempts context currentStep].
        rewrite Hatt, length_app, length_seq. cbn [length].
        rewrite Nat.add_1_r, seq_S. split; [done|lia].
Qed.

(** X4: an attempt that fails with an error that is not retriable ends
    the run: nothing is waited for and nothing is attempted after it, the
    step is [completedSteps], the run does not succeed, and the message of
    the error is the one recorded for the step.  In a run in which no
    attempt fails with a retriable error, nothing is waited for and no
    step is attempted twice: the steps attempted are 0, 1, 2, ... in turn,
    up to the first one that fails. *)
Theorem fatal_error_ends_the_run (userId : Id) (workflow : list Step) (w : World) :
  let evs := history executeStep userId workflow w in
  exists st,
    run executeStep userId workflow w = Some st /\
    (forall before i e after,
       evs = (before ++ Attempted i (Throw e) :: after)%list ->
       isRetriableError e = false ->
       after = [] /\
       completedSteps (outcome_of st) = i /\
       success (outcome_of st) = false /\
       out_errors (outcome_of st) !! step_key i = Some (errorMessage e)) /\
    ((forall i e, In (Attempted i (Throw e)) evs -> isRetriableError e = false) ->
     delays st = [] /\
     attempts st = seq 0 (length (attempts st)) /\
     length (attempts st) <= S (completedSteps (outcome_of st))).
Proof.
  intros evs.
  destruct (run_total executeStep userId workflow w) as [st Hrun].
  exists st. split; [exact Hrun|].
  destruct (run_told executeStep userId workflow w st Hrun) as (Ht & _ & Hsteps & Hend).
  fold evs in Ht, Hend. split.
  - intros before i e after Hevs Hfatal.
    destruct Hend as [(_ & _ & Hall)|(before' & e' & Hlast & _ & Hall & Hcur)].
    + rewrite (Hall i e) in Hfatal; [discriminate|].
      rewrite Hevs. apply in_or_app. right. left. reflexivity.
    + rewrite Hlast in Hevs.
      apply snoc_eq_middle in Hevs as [(-> & -> & [= <- <-])|(after' & -> & ->)].
      * split; [reflexivity|]. simpl. rewrite Hsteps. split; [reflexivity|].
        split; [apply Nat.eqb_neq; lia|].
        rewrite (told_errors _ _ Ht), Hlast, failures_of_snoc. cbn [failure_of].
        by rewrite Nat.eqb_refl, last_snoc.
      * rewrite (Hall i e) in Hfatal; [discriminate|].
        apply in_or_app. right. left. reflexivity.
  - intros Hnone.
    assert (Hw : waits evs = []).
    { destruct (waits evs) as [|ms rest] eqn:E; [reflexivity|exfalso].
      assert (Hin : In (Waited ms) evs).
      { assert (H : In ms (waits evs)) by (rewrite E; left; reflexivity).
        unfold waits in H. apply list_elem_of_In, list_elem_of_omap in H
          as (ev & Hev & Hms). destruct ev; [discriminate|].
        injection Hms as ->. by apply list_elem_of_In. }
      apply in_split in Hin as (before & after & Hevs).
      destruct (told_waits _ _ Ht before ms after Hevs) as (earlier & i & e & Hb & He & _).
      rewrite (Hnone i e) in He; [discriminate|].
      rewrite Hevs, Hb. apply in_or_app. left. apply in_or_app. right. left. reflexivity. }
    split; [by rewrite (told_delays _ _ Ht)|].
    apply (loop_without_waits _ _ _ Hw eq_refl Hrun).
Qed.

End EngineFatal.

(** The run of [three_steps_unknown_user] ends at its second step, which
    throws 'User not found'. *)
Lemma unknown_user_ends_the_run :
  (attempted (history (Workflow.executeStep_in plain_calendar 1000%Z) 1
                three_steps_unknown_user (Workflow.mkEnv two_users [])) = [0; 1] /\
   failures_of 1 (history (Workflow.executeStep_in plain_calendar 1000%Z) 1
                    three_steps_unknown_user (Workflow.mkEnv two_users []))
   = [user_not_found]) /\
  exists st,
    run (Workflow.executeStep_in plain_calendar 1000%Z) 1 three_steps_unknown_user
        (Workflow.mkEnv two_users []) = Some st /\
    completedSteps (outcome_of st) = 1 /\
    success (outcome_of st) = false /\
    out_errors (outcome_of st) !! step_key 1 = Some "User not found" /\
    delays st = [] /\
    attempts st = seq 0 (length (attempts st)).
Proof.
  split; [split; vm_compute; reflexivity|].
  destruct (fatal_error_ends_the_run (Workflow.executeStep_in plain_calendar 1000%Z) 1
              three_steps_unknown_user (Workflow.mkEnv two_users []))
    as (st & Hrun & Hfatal & Hnone).
  exists st. split; [exact Hrun|].
  remember (history (Workflow.executeStep_in plain_calendar 1000%Z) 1
              three_steps_unknown_user (Workflow.mkEnv two_users [])) as evs eqn:Hevs.
  vm_compute in Hevs. subst evs.
  destruct (Hfatal [Attempted 0 (Ok (Workflow.ExpenseLogged 3 "transport fuel" 450
                                       "Transport" 1000%Z))]
              1 user_not_found []) as (_ & Hc & Hs & He);
    [reflexivity|reflexivity|].
  split; [exact Hc|]. split; [exact Hs|]. split; [exact He|].
  destruct Hnone as (Hd & Ha & _); [|done].
  intros i e [[=]|[[= _ <-]|[]]]. reflexivity.
Defined.

(** *** Which errors are retried *)

Lemma toLowerCase_app (s t : string) :
  toLowerCase (s +:+ t) = toLowerCase s +:+ toLowerCase t.
Proof.
  induction s as [|c s IH]; [reflexivity|].
  rewrite String_app_cons. simpl. rewrite IH. reflexivity.
Qed.

Lemma prefix_app (k t : string) : String.prefix k (k +:+ t) = true.
Proof.
  induction k as [|c k IH]; [by destruct t|].
  rewrite String_app_cons. simpl.
  destruct (ascii_dec c c) as [_|Hne]; [exact IH|done].
Qed.

Lemma includes_prefix (s k : string) :
  String.prefix k s = true -> includes s k = true.
Proof. intros H. destruct s; simpl in *; rewrite H; reflexivity. Qed.

Lemma includes_here (k t : string) : includes (k +:+ t) k = true.
Proof. apply includes_prefix, prefix_app. Qed.

Lemma includes_app (s k t : string) : includes (s +:+ k +:+ t) k = true.
Proof.
  induction s as [|c s IH]; [exact (includes_here k t)|].
  rewrite String_app_cons. simpl. rewrite IH. apply orb_true_r.
Qed.

(** X5: An error is retried when its message holds one of the four keywords
    anywhere and in any letter case, whatever the class of the error; a
    thrown value that is not an error is never retried. *)
Theorem keyword_errors_are_retriable (cls : ErrorClass) (before word after : string)
    (v : JsVal) :
  (In (toLowerCase word) ["timeout"; "network"; "connection"; "rate limit"] ->
   isRetriableError (ErrorObj cls (before +:+ word +:+ after)) = true) /\
  isRetriableError (NonError v) = false.
Proof.
  split; [|reflexivity]. intros Hword.
  unfold isRetriableError. rewrite !toLowerCase_app.
  destruct Hword as [<-|[<-|[<-|[<-|[]]]]]; rewrite includes_app;
    rewrite ?orb_true_r; reflexivity.
Qed.

(** ** Marking an invoice as paid: the owner, the total and the revenue *)

Lemma same_id_same_invoice (rows : list Invoice) (a b : Invoice) :
  List.NoDup (map inv_id rows) -> In a rows -> In b rows -> inv_id a = inv_id b -> a = b.
Proof.
  induction rows as [|r rows IH]; intros Hnd Ha Hb Heq; [destruct Ha|].
  simpl in Hnd. apply NoDup_cons_iff in Hnd as [Hr Hnd].
  destruct Ha as [->|Ha], Hb as [->|Hb].
  - reflexivity.
  - exfalso. apply Hr. rewrite Heq. by apply in_map.
  - exfalso. apply Hr. rewrite <- Heq. by apply in_map.
  - by apply IH.
Qed.

(** X6: A request with the identifier of another user is answered as if the
    invoice did not exist, and changes nothing. *)
Theorem markPaid_of_another_user (uuid : string -> option Id) (now : Timestamp)
    (body : gmap string JsVal) (text : string) (db : Db) (inv : Invoice) (other : Id) :
  prop body "userId" = JStr text ->
  uuid text = Some other ->
  other <> inv_userId inv ->
  List.NoDup (map inv_id (invoices db)) ->
  In inv (invoices db) ->
  markPaid uuid now (inv_id inv) body db
  = (mkResponse 404 (ErrorBody "Invoice not found"), db).
Proof.
  intros Hbody Huuid Hother Hnd Hin.
  apply (markPaid_not_found uuid now (inv_id inv) other body text db Hbody Huuid).
  apply filter_none. intros r Hr.
  destruct (Nat.eqb_spec (inv_id r) (inv_id inv)) as [Heq|]; [|reflexivity].
  rewrite (same_id_same_invoice _ r inv Hnd Hr Hin Heq). simpl.
  apply Nat.eqb_neq. congruence.
Qed.

(** User 2 asks for the invoice of user 1 in [invoiced_store]. *)
Lemma markPaid_of_user_2_is_refused :
  markPaid demo_uuid 2000%Z (inv_id draft_invoice) other_body invoiced_store
  = (mkResponse 404 (ErrorBody "Invoice not found"), invoiced_store).
Proof.
  apply (markPaid_of_another_user demo_uuid 2000%Z other_body
           "00000000-0000-4000-8000-000000000002" invoiced_store draft_invoice 2).
  - vm_compute. reflexivity.
  - vm_compute. reflexivity.
  - discriminate.
  - vm_compute. repeat constructor. intros [].
  - vm_compute. left. reflexivity.
Defined.

Lemma update_paid_rows (rows : list Invoice) (inv : Invoice) (now : Timestamp) :
  List.NoDup (map inv_id rows) -> In inv rows ->
  let upd i := if (inv_id i =? inv_id inv)%nat then paid_at now i else i in
  map inv_id (map upd rows) = map inv_id rows /\
  In (paid_at now inv) (map upd rows) /\
  (forall other, In other rows -> inv_id other <> inv_id inv -> In other (map upd rows)) /\
  (forall i, In i (map upd rows) -> i = paid_at now inv \/ (In i rows /\ inv_id i <> inv_id inv)).
Proof.
  intros Hnd Hin upd. split; [|split; [|split]].
  - rewrite map_map. apply map_ext. intros i. unfold upd.
    destruct (inv_id i =? inv_id inv)%nat; reflexivity.
  - apply in_map_iff. exists inv. split; [|exact Hin]. unfold upd.
    by rewrite Nat.eqb_refl.
  - intros other Ho Hne. apply in_map_iff. exists other. split; [|exact Ho].
    unfold upd. apply Nat.eqb_neq in Hne. by rewrite Hne.
  - intros i Hi. apply in_map_iff in Hi as (r & <- & Hr). unfold upd.
    destruct (Nat.eqb_spec (inv_id r) (inv_id inv)) as [Heq|Hne].
    + left. by rewrite (same_id_same_invoice _ r inv Hnd Hr Hin Heq).
    + right. split; done.
Qed.

(** Whatever the request, mark-paid leaves the store as it is, or sets
    one invoice that was not paid to PAID and then adds its payment,
    unless the column refuses the amount. *)
Lemma markPaid_cases (uuid : string -> option Id) (now : Timestamp)
    (invoiceId : Id) (body : gmap string JsVal) (db : Db) :
  snd (markPaid uuid now invoiceId body db) = db \/
  exists inv,
    In inv (invoices db) /\ inv_id inv = invoiceId /\ inv_status inv <> PAID /\
    (snd (markPaid uuid now invoiceId body db) = marked_paid now invoiceId db \/
     exists amount,
       snd (markPaid uuid now invoiceId body db)
       = with_payment invoiceId amount now (marked_paid now invoiceId db)).
Proof.
  unfold markPaid, markPaid_try, bind, lift, query, ret, MarkPaidSchema, z_uuid,
    z_string, exc_bind.
  destruct (prop body "userId") as [| | | |text|]; try (left; reflexivity).
  destruct (uuid text) as [userId|]; [|left; reflexivity].
  destruct (select_invoice invoiceId userId db) as [|inv rows] eqn:Hsel;
    [left; reflexivity|].
  assert (Hin : In inv (select_invoice invoiceId userId db))
    by (rewrite Hsel; left; reflexivity).
  apply filter_In in Hin as [Hin Hids]. apply andb_true_iff in Hids as [Hid _].
  apply Nat.eqb_eq in Hid.
  cbn [limit1 firstn length Nat.eqb first_row ret].
  destruct (InvoiceStatus_eqb (inv_status inv) PAID) eqn:Hst; [left; reflexivity|].
  right. exists inv. split; [exact Hin|]. split; [exact Hid|].
  split; [intros Hp; rewrite Hp in Hst; discriminate|].
  unfold update_invoice_paid, insert_payment, decimal_12_2.
  destruct (fits_decimal_12_2 _); [right; eexists; reflexivity|left; reflexivity].
Qed.

Lemma ledger_ok_marked_paid (now : Timestamp) (inv : Invoice) (db : Db) :
  In inv (invoices db) -> ledger_ok db -> ledger_ok (marked_paid now (inv_id inv) db).
Proof.
  intros Hin [Hbelow Hnd Hpnd Hpaid].
  destruct (update_paid_rows (invoices db) inv now Hnd Hin) as (Hids & Hnew & Hold & Hall).
  cbv zeta in *. split; cbn [marked_paid invoices payments nextId].
  - intros i Hi. apply Hall in Hi as [->|[Hi _]].
    + apply Hbelow in Hin. simpl. lia.
    + by apply Hbelow in Hi.
  - by rewrite Hids.
  - exact Hpnd.
  - intros p Hp. destruct (Hpaid p Hp) as (i & Hi & Hid & Hip).
    destruct (Nat.eq_dec (inv_id i) (inv_id inv)) as [Heq|Hne].
    + exists (paid_at now inv). split; [exact Hnew|]. split; [|reflexivity].
      simpl. congruence.
    + exists i. split; [by apply Hold|]. split; done.
Qed.

Lemma ledger_ok_markPaid (uuid : string -> option Id) (now : Timestamp)
    (invoiceId : Id) (body : gmap string JsVal) (db : Db) :
  ledger_ok db -> ledger_ok (snd (markPaid uuid now invoiceId body db)).
Proof.
  intros Hok.
  destruct (markPaid_cases uuid now invoiceId body db)
    as [->|(inv & Hin & <- & Hst & [->|[amount ->]])]; [exact Hok| |].
  - by apply ledger_ok_marked_paid.
  - pose proof (ledger_ok_marked_paid now inv db Hin Hok) as [Hbelow Hnd Hpnd Hpaid].
    destruct Hok as [_ Hnd0 _ Hpaid0].
    destruct (update_paid_rows (invoices db) inv now Hnd0 Hin) as (_ & Hnew & _ & _).
    cbv zeta in Hnew.
    split; cbn [with_payment marked_paid invoices payments nextId] in *.
    + intros i Hi. apply Hbelow in Hi. lia.
    + exact Hnd.
    + rewrite map_app. simpl. apply List.NoDup_app; [exact Hpnd| |].
      * repeat constructor. intros [].
      * intros x Hx [<-|[]]. apply in_map_iff in Hx as (p & Hp & Hpin).
        destruct (Hpaid0 p Hpin) as (i & Hi & Hid & Hip).
        assert (i = inv) as ->
          by (apply (same_id_same_invoice _ _ _ Hnd0 Hi Hin); congruence).
        done.
    + intros p Hp. apply in_app_or in Hp as [Hp|[<-|[]]]; [by apply Hpaid|].
      exists (paid_at now inv). split; [exact Hnew|]. split; reflexivity.
Qed.



(** An invoice of 9 000 000 000 without the VAT is created, and its total
    of 10 350 000 000 does not fit the column of the payments: mark-paid
    answers with status 500 after the invoice was set to PAID, and no
    payment is written. *)
Example big_invoice_is_paid_without_payment :
  exists invoice client amounts message db1 db2,
    AIService.createInvoice plain_calendar 1000%Z 1 big_params two_users
    = (AIService.Created invoice client amounts message, db1) /\
    markPaid demo_uuid 2000%Z (inv_id invoice) owner_body db1 = (markPaid_failed, db2) /\
    select_invoice (inv_id invoice) 1 db2 = [paid_at 2000%Z invoice] /\
    payments db2 = [].
Proof.
  do 6 eexists. split; [vm_compute; reflexivity|].
  split; [vm_compute; reflexivity|]. split; reflexivity.
Qed.








(** ** Creating an invoice: the entry points, the client and the amounts shown *)

Lemma postInvoice_try_eq cal uuid now body db :
  postInvoice_try cal uuid now body db =
  match route_CreateInvoiceSchema uuid body with
  | Throw e => (Throw e, db)
  | Ok v =>
      match limit1 (select_users (form_userId v) db) with
      | [] => (Ok (mkInvoicesResponse 404 (InvoicesError "User not found")), db)
      | _ :: _ =>
          let '(client, dbc) := resolve_client (form_userId v) (form_clientName v) db in
          let number :=
            invoiceNumber_after (length (select_invoices_of (form_userId v) db)) in
          if number_taken number db
          then (Throw (ErrorObj DriverError unique_violation), dbc)
          else
            let inv :=
              new_invoice (form_userId v) (client_id client) number true
                          (addDays cal now (form_dueInDays v)) dbc in
            if fits_decimal_12_2 (form_amount v / (1 + vatRate))
            then
              (Ok (mkInvoicesResponse 200
                     (InvoiceMade (inv_id inv) number (form_clientName v) (form_amount v)
                                  DRAFT (addDays cal now (form_dueInDays v)))),
               with_invoice inv (form_description v)
                            (cents (form_amount v / (1 + vatRate))) dbc)
            else (Throw overflow, with_invoice_row inv dbc)
      end
  end.
Proof.
  unfold postInvoice_try, bind, lift, query, ret, throw.
  destruct (route_CreateInvoiceSchema uuid body) as [v|e]; [|reflexivity].
  destruct (limit1 (select_users (form_userId v) db)) as [|u us]; [reflexivity|].
  cbn [length Nat.eqb]. unfold resolve_client.
  destruct (limit1 (select_clients (form_userId v) (form_clientName v) db))
    as [|c cs] eqn:Ec.
  - cbn [length Nat.eqb insert_client first_row ret].
    unfold insert_invoice, number_taken, select_invoices_of. cbn [invoices nextId].
    destruct (existsb _ (invoices db)); [reflexivity|].
    unfold insert_invoiceItem, decimal_12_2.
    destruct (fits_decimal_12_2 _); reflexivity.
  - cbn [length Nat.eqb first_row ret].
    unfold insert_invoice, number_taken, select_invoices_of.
    destruct (existsb _ (invoices db)); [reflexivity|].
    unfold insert_invoiceItem, decimal_12_2.
    destruct (fits_decimal_12_2 _); reflexivity.
Qed.

(** The numbering of a creation that got as far as the number. *)
Lemma numbered_creation userId db dbc db1 (inv : Invoice) (answer : option string)
    (taken : bool) :
  users dbc = users db -> invoices dbc = invoices db ->
  taken = false ->
  users db1 = users dbc ->
  invoices db1 = (invoices dbc ++ [inv])%list ->
  inv_invoiceNumber inv = invoiceNumber_after (length (select_invoices_of userId db)) ->
  inv_userId inv = userId ->
  (answer = None \/ answer = nth_number (length (select_invoices_of userId db))) ->
  users db1 = users db /\
  ((answer = None /\ invoices db1 = invoices db) \/
   exists inv,
     taken = false /\
     inv_invoiceNumber inv
     = invoiceNumber_after (length (select_invoices_of userId db)) /\
     inv_userId inv = userId /\
     invoices db1 = (invoices db ++ [inv])%list /\
     (answer = None \/
      answer = nth_number (length (select_invoices_of userId db)))).
Proof.
  intros Hu Hi Hfree Hu1 Hi1 Hn Hown Hanswer.
  split; [congruence|]. right. exists inv. repeat split; try done. congruence.
Qed.

Lemma service_creation_by_count cal now userId params :
  numbers_by_count userId (service_creation cal now userId params).
Proof.
  intros db. unfold service_creation, AIService.createInvoice.
  rewrite createInvoice_try_eq.
  destruct (AIService.CreateInvoiceSchema params) as [v|e];
    [|eexists _, _; split; [reflexivity|]; split; [reflexivity|by left]].
  destruct (limit1 (select_users userId db)) as [|u us];
    [eexists _, _; split; [reflexivity|]; split; [reflexivity|by left]|].
  pose proof (resolve_client_keeps userId (AIService.clientName v) db) as Hkeep.
  destruct (resolve_client userId (AIService.clientName v) db) as [c dbc].
  cbv zeta in *. simpl in Hkeep. destruct Hkeep as (Hu & Hi & _).
  destruct (number_taken _ db) eqn:Hfree;
    [eexists _, _; split; [reflexivity|]; split; [exact Hu|by left]|].
  destruct (fits_decimal_12_2 _); eexists _, _; (split; [reflexivity|]);
    (eapply numbered_creation with (dbc := dbc);
       [exact Hu|exact Hi|reflexivity|reflexivity|reflexivity|reflexivity|reflexivity|]);
    first [by left|by right].
Qed.

Lemma step_creation_by_count cal now userId clientName amount description dueInDays :
  numbers_by_count userId
    (step_creation cal now userId clientName amount description dueInDays).
Proof.
  intros db. unfold step_creation. rewrite executeCreateInvoice_eq.
  destruct (limit1 (select_users userId db)) as [|u us];
    [eexists _, _; split; [reflexivity|]; split; [reflexivity|by left]|].
  pose proof (resolve_client_keeps userId clientName db) as Hkeep.
  destruct (resolve_client userId clientName db) as [c dbc].
  cbv zeta in *. simpl in Hkeep. destruct Hkeep as (Hu & Hi & _).
  destruct (number_taken _ db) eqn:Hfree;
    [eexists _, _; split; [reflexivity|]; split; [exact Hu|by left]|].
  destruct (fits_decimal_12_2 _); eexists _, _; (split; [reflexivity|]);
    (eapply numbered_creation with (dbc := dbc);
       [exact Hu|exact Hi|reflexivity|reflexivity|reflexivity|reflexivity|reflexivity|]);
    first [by left|by right].
Qed.

Lemma route_creation_by_count cal uuid now userId body :
  (forall form, route_CreateInvoiceSchema uuid body = Ok form ->
                form_userId form = userId) ->
  numbers_by_count userId (route_creation cal uuid now body).
Proof.
  intros Hown db. unfold route_creation, postInvoice. rewrite postInvoice_try_eq.
  destruct (route_CreateInvoiceSchema uuid body) as [form|e].
  2:{ destruct e as [[] details|v];
        eexists _, _; (split; [reflexivity|]); (split; [reflexivity|by left]). }
  rewrite <- (Hown form eq_refl).
  destruct (limit1 (select_users (form_userId form) db)) as [|u us];
    [eexists _, _; split; [reflexivity|]; split; [reflexivity|by left]|].
  pose proof (resolve_client_keeps (form_userId form) (form_clientName form) db) as Hkeep.
  destruct (resolve_client (form_userId form) (form_clientName form) db) as [c dbc].
  cbv zeta in *. simpl in Hkeep. destruct Hkeep as (Hu & Hi & _).
  destruct (number_taken _ db) eqn:Hfree;
    [eexists _, _; split; [reflexivity|]; split; [exact Hu|by left]|].
  destruct (fits_decimal_12_2 _); eexists _, _; (split; [reflexivity|]);
    (eapply numbered_creation with (dbc := dbc);
       [exact Hu|exact Hi|reflexivity|reflexivity|reflexivity|reflexivity|reflexivity|]);
    first [by left|by right].
Qed.

Lemma entry_point_by_count cal uuid userId create :
  entry_point cal uuid userId create -> numbers_by_count userId create.
Proof.
  intros [now params|now clientName amount description dueInDays|now body Hown].
  - apply service_creation_by_count.
  - apply step_creation_by_count.
  - by apply route_creation_by_count.
Qed.

(** Creations one after the other hand out increasing numbers. *)
Lemma numbers_increase userId (creations : list Creation) (db : Db) :
  Forall (numbers_by_count userId) creations ->
  let answers := fst (create_in_turn creations db) in
  let count := length (select_invoices_of userId db) in
  (exists ks,
     handed_out answers = map invoiceNumber_after ks /\
     StronglySorted lt ks /\
     Forall (fun k => count <= k < count + length creations) ks) /\
  Forall (fun number => number_taken number db = false) (handed_out answers) /\
  (Forall is_Some answers -> answers = map nth_number (seq count (length creations))).
Proof.
  intros Hall. revert db.
  induction Hall as [|create rest Hc _ IH]; intros db; cbv zeta.
  - split; [exists []; repeat split; constructor|]. split; [constructor|reflexivity].
  - destruct (Hc db) as (answer & db1 & Hrun & Hus & Hcase).
    cbn [create_in_turn]. rewrite Hrun.
    specialize (IH db1). cbv zeta in IH.
    destruct (create_in_turn rest db1) as [answers db2]. cbn [fst] in *.
    destruct IH as ((ks & Hks & Hsorted & Hbounds) & Hfree & Hsome).
    destruct Hcase as [[-> Hinvs]|(inv & Hnew & Hn & Hown & Hinvs & Hanswer)].
    + assert (Hcount : select_invoices_of userId db1 = select_invoices_of userId db)
        by (unfold select_invoices_of; by rewrite Hinvs).
      rewrite Hcount in *. cbn [handed_out omap]. fold (handed_out answers).
      split; [|split].
      * exists ks. split; [exact Hks|]. split; [exact Hsorted|].
        eapply Forall_impl; [exact Hbounds|]. cbn [length]. intros k Hk. simpl in Hk. lia.
      * eapply Forall_impl; [exact Hfree|]. intros number H. simpl in H.
        unfold number_taken in *. by rewrite <- Hinvs.
      * intros Hs. apply Forall_cons in Hs as [[? [=]] _].
    + assert (Hcount : length (select_invoices_of userId db1)
                       = S (length (select_invoices_of userId db))).
      { unfold select_invoices_of. rewrite Hinvs, List.filter_app, length_app. simpl.
        rewrite Hown, Nat.eqb_refl. simpl. lia. }
      rewrite Hcount in *.
      assert (Hfree0 : Forall (fun number => number_taken number db = false)
                              (handed_out answers)).
      { eapply Forall_impl; [exact Hfree|]. intros number H. simpl in H.
        rewrite (number_taken_app number db db1 inv Hinvs) in H.
        by apply orb_false_iff in H as [H _]. }
      assert (Hbounds0 : Forall (fun k => length (select_invoices_of userId db) <= k
                                          < length (select_invoices_of userId db)
                                            + length (create :: rest)) ks).
      { eapply Forall_impl; [exact Hbounds|]. cbn [length]. intros k Hk. simpl in Hk. lia. }
      destruct Hanswer as [-> | ->].
      * cbn [handed_out omap]. fold (handed_out answers).
        split; [exists ks; done|]. split; [exact Hfree0|].
        intros Hs. apply Forall_cons in Hs as [[? [=]] _].
      * unfold nth_number at 1 2. cbn [handed_out omap id]. fold (handed_out answers).
        split; [|split].
        -- exists (length (select_invoices_of userId db) :: ks).
           split; [simpl; by rewrite Hks|]. split.
           ++ constructor; [exact Hsorted|].
              eapply Forall_impl; [exact Hbounds|]. intros k Hk. simpl in Hk. lia.
           ++ constructor; [cbn [length]; lia|exact Hbounds0].
        -- constructor; [exact Hnew|exact Hfree0].
        -- intros Hs. apply Forall_cons in Hs as [_ Hs].
           cbn [length seq map]. unfold nth_number at 1. f_equal. by apply Hsome.
Qed.

(** X9: Through whichever of the three entry points a user creates invoices,
    one after the other, and whether the creations succeed or not, no
    number is handed out twice: the numbers handed out are the numbers
    after increasing counts, from the count of the user's invoices on, and
    no row of the table carried one of them.  When every creation
    succeeds the numbers are those after the counts [count], [count + 1],
    ..., with no gap. *)
Theorem numbers_through_every_entry_point
    (cal : Calendar) (uuid : string -> option Id) (userId : Id)
    (creations : list Creation) (db : Db) :
  Forall (entry_point cal uuid userId) creations ->
  let answers := fst (create_in_turn creations db) in
  let count := length (select_invoices_of userId db) in
  (exists ks,
     handed_out answers = map invoiceNumber_after ks /\
     StronglySorted lt ks /\
     Forall (fun k => count <= k < count + length creations) ks) /\
  List.NoDup (handed_out answers) /\
  Forall (fun number => number_taken number db = false) (handed_out answers) /\
  (Forall is_Some answers ->
   answers = map (fun k => Some (invoiceNumber_after k)) (seq count (length creations))).
Proof.
  intros Hall answers count.
  assert (Hspec : Forall (numbers_by_count userId) creations).
  { eapply Forall_impl; [exact Hall|]. intros c. apply entry_point_by_count. }
  destruct (numbers_increase userId creations db Hspec) as (Hks & Hfree & Hsome).
  cbv zeta in *. fold answers count in Hks, Hfree, Hsome.
  split; [exact Hks|]. split; [|split; [exact Hfree|exact Hsome]].
  destruct Hks as (ks & -> & Hsorted & _).
  apply Finite.Injective_map_NoDup; [intros i j; apply invoiceNumber_after_inj|].
  clear -Hsorted. induction Hsorted as [|k ks _ IH Hk]; constructor; [|exact IH].
  intros Hin. rewrite List.Forall_forall in Hk. apply Hk in Hin. lia.
Qed.

(** User 1 creates an invoice through the service, a workflow step and
    the endpoint: INV-0001, INV-0002 and INV-0003. *)
Lemma numbers_of_user_1_through_every_entry_point :
  let creations :=
    [service_creation plain_calendar 1000%Z 1 abc_params;
     step_creation plain_calendar 1000%Z 1 "ABC Company" 500 "website design" 30;
     route_creation plain_calendar demo_uuid 1000%Z abc_form] in
  fst (create_in_turn creations two_users)
  = [Some "INV-0001"; Some "INV-0002"; Some "INV-0003"] /\
  let answers := fst (create_in_turn creations two_users) in
  let count := length (select_invoices_of 1 two_users) in
  (exists ks,
     handed_out answers = map invoiceNumber_after ks /\
     StronglySorted lt ks /\
     Forall (fun k => count <= k < count + length creations) ks) /\
  List.NoDup (handed_out answers) /\
  Forall (fun number => number_taken number two_users = false) (handed_out answers) /\
  (Forall is_Some answers ->
   answers = map (fun k => Some (invoiceNumber_after k)) (seq count (length creations))).
Proof.
  split; [vm_compute; reflexivity|].
  apply (numbers_through_every_entry_point plain_calendar demo_uuid 1).
  repeat constructor.
  intros form Hform. vm_compute in Hform. by injection Hform as <-.
Defined.

(** An invoice whose line is refused uses up its number: after a creation
    whose subtotal of 10 000 000 000 does not fit the column, the next
    invoice of the user is INV-0002. *)
Example refused_line_uses_up_a_number :
  fst (create_in_turn
         [service_creation plain_calendar 1000%Z 1 huge_params;
          service_creation plain_calendar 1000%Z 1 abc_params]
         two_users)
  = [None; Some "INV-0002"] /\
  exists db1,
    AIService.createInvoice plain_calendar 1000%Z 1 huge_params two_users
    = (AIService.NotCreated apology, db1) /\
    map inv_invoiceNumber (invoices db1) = ["INV-0001"] /\
    invoiceItems db1 = [].
Proof.
  split; [vm_compute; reflexivity|].
  eexists. split; [vm_compute; reflexivity|]. split; reflexivity.
Qed.

(** X10: For a request that the schema of each of the three entry points
    accepts, with the VAT included, the entry points create the same
    invoice: for the same user, client, amount, description and term they
    give the same number and leave the same store, whether the creation
    succeeds or not.  The schemas differ: the endpoint refuses an empty
    client name or description, which the service and the step accept. *)
Theorem entry_points_create_alike (cal : Calendar) (uuid : string -> option Id)
    (now : Timestamp) (userId : Id) (params body : gmap string JsVal)
    (v : AIService.CreateInvoiceParams) (db : Db) :
  AIService.CreateInvoiceSchema params = Ok v ->
  AIService.vatIncluded v = true ->
  route_CreateInvoiceSchema uuid body
  = Ok (mkInvoiceForm userId (AIService.clientName v) (AIService.amount v)
                      (AIService.description v) (AIService.dueInDays v)) ->
  route_creation cal uuid now body db = service_creation cal now userId params db /\
  step_creation cal now userId (AIService.clientName v) (AIService.amount v)
                (AIService.description v) (AIService.dueInDays v) db
  = service_creation cal now userId params db.
Proof.
  intros Hv Hincl Hform.
  unfold route_creation, postInvoice, step_creation, service_creation,
    AIService.createInvoice.
  rewrite postInvoice_try_eq, executeCreateInvoice_eq, createInvoice_try_eq, Hv, Hform.
  cbn [form_userId form_clientName form_amount form_description form_dueInDays].
  destruct (limit1 (select_users userId db)) as [|u us]; [split; reflexivity|].
  destruct (resolve_client userId (AIService.clientName v) db) as [c dbc]. cbv zeta.
  destruct (number_taken _ db); [split; reflexivity|].
  unfold calculateAmounts. rewrite Hincl. cbn [subtotal].
  destruct (fits_decimal_12_2 _); split; reflexivity.
Qed.

(** The invoice of [abc_params] through the three entry points. *)
Lemma abc_invoice_is_created_alike :
  route_creation plain_calendar demo_uuid 1000%Z abc_form two_users
  = service_creation plain_calendar 1000%Z 1 abc_params two_users /\
  step_creation plain_calendar 1000%Z 1 "ABC Company" 500 "website design" 30 two_users
  = service_creation plain_calendar 1000%Z 1 abc_params two_users.
Proof.
  apply (entry_points_create_alike plain_calendar demo_uuid 1000%Z 1 abc_params abc_form
           (AIService.mkCreateInvoiceParams "ABC Company" 500 "website design" 30 true)
           two_users).
  - vm_compute. reflexivity.
  - reflexivity.
  - vm_compute. reflexivity.
Defined.

(** X11: Without a transaction around the inserts, a creation that the store
    refuses for its number leaves the client it has just added. *)
Theorem refused_number_leaves_the_client (cal : Calendar) (now : Timestamp)
    (userId : Id) (params : gmap string JsVal) (v : AIService.CreateInvoiceParams)
    (db : Db) :
  AIService.CreateInvoiceSchema params = Ok v ->
  select_users userId db <> [] ->
  select_clients userId (AIService.clientName v) db = [] ->
  number_taken (invoiceNumber_after (length (select_invoices_of userId db))) db = true ->
  AIService.createInvoice cal now userId params db
  = (AIService.NotCreated apology,
     with_client (mkClient (nextId db) userId (AIService.clientName v)) db).
Proof.
  intros Hv Hu Hc Ht. unfold AIService.createInvoice.
  rewrite createInvoice_try_eq, Hv.
  destruct (limit1 (select_users userId db)) as [|u us] eqn:Eu.
  { destruct (select_users userId db); [done|discriminate]. }
  unfold resolve_client. rewrite Hc. cbn [limit1 firstn]. cbv zeta. rewrite Ht.
  reflexivity.
Qed.

(** User 2 asks for an invoice in [invoiced_store], where INV-0001 is taken. *)
Lemma refused_number_leaves_the_client_of_user_2 :
  AIService.createInvoice plain_calendar 2000%Z 2 abc_params invoiced_store
  = (AIService.NotCreated apology,
     with_client (mkClient (nextId invoiced_store) 2 "ABC Company") invoiced_store).
Proof.
  apply (refused_number_leaves_the_client plain_calendar 2000%Z 2 abc_params
           (AIService.mkCreateInvoiceParams "ABC Company" 500 "website design" 30 true)
           invoiced_store).
  - vm_compute. reflexivity.
  - vm_compute. discriminate.
  - vm_compute. reflexivity.
  - vm_compute. reflexivity.
Defined.




Lemma cents_split (A : Z) :
  (0 <= A)%Z -> ((40 * A + 23) / 46 + (6 * A + 23) / 46 = A)%Z.
Proof. intros HA. Z.div_mod_to_equations. lia. Qed.

Lemma cents_whole (A : Z) : ((46 * A + 23) / 46 = A)%Z.
Proof. Z.div_mod_to_equations. lia. Qed.

Lemma Number_toFixed_2_of (x : Q) (n : Z) (d : positive) :
  (0 <= x)%Q -> (x * 100 + (1 # 2) == inject_Z n / inject_Z (Z.pos d))%Q ->
  (Number_toFixed 2 x == inject_Z (n / Z.pos d) / 100)%Q.
Proof.
  intros Hx Hn. unfold Number_toFixed, nearest_scaled.
  replace (Qltb x 0) with false by (symmetry; apply Qltb_ge; exact Hx).
  change (inject_Z (10 ^ Z.of_nat 2)) with (inject_Z 100).
  assert (Hfloor : Qfloor (x * inject_Z 100 + (1 # 2)) = (n / Z.pos d)%Z).
  { change (n / Z.pos d)%Z with (Qfloor (n # d)). apply Qfloor_comp.
    rewrite (Qmake_Qdiv n d), <- Hn. reflexivity. }
  rewrite Hfloor. reflexivity.
Qed.

(** An odd number of 46ths is at least one 46th away from 0. *)
Lemma odd_46ths (k : Z) (x : Q) :
  Z.odd k = true -> (x == inject_Z k / 46)%Q -> (x <= - (1 # 46) \/ 1 # 46 <= x)%Q.
Proof.
  intros Hodd Hx.
  assert (E : (x == inject_Z k * (1 # 46))%Q) by (rewrite Hx; field).
  assert (Hk : (k <= -1 \/ 1 <= k)%Z) by (destruct k; [discriminate|lia|lia]).
  destruct Hk as [Hk|Hk]; rewrite Zle_Qle in Hk.
  - left. change (inject_Z (-1)) with (-1)%Q in Hk. rewrite E.
    remember (inject_Z k) as q eqn:Eq. clear Eq. lra.
  - right. change (inject_Z 1) with 1%Q in Hk. rewrite E.
    remember (inject_Z k) as q eqn:Eq. clear Eq. lra.
Qed.

(** X13: The amounts shown for an invoice with the VAT included add up: for
    an amount in whole cents, the rounded subtotal and the rounded VAT
    give the rounded total, which is the amount.  Neither the subtotal
    nor the VAT is rounded near a tie: in cents, both are at least 1/46
    away from every half. *)
Theorem shown_amounts_add_up (cal : Calendar) (now : Timestamp) (userId : Id)
    (params : gmap string JsVal) (db db1 : Db) (invoice : Invoice) (client : Client)
    (amounts : Amounts) (message : string) (a : Q) (n : Z) :
  AIService.createInvoice cal now userId params db
  = (AIService.Created invoice client amounts message, db1) ->
  inv_vatIncluded invoice = true ->
  prop params "amount" = JNum a ->
  (a == inject_Z n / 100)%Q ->
  (subtotal amounts + vatAmount amounts == total amounts)%Q /\
  (total amounts == a)%Q /\
  forall m : Z,
    let half := (inject_Z m + (1 # 2))%Q in
    (a / (1 + vatRate) * 100 - half <= - (1 # 46) \/
     1 # 46 <= a / (1 + vatRate) * 100 - half)%Q /\
    ((a - a / (1 + vatRate)) * 100 - half <= - (1 # 46) \/
     1 # 46 <= (a - a / (1 + vatRate)) * 100 - half)%Q.
Proof.
  intros Hcreate Hincl Ha Hcents.
  unfold AIService.createInvoice in Hcreate. rewrite createInvoice_try_eq in Hcreate.
  destruct (AIService.CreateInvoiceSchema params) as [v|e] eqn:Hv; [|discriminate].
  destruct (CreateInvoiceSchema_amount params v Hv) as [Hamount Hpos].
  rewrite Ha in Hamount. injection Hamount as Hamount. rewrite <- Hamount in Hpos.
  destruct (limit1 (select_users userId db)); [discriminate|].
  destruct (resolve_client userId (AIService.clientName v) db) as [c dbc].
  cbv zeta in Hcreate.
  destruct (number_taken _ db); [discriminate|].
  destruct (fits_decimal_12_2 _); [|discriminate].
  injection Hcreate as Hinv _ Hamounts _ _. subst invoice amounts.
  cbn [new_invoice inv_vatIncluded] in Hincl.
  cbn [subtotal vatAmount total]. rewrite <- Hamount, Hincl.
  assert (Hq : (0 <= inject_Z n)%Q).
  { assert (E : (inject_Z n == a * 100)%Q) by (rewrite Hcents; field).
    rewrite E. lra. }
  assert (Hc : (0 <= n)%Z) by (by rewrite Zle_Qle).
  unfold calculateAmounts, vatRate. cbn [subtotal vatAmount total].
  split; [|split].
  - rewrite (Number_toFixed_2_of (a / (1 + (15 # 100))) (40 * n + 23) 46),
      (Number_toFixed_2_of (a - a / (1 + (15 # 100))) (6 * n + 23) 46),
      (Number_toFixed_2_of a (46 * n + 23) 46).
    + rewrite cents_whole. rewrite <- (cents_split n Hc) at 3.
      rewrite inject_Z_plus. field.
    + lra.
    + rewrite Hcents, inject_Z_plus, inject_Z_mult. field.
    + assert (E : (a - a / (1 + (15 # 100)) == a * (15 # 115))%Q) by field.
      rewrite E. lra.
    + rewrite Hcents, inject_Z_plus, inject_Z_mult. field.
    + assert (E : (a / (1 + (15 # 100)) == a * (100 # 115))%Q) by field.
      rewrite E. lra.
    + rewrite Hcents, inject_Z_plus, inject_Z_mult. field.
  - rewrite (Number_toFixed_2_of a (46 * n + 23) 46).
    + rewrite cents_whole, Hcents. reflexivity.
    + lra.
    + rewrite Hcents, inject_Z_plus, inject_Z_mult. field.
  - intros m. cbv zeta. split.
    + apply (odd_46ths (40 * n - 46 * m - 23)).
      * rewrite !Z.odd_sub, !Z.odd_mul. reflexivity.
      * unfold Z.sub. rewrite Hcents, !inject_Z_plus, !inject_Z_opp, !inject_Z_mult. field.
    + apply (odd_46ths (6 * n - 46 * m - 23)).
      * rewrite !Z.odd_sub, !Z.odd_mul. reflexivity.
      * unfold Z.sub. rewrite Hcents, !inject_Z_plus, !inject_Z_opp, !inject_Z_mult. field.
Qed.

(** The amounts shown for the invoice of [abc_params], an amount of
    50000 cents: 434.78 and 65.22. *)
Lemma abc_amounts_add_up :
  exists invoice client amounts message db1,
    AIService.createInvoice plain_calendar 1000%Z 1 abc_params two_users
    = (AIService.Created invoice client amounts message, db1) /\
    (subtotal amounts == 434.78)%Q /\ (vatAmount amounts == 65.22)%Q /\
    (subtotal amounts + vatAmount amounts == total amounts)%Q /\
    (total amounts == 500)%Q /\
    forall m : Z,
      let half := (inject_Z m + (1 # 2))%Q in
      (500 / (1 + vatRate) * 100 - half <= - (1 # 46) \/
       1 # 46 <= 500 / (1 + vatRate) * 100 - half)%Q /\
      ((500 - 500 / (1 + vatRate)) * 100 - half <= - (1 # 46) \/
       1 # 46 <= (500 - 500 / (1 + vatRate)) * 100 - half)%Q.
Proof.
  eexists _, _, _, _, _. split; [vm_compute; reflexivity|].
  split; [reflexivity|]. split; [reflexivity|].
  eapply (shown_amounts_add_up plain_calendar 1000%Z 1 abc_params two_users _ _ _ _ _
            500 50000).
  - vm_compute. reflexivity.
  - reflexivity.
  - vm_compute. reflexivity.
  - reflexivity.
Defined.

(** ** Logging an expense *)







(** ** The summary of the service *)

(** X16: The summary of the service shows what the report of the reports
    endpoint holds for the same user and period, rounded to cents, and
    reads the store without writing. *)
Theorem summary_agrees_with_the_report (cal : Calendar) (now : Timestamp) (userId : Id)
    (params : gmap string JsVal) (p : FinancialSummaryParams) (db : Db) :
  FinancialSummarySchema params = Ok p ->
  let report :=
    reports_generateFinancialSummary userId (period_start cal now (fsp_period p)) now db in
  exists s message,
    getFinancialSummary cal now userId params db = (Summarized s message, db) /\
    ss_startDate s = period_startDate report /\
    ss_endDate s = period_endDate report /\
    ss_totalRevenue s = Number_toFixed 2 (revenue_total report) /\
    ss_totalExpenses s = Number_toFixed 2 (expenses_total report) /\
    ss_netProfit s = Number_toFixed 2 (profit_net report) /\
    ss_invoiceCount s = revenue_invoiceCount report /\
    ss_expenseCount s = expenses_expenseCount report.
Proof.
  intros Hp report.
  unfold getFinancialSummary, getFinancialSummary_try, bind, lift, query, ret.
  rewrite Hp. eexists _, _. split; [reflexivity|]. repeat split.
Qed.

(** The summary of the month for user 1 in [two_users]. *)
Lemma month_summary_agrees_with_the_report :
  let report := reports_generateFinancialSummary 1 1000%Z 1000%Z two_users in
  exists s message,
    getFinancialSummary plain_calendar 1000%Z 1 (<["period" := JStr "month"]> ∅) two_users
    = (Summarized s message, two_users) /\
    ss_startDate s = period_startDate report /\
    ss_endDate s = period_endDate report /\
    ss_totalRevenue s = Number_toFixed 2 (revenue_total report) /\
    ss_totalExpenses s = Number_toFixed 2 (expenses_total report) /\
    ss_netProfit s = Number_toFixed 2 (profit_net report) /\
    ss_invoiceCount s = revenue_invoiceCount report /\
    ss_expenseCount s = expenses_expenseCount report.
Proof.
  apply (summary_agrees_with_the_report plain_calendar 1000%Z 1
           (<["period" := JStr "month"]> ∅)
           (mkFinancialSummaryParams Workflow.month None None) two_users).
  vm_compute. reflexivity.
Defined.

(** ** The chat endpoint *)

Lemma getFinancialSummary_reads_only cal now userId params db :
  snd (getFinancialSummary cal now userId params db) = db.
Proof.
  unfold getFinancialSummary, getFinancialSummary_try, bind, lift, query, ret.
  destruct (FinancialSummarySchema params); reflexivity.
Qed.

Lemma select_users_none userId db :
  select_users userId db = [] ->
  limit1 (select_users userId db) = [] /\
  existsb (fun u => user_id u =? userId)%nat (users db) = false.
Proof.
  intros Hnone. split; [by rewrite Hnone|].
  destruct (existsb _ (users db)) eqn:Hu; [|reflexivity].
  apply existsb_exists in Hu as (u & Hin & Hid).
  assert (Hf : In u (select_users userId db)) by (apply filter_In; done).
  rewrite Hnone in Hf. destruct Hf.
Qed.

Lemma createInvoice_unknown_user cal now userId params db :
  select_users userId db = [] ->
  AIService.createInvoice cal now userId params db = (AIService.NotCreated apology, db).
Proof.
  intros Hnone. apply select_users_none in Hnone as [Hnone _].
  unfold AIService.createInvoice. rewrite createInvoice_try_eq, Hnone.
  destruct (AIService.CreateInvoiceSchema params); reflexivity.
Qed.

Lemma logExpense_unknown_user parseDate now userId params db :
  select_users userId db = [] ->
  snd (logExpense parseDate now userId params db) = db.
Proof.
  intros Hnone. apply select_users_none in Hnone as [_ Hnone].
  unfold logExpense, logExpense_try, bind, lift, insert_expense, decimal_12_2.
  destruct (LogExpenseSchema params) as [v|e]; [|reflexivity].
  destruct (expense_date parseDate now (le_date v)); [|reflexivity].
  rewrite Hnone.
  destruct (fits_decimal_12_2 (le_amount v)); [|reflexivity].
  destruct (fits_decimal_12_2 (le_amount v * _)); reflexivity.
Qed.

Section ChatProperties.
Variable cal : Calendar.
Variable parseDate : string -> option Timestamp.
Variable code_units : string -> nat.
Variable uuid : string -> option Id.
Variable is_record : JsVal -> bool.
Variable generateObject : string -> Exc IntentResult.

Lemma chat_valid now body db message userId :
  ChatRequestSchema code_units uuid is_record body = Ok (message, userId) ->
  chat cal parseDate code_units uuid is_record generateObject now body db
  = (let aiResult := processQuery generateObject userId message in
     let '(responseMessage, responseData, db') :=
       handle_intent cal parseDate now userId aiResult db in
     (mkChatResponse 200
        (ChatAnswer responseMessage (intent aiResult) (confidence aiResult) responseData),
      db')).
Proof. intros H. unfold chat. rewrite H. reflexivity. Qed.

Lemma chat_invalid now body db e :
  ChatRequestSchema code_units uuid is_record body = Throw e ->
  snd (chat cal parseDate code_units uuid is_record generateObject now body db) = db.
Proof.
  intros H. unfold chat. rewrite H. destruct e as [[] ?|?]; reflexivity.
Qed.

Lemma handle_intent_store now userId aiResult db :
  snd (handle_intent cal parseDate now userId aiResult db)
  = if String.eqb (intent aiResult) "INVOICE_CREATE"
    then snd (AIService.createInvoice cal now userId (parameters aiResult) db)
    else if String.eqb (intent aiResult) "EXPENSE_LOG"
    then snd (logExpense parseDate now userId (parameters aiResult) db)
    else db.
Proof.
  unfold handle_intent.
  destruct (String.eqb (intent aiResult) "INVOICE_CREATE").
  { destruct (AIService.createInvoice _ _ _ _ _); reflexivity. }
  destruct (String.eqb (intent aiResult) "EXPENSE_LOG").
  { destruct (logExpense _ _ _ _ _); reflexivity. }
  destruct (String.eqb (intent aiResult) "FINANCIAL_SUMMARY").
  { pose proof (getFinancialSummary_reads_only cal now userId (parameters aiResult) db) as H.
    destruct (getFinancialSummary _ _ _ _ _). simpl in *. congruence. }
  destruct (String.eqb (intent aiResult) "INVOICE_LIST"); [reflexivity|].
  destruct (String.eqb (intent aiResult) "HELP"); reflexivity.
Qed.

Lemma chat_store now body db message userId :
  ChatRequestSchema code_units uuid is_record body = Ok (message, userId) ->
  snd (chat cal parseDate code_units uuid is_record generateObject now body db)
  = snd (handle_intent cal parseDate now userId
           (processQuery generateObject userId message) db).
Proof.
  intros H. rewrite (chat_valid now body db message userId H). cbv zeta.
  destruct (handle_intent _ _ _ _ _ _) as [[m d] db']. reflexivity.
Qed.

(** X17: The chat endpoint writes to the store only for a valid request of a
    known user whose message was resolved to the creation of an invoice
    or to the logging of an expense. *)
Theorem chat_writes_only_when (now : Timestamp) (body : gmap string JsVal) (db : Db) :
  snd (chat cal parseDate code_units uuid is_record generateObject now body db) <> db ->
  exists message userId,
    ChatRequestSchema code_units uuid is_record body = Ok (message, userId) /\
    select_users userId db <> [] /\
    (intent (processQuery generateObject userId message) = "INVOICE_CREATE" \/
     intent (processQuery generateObject userId message) = "EXPENSE_LOG").
Proof.
  intros Hwrites.
  destruct (ChatRequestSchema code_units uuid is_record body) as [[message userId]|e] eqn:Hbody.
  2:{ exfalso. apply Hwrites. by apply (chat_invalid now body db e). }
  exists message, userId. split; [reflexivity|].
  rewrite (chat_store now body db message userId Hbody), handle_intent_store in Hwrites.
  split.
  - intros Hnone. apply Hwrites.
    rewrite (createInvoice_unknown_user cal now userId _ db Hnone),
      (logExpense_unknown_user parseDate now userId _ db Hnone).
    destruct (String.eqb _ "INVOICE_CREATE"); [reflexivity|].
    destruct (String.eqb _ "EXPENSE_LOG"); reflexivity.
  - destruct (String.eqb_spec (intent (processQuery generateObject userId message))
                "INVOICE_CREATE") as [Hi|_]; [by left|].
    destruct (String.eqb_spec (intent (processQuery generateObject userId message))
                "EXPENSE_LOG") as [He|_]; [by right|].
    by destruct Hwrites.
Qed.

(** X18: When the call of the model fails, a valid request is still answered
    with status 200 and [success: true]: the intent is HELP with
    confidence 0, the message is the help text, not the apology that
    [processQuery] put into [response], and nothing is written. *)
Theorem chat_without_the_model (now : Timestamp) (body : gmap string JsVal) (db : Db)
    (message : string) (userId : Id) :
  ChatRequestSchema code_units uuid is_record body = Ok (message, userId) ->
  (exists e, generateObject ("User query: " +:+ double_quote +:+ message +:+ double_quote)
             = Throw e) ->
  chat cal parseDate code_units uuid is_record generateObject now body db
  = (mkChatResponse 200 (ChatAnswer help_text "HELP" 0 NoData), db) /\
  help_text <> response (processQuery generateObject userId message).
Proof.
  intros Hbody [e He]. rewrite (chat_valid now body db message userId Hbody).
  unfold processQuery. rewrite He. split; [reflexivity|].
  cbn [response]. intros H. vm_compute in H. discriminate H.
Qed.

End ChatProperties.

(** The same request while the model cannot be reached. *)
Lemma chat_while_the_model_is_offline :
  chat plain_calendar no_dates String.length demo_uuid plain_record model_offline 1000%Z abc_chat two_users
  = (mkChatResponse 200 (ChatAnswer help_text "HELP" 0 NoData), two_users) /\
  help_text
  <> response (processQuery model_offline 1
                 "Create invoice for R500 website design for ABC Company").
Proof.
  apply (chat_without_the_model plain_calendar no_dates String.length demo_uuid plain_record
           model_offline 1000%Z abc_chat two_users).
  - vm_compute. reflexivity.
  - eexists. reflexivity.
Defined.

(** A chat request of user 1 that the model resolves to the creation of an invoice. *)
Lemma chat_that_creates_an_invoice_writes :
  exists message userId,
    ChatRequestSchema String.length demo_uuid plain_record abc_chat = Ok (message, userId) /\
    select_users userId two_users <> [] /\
    (intent (processQuery invoice_intent userId message) = "INVOICE_CREATE" \/
     intent (processQuery invoice_intent userId message) = "EXPENSE_LOG").
Proof.
  apply (chat_writes_only_when plain_calendar no_dates String.length demo_uuid plain_record
           invoice_intent 1000%Z abc_chat two_users).
  vm_compute. discriminate.
Defined.

(** ** The expenses endpoint *)

Lemma select_users_some userId db :
  select_users userId db <> [] ->
  (exists u us, limit1 (select_users userId db) = u :: us) /\
  existsb (fun u => user_id u =? userId)%nat (users db) = true.
Proof.
  intros Hsome. destruct (select_users userId db) as [|u us] eqn:Hsel; [done|].
  split; [by exists u, []|].
  apply existsb_exists. exists u.
  assert (Hin : In u (select_users userId db)) by (rewrite Hsel; by left).
  by apply filter_In in Hin.
Qed.

Lemma postExpense_store parseDate uuid now body form db :
  CreateExpenseSchema uuid body = Ok form ->
  snd (postExpense parseDate uuid now body db)
  = snd (insert_expense (ef_userId form) (ef_description form) (ef_amount form) "ZAR"
           (ef_category form)
           (match expense_date parseDate now (ef_date form) with
            | Ok d => d | Throw _ => now end)
           None (ef_amount form * (vatRate / (1 + vatRate)))%Q db) \/
  snd (postExpense parseDate uuid now body db) = db.
Proof.
  intros Hform. unfold postExpense, postExpense_try, bind, lift, query, ret.
  rewrite Hform.
  destruct (limit1 (select_users (ef_userId form) db)); [right; reflexivity|].
  cbn [length Nat.eqb].
  destruct (expense_date parseDate now (ef_date form)) as [d|e].
  2:{ right. destruct e as [[] ?|?]; reflexivity. }
  left.
  destruct (insert_expense _ _ _ _ _ _ _ _ db) as [[rows|e] db1].
  - destruct rows; reflexivity.
  - destruct e as [[] ?|?]; reflexivity.
Qed.

(** X19: For a request that the schema of the service and the schema of
    the endpoint both accept, the two log an expense alike: for the same
    user, description, amount, category and date, and no receipt, they
    leave the same store, with the same amount and VAT on the expense;
    for a user the store does not know, neither writes.  The schemas
    differ: the endpoint refuses an empty description or category, which
    the service accepts. *)
Theorem expenses_are_logged_alike (parseDate : string -> option Timestamp)
    (uuid : string -> option Id) (now : Timestamp) (userId : Id)
    (params body : gmap string JsVal) (v : LogExpenseParams) (db : Db) :
  LogExpenseSchema params = Ok v ->
  le_receipt v = None ->
  CreateExpenseSchema uuid body
  = Ok (mkExpenseForm userId (le_description v) (le_amount v) (le_category v)
                      (le_date v)) ->
  snd (postExpense parseDate uuid now body db)
  = snd (logExpense parseDate now userId params db) /\
  (select_users userId db = [] ->
   postExpense parseDate uuid now body db
   = (mkExpensesResponse 404 (ExpensesError "User not found"), db) /\
   logExpense parseDate now userId params db
   = (NotLogged "Sorry, there was an error logging your expense. Please try again.", db)).
Proof.
  intros Hv Hreceipt Hform.
  unfold postExpense, postExpense_try, logExpense, logExpense_try, bind, lift, query, ret.
  rewrite Hv, Hform, Hreceipt.
  cbn [ef_userId ef_description ef_amount ef_category ef_date].
  split.
  - assert (Hcase : select_users userId db = [] \/ select_users userId db <> [])
      by (destruct (select_users userId db); [by left|by right]).
    destruct Hcase as [Hsel|Hsome].
    + destruct (select_users_none userId db Hsel) as [-> Hex].
      cbn [length Nat.eqb]. unfold insert_expense, decimal_12_2. rewrite Hex.
      destruct (expense_date parseDate now (le_date v)); [|reflexivity].
      destruct (fits_decimal_12_2 (le_amount v)); [|reflexivity].
      destruct (fits_decimal_12_2 (le_amount v * _)); reflexivity.
    + destruct (select_users_some userId db Hsome) as [(u' & us' & ->) Hex].
      cbn [length Nat.eqb].
      destruct (expense_date parseDate now (le_date v)) as [d|e].
      * unfold insert_expense, decimal_12_2. rewrite Hex.
        destruct (fits_decimal_12_2 (le_amount v)); [|reflexivity].
        destruct (fits_decimal_12_2 (le_amount v * _)); reflexivity.
      * destruct e as [[] ?|?]; reflexivity.
  - intros Hsel. destruct (select_users_none userId db Hsel) as [-> Hex].
    split; [reflexivity|].
    unfold insert_expense, decimal_12_2. rewrite Hex.
    destruct (expense_date parseDate now (le_date v)); [|reflexivity].
    destruct (fits_decimal_12_2 (le_amount v)); [|reflexivity].
    destruct (fits_decimal_12_2 (le_amount v * _)); reflexivity.
Qed.

(** The expense of [fuel_params] through the service and through the endpoint. *)
Lemma fuel_expense_is_logged_alike :
  snd (postExpense no_dates demo_uuid 1000%Z fuel_form two_users)
  = snd (logExpense no_dates 1000%Z 1 fuel_params two_users) /\
  (select_users 1 two_users = [] ->
   postExpense no_dates demo_uuid 1000%Z fuel_form two_users
   = (mkExpensesResponse 404 (ExpensesError "User not found"), two_users) /\
   logExpense no_dates 1000%Z 1 fuel_params two_users
   = (NotLogged "Sorry, there was an error logging your expense. Please try again.",
      two_users)).
Proof.
  apply (expenses_are_logged_alike no_dates demo_uuid 1000%Z 1 fuel_params fuel_form
           (mkLogExpenseParams 450 "transport fuel" "Transport" None None) two_users).
  - vm_compute. reflexivity.
  - reflexivity.
  - vm_compute. reflexivity.
Defined.

(** ** The ledger stays consistent *)

Lemma ledger_ok_same_invoices (db db' : Db) :
  invoices db' = invoices db -> payments db' = payments db -> nextId db <= nextId db' ->
  ledger_ok db -> ledger_ok db'.
Proof.
  intros Hi Hp Hn [Hbelow Hnd Hpnd Hpaid]. split; rewrite ?Hi, ?Hp; try done.
  intros i Hin. apply Hbelow in Hin. lia.
Qed.

Lemma ledger_ok_resolve_client userId name db :
  ledger_ok db -> ledger_ok (snd (resolve_client userId name db)).
Proof.
  pose proof (resolve_client_keeps userId name db) as (_ & Hi & _ & Hp & _ & Hn).
  by apply ledger_ok_same_invoices.
Qed.

Lemma ledger_ok_with_invoice userId clientId number vatIncluded dueDate description
    lineTotal db :
  ledger_ok db ->
  ledger_ok (with_invoice (new_invoice userId clientId number vatIncluded dueDate db)
                          description lineTotal db).
Proof.
  intros [Hbelow Hnd Hpnd Hpaid]. split; cbn [with_invoice invoices payments nextId].
  - intros i Hi. apply in_app_or in Hi as [Hi|[<-|[]]].
    + apply Hbelow in Hi. lia.
    + simpl. lia.
  - rewrite map_app. apply List.NoDup_app; [exact Hnd| |].
    + repeat constructor. intros [].
    + intros x Hx [<-|[]]. apply in_map_iff in Hx as (i & Hid & Hi).
      apply Hbelow in Hi. simpl in Hid. lia.
  - exact Hpnd.
  - intros p Hp. destruct (Hpaid p Hp) as (i & Hi & Hrest).
    exists i. split; [apply in_or_app; by left|exact Hrest].
Qed.

Lemma ledger_ok_with_invoice_row userId clientId number vatIncluded dueDate db :
  ledger_ok db ->
  ledger_ok (with_invoice_row (new_invoice userId clientId number vatIncluded dueDate db)
                              db).
Proof.
  intros [Hbelow Hnd Hpnd Hpaid]. split; cbn [with_invoice_row invoices payments nextId].
  - intros i Hi. apply in_app_or in Hi as [Hi|[<-|[]]].
    + apply Hbelow in Hi. lia.
    + simpl. lia.
  - rewrite map_app. apply List.NoDup_app; [exact Hnd| |].
    + repeat constructor. intros [].
    + intros x Hx [<-|[]]. apply in_map_iff in Hx as (i & Hid & Hi).
      apply Hbelow in Hi. simpl in Hid. lia.
  - exact Hpnd.
  - intros p Hp. destruct (Hpaid p Hp) as (i & Hi & Hrest).
    exists i. split; [apply in_or_app; by left|exact Hrest].
Qed.

Lemma ledger_ok_createInvoice cal now userId params db :
  ledger_ok db -> ledger_ok (snd (AIService.createInvoice cal now userId params db)).
Proof.
  intros Hok. unfold AIService.createInvoice. rewrite createInvoice_try_eq.
  destruct (AIService.CreateInvoiceSchema params) as [v|e]; [|exact Hok].
  destruct (limit1 (select_users userId db)); [exact Hok|].
  pose proof (ledger_ok_resolve_client userId (AIService.clientName v) db Hok) as Hc.
  destruct (resolve_client userId (AIService.clientName v) db) as [c dbc]. cbv zeta.
  destruct (number_taken _ db); [exact Hc|].
    destruct (fits_decimal_12_2 _);
      [by apply ledger_ok_with_invoice|by apply ledger_ok_with_invoice_row].
Qed.

Lemma ledger_ok_postInvoice cal uuid now body db :
  ledger_ok db -> ledger_ok (snd (postInvoice cal uuid now body db)).
Proof.
  intros Hok. unfold postInvoice. rewrite postInvoice_try_eq.
  destruct (route_CreateInvoiceSchema uuid body) as [v|e].
  2:{ destruct e as [[] ?|?]; exact Hok. }
  destruct (limit1 (select_users (form_userId v) db)); [exact Hok|].
  pose proof (ledger_ok_resolve_client (form_userId v) (form_clientName v) db Hok) as Hc.
  destruct (resolve_client (form_userId v) (form_clientName v) db) as [c dbc]. cbv zeta.
  destruct (number_taken _ db); [exact Hc|].
    destruct (fits_decimal_12_2 _);
      [by apply ledger_ok_with_invoice|by apply ledger_ok_with_invoice_row].
Qed.

Lemma ledger_ok_insert_expense userId description amount currency category date receipt
    vatAmount db :
  ledger_ok db ->
  ledger_ok (snd (insert_expense userId description amount currency category date receipt
                                 vatAmount db)).
Proof.
  intros Hok. unfold insert_expense, decimal_12_2.
  destruct (fits_decimal_12_2 amount); [|exact Hok].
  destruct (fits_decimal_12_2 vatAmount); [|exact Hok].
  destruct (existsb _ (users db)); [|exact Hok].
  apply (ledger_ok_same_invoices db); simpl; try done. lia.
Qed.

Lemma ledger_ok_logExpense parseDate now userId params db :
  ledger_ok db -> ledger_ok (snd (logExpense parseDate now userId params db)).
Proof.
  intros Hok. unfold logExpense, logExpense_try, bind, lift.
  destruct (LogExpenseSchema params) as [v|e]; [|exact Hok].
  destruct (expense_date parseDate now (le_date v)) as [d|e]; [|exact Hok].
  pose proof (ledger_ok_insert_expense userId (le_description v) (le_amount v) "ZAR"
                (le_category v) d (le_receipt v)
                (le_amount v * (vatRate / (1 + vatRate)))%Q db Hok) as He.
  destruct (insert_expense _ _ _ _ _ _ _ _ db) as [[rows|e] db1]; [|exact He].
  destruct rows; exact He.
Qed.

Lemma ledger_ok_executeStep cal now step db :
  ledger_ok db -> ledger_ok (snd (Workflow.executeStep cal now step db)).
Proof.
  intros Hok.
  destruct step as [userId clientName amount description dueInDays
                   |userId amount description category date
                   |userId period reportType]; simpl.
  - rewrite executeCreateInvoice_eq.
    destruct (limit1 (select_users userId db)); [exact Hok|].
    pose proof (ledger_ok_resolve_client userId clientName db Hok) as Hc.
    destruct (resolve_client userId clientName db) as [c dbc]. cbv zeta.
    destruct (number_taken _ db); [exact Hc|].
    destruct (fits_decimal_12_2 _);
      [by apply ledger_ok_with_invoice|by apply ledger_ok_with_invoice_row].
  - unfold Workflow.executeLogExpense, bind.
    pose proof (ledger_ok_insert_expense userId description amount "ZAR" category
                  (match date with Some d => d | None => now end) None
                  (amount * (vatRate / (1 + vatRate)))%Q db Hok) as He.
    destruct (insert_expense _ _ _ _ _ _ _ _ db) as [[rows|e] db1]; [|exact He].
    destruct rows; exact He.
  - unfold Workflow.executeGenerateReport, Workflow.generateProfitLossReport,
      Workflow.generateFinancialSummary, Workflow.generateVATReport, bind, query, throw.
    destruct reportType; exact Hok.
Qed.

Lemma ledger_ok_postExpense parseDate uuid now body db :
  ledger_ok db -> ledger_ok (snd (postExpense parseDate uuid now body db)).
Proof.
  intros Hok.
  destruct (CreateExpenseSchema uuid body) as [form|e] eqn:Hform.
  - destruct (postExpense_store parseDate uuid now body form db Hform) as [-> | ->];
      [by apply ledger_ok_insert_expense|exact Hok].
  - unfold postExpense, postExpense_try, bind, lift. rewrite Hform.
    destruct e as [[] ?|?]; exact Hok.
Qed.

Lemma ledger_ok_chat cal parseDate code_units uuid is_record generateObject now body db :
  ledger_ok db ->
  ledger_ok (snd (chat cal parseDate code_units uuid is_record generateObject now body db)).
Proof.
  intros Hok.
  destruct (ChatRequestSchema code_units uuid is_record body)
    as [[message userId]|e] eqn:Hbody.
  2:{ by rewrite (chat_invalid cal parseDate code_units uuid is_record generateObject now
                    body db e). }
  rewrite (chat_store cal parseDate code_units uuid is_record generateObject now body db
             message userId Hbody), handle_intent_store.
  destruct (String.eqb _ "INVOICE_CREATE"); [by apply ledger_ok_createInvoice|].
  destruct (String.eqb _ "EXPENSE_LOG"); [by apply ledger_ok_logExpense|exact Hok].
Qed.

(** *** The world of a run *)

Section EngineWorld.
Context {World Step Result : Type}.
Variable executeStep : Step -> World -> Exc Result * World.
Variable good : World -> Prop.
Hypothesis good_step : forall step w, good w -> good (snd (executeStep step w)).

Lemma loop_keeps_world fuel (st st' : LoopState World Step Result) :
  good (world st) -> loop executeStep fuel st = Some st' -> good (world st').
Proof.
  revert st. induction fuel as [|fuel IH]; intros st Hgood Hloop; simpl in Hloop.
  - destruct (loop_guard st); [discriminate|]. by injection Hloop as <-.
  - destruct (loop_guard st); [|by injection Hloop as <-].
    destruct (steps (context st) !! currentStep (context st)) as [step|];
      [|by injection Hloop as <-].
    unfold loop_body in Hloop. pose proof (good_step step (world st) Hgood) as Hw.
    destruct (executeStep step (world st)) as [[result|error] w]; simpl in Hw.
    + apply IH in Hloop; [exact Hloop|exact Hw].
    + destruct (isRetriableError error); [apply IH in Hloop; [exact Hloop|exact Hw]|].
      by injection Hloop as <-.
Qed.
End EngineWorld.

Lemma ledger_ok_run cal now userId workflow db faults st :
  ledger_ok db ->
  run (Workflow.executeStep_in cal now) userId workflow (Workflow.mkEnv db faults) = Some st ->
  ledger_ok (Workflow.env_db (world st)).
Proof.
  intros Hok Hrun.
  apply (loop_keeps_world (Workflow.executeStep_in cal now)
           (fun env => ledger_ok (Workflow.env_db env))) with (3 := Hrun); [|exact Hok].
  intros step env Hgood. unfold Workflow.executeStep_in.
  pose proof (ledger_ok_executeStep cal now step (Workflow.env_db env) Hgood) as Hstep.
  destruct (Workflow.env_faults env) as [|[e|] faults'].
  - destruct (Workflow.executeStep cal now step (Workflow.env_db env)). exact Hstep.
  - exact Hgood.
  - destruct (Workflow.executeStep cal now step (Workflow.env_db env)). exact Hstep.
Qed.

(** X20: No request breaks the ledger: after a mark-paid request, a creation
    of an invoice through the service or the endpoint, an expense logged
    through the service or the endpoint, a chat request or a whole run of
    a workflow, with or without faults of the driver, the identifiers of
    the invoices are still distinct and every payment is still the only
    one of an invoice that is PAID. *)
Theorem requests_keep_the_ledger (cal : Calendar) (uuid : string -> option Id)
    (parseDate : string -> option Timestamp) (code_units : string -> nat)
    (is_record : JsVal -> bool) (generateObject : string -> Exc IntentResult)
    (now : Timestamp) (db : Db) :
  ledger_ok db ->
  (forall invoiceId body, ledger_ok (snd (markPaid uuid now invoiceId body db))) /\
  (forall userId params,
     ledger_ok (snd (AIService.createInvoice cal now userId params db))) /\
  (forall body, ledger_ok (snd (postInvoice cal uuid now body db))) /\
  (forall userId params, ledger_ok (snd (logExpense parseDate now userId params db))) /\
  (forall body, ledger_ok (snd (postExpense parseDate uuid now body db))) /\
  (forall body,
     ledger_ok (snd (chat cal parseDate code_units uuid is_record generateObject now body
                       db))) /\
  (forall userId workflow faults st,
     run (Workflow.executeStep_in cal now) userId workflow (Workflow.mkEnv db faults)
     = Some st ->
     ledger_ok (Workflow.env_db (world st))).
Proof.
  intros Hok. split; [|split; [|split; [|split; [|split; [|split]]]]].
  - intros invoiceId body. by apply ledger_ok_markPaid.
  - intros userId params. by apply ledger_ok_createInvoice.
  - intros body. by apply ledger_ok_postInvoice.
  - intros userId params. by apply ledger_ok_logExpense.
  - intros body. by apply ledger_ok_postExpense.
  - intros body. by apply ledger_ok_chat.
  - intros userId workflow faults st. by apply ledger_ok_run.
Qed.

(** Requests on [invoiced_store]. *)
Lemma requests_keep_the_invoiced_store :
  (forall invoiceId body,
     ledger_ok (snd (markPaid demo_uuid 2000%Z invoiceId body invoiced_store))) /\
  (forall userId params,
     ledger_ok (snd (AIService.createInvoice plain_calendar 2000%Z userId params
                       invoiced_store))) /\
  (forall body,
     ledger_ok (snd (postInvoice plain_calendar demo_uuid 2000%Z body invoiced_store))) /\
  (forall userId params,
     ledger_ok (snd (logExpense no_dates 2000%Z userId params invoiced_store))) /\
  (forall body,
     ledger_ok (snd (postExpense no_dates demo_uuid 2000%Z body invoiced_store))) /\
  (forall body,
     ledger_ok (snd (chat plain_calendar no_dates String.length demo_uuid plain_record
                       invoice_intent 2000%Z body invoiced_store))) /\
  (forall userId workflow faults st,
     run (Workflow.executeStep_in plain_calendar 2000%Z) userId workflow
         (Workflow.mkEnv invoiced_store faults)
     = Some st ->
     ledger_ok (Workflow.env_db (world st))).
Proof.
  apply (requests_keep_the_ledger plain_calendar demo_uuid no_dates String.length
           plain_record invoice_intent 2000%Z invoiced_store).
  split.
  - intros i [<-|[]]. vm_compute. lia.
  - vm_compute. repeat constructor. intros [].
  - vm_compute. constructor.
  - intros p [].
Defined.

(** ** Insights and recommendations *)

(** X21: A user without revenue in the period is told that the margin is
    negative and is given the three recommendations, whatever the
    expenses are, also when there are none. *)
Theorem no_revenue_is_called_negative (cal : Calendar) (now : Timestamp) (userId : Id)
    (period : AdvancedService.AnalysisPeriod) (db : Db) (s : FinancialSummary) :
  AdvancedService.analyzeFinancialHealth cal now userId period db
  = AdvancedService.Summary s ->
  (revenue_total s == 0)%Q ->
  analysis_advice cal now userId period true db
  = Some (["Negative profit margin. Immediate action needed to improve profitability."],
          ["Review and reduce unnecessary expenses";
           "Consider increasing prices if market allows";
           "Focus on higher-margin products/services"]) /\
  analysis_advice cal now userId period false db
  = Some (["Negative profit margin. Immediate action needed to improve profitability."],
          []).
Proof.
  intros Hs Hzero. unfold analysis_advice. rewrite Hs.
  rewrite (analyzeFinancialHealth_margin_zero cal now userId period db s Hs Hzero).
  split; reflexivity.
Qed.

(** User 1 in [two_users], a store without invoices and expenses. *)
Lemma new_user_is_called_negative :
  analysis_advice plain_calendar 1000%Z 1 AdvancedService.month true two_users
  = Some (["Negative profit margin. Immediate action needed to improve profitability."],
          ["Review and reduce unnecessary expenses";
           "Consider increasing prices if market allows";
           "Focus on higher-margin products/services"]) /\
  analysis_advice plain_calendar 1000%Z 1 AdvancedService.month false two_users
  = Some (["Negative profit margin. Immediate action needed to improve profitability."],
          []).
Proof.
  eapply (no_revenue_is_called_negative plain_calendar 1000%Z 1 AdvancedService.month
            two_users).
  - vm_compute. reflexivity.
  - reflexivity.
Defined.

(** X22: The bands of the margin: one insight in every case; the
    recommendations come exactly with a margin below 10, so never with
    the insights for a margin above 10, and a margin of exactly 10 is
    called positive and comes without recommendations. *)
Theorem advice_follows_the_margin (margin : JsNumber) :
  length (generateFinancialInsights margin) = 1 /\
  (generateRecommendations margin <> [] <-> js_lt margin 10 = true) /\
  (js_gt margin 10 = true -> generateRecommendations margin = []) /\
  (js_lt margin 10 = true ->
   generateFinancialInsights margin
   = ["Positive profit margin, but there's room for improvement."] \/
   generateFinancialInsights margin
   = ["Negative profit margin. Immediate action needed to improve profitability."]) /\
  generateFinancialInsights (Finite 10)
  = ["Positive profit margin, but there's room for improvement."] /\
  generateRecommendations (Finite 10) = [].
Proof.
  split; [|split; [|split; [|split; [|split; reflexivity]]]].
  - unfold generateFinancialInsights.
    destruct (js_gt margin 20), (js_gt margin 10), (js_gt margin 0); reflexivity.
  - unfold generateRecommendations. destruct (js_lt margin 10); split; done.
  - unfold generateRecommendations.
    destruct margin as [q| | |]; simpl; try discriminate; try reflexivity.
    intros Hgt. replace (Qltb q 10) with false; [reflexivity|].
    symmetry. apply Qltb_ge. apply Qltb_lt in Hgt. lra.
  - unfold generateFinancialInsights.
    destruct margin as [q| | |]; simpl; try discriminate.
    + intros Hlt. apply Qltb_lt in Hlt.
      replace (Qltb 20 q) with false by (symmetry; apply Qltb_ge; lra).
      replace (Qltb 10 q) with false by (symmetry; apply Qltb_ge; lra).
      destruct (Qltb 0 q); [by left|by right].
    + intros _. by right.
Qed.
